(** * daily_pubmed_digest: record normalisation and the sent-PMID store

    A shallow embedding of [daily_pubmed_digest.py]: the field extractors
    ([_fmt_date], [_extract_pubdate_display], the author line of
    [parse_records]), country inference ([_extract_country_from_aff]), the
    persisted state ([load_sent_state], [save_sent_state]) and the loop of
    [main], followed by the properties of the specification that they
    decide; then the search over several queries
    ([pubmed_multi_esearch_all]) and what the program does with the
    summariser's answer ([_format_bullets], [summarize_title_and_bullets]),
    with further properties of the code.

    Python values are modelled as the interpreter has them:
    - a [str] is a sequence of code points (of Unicode scalar values: what
      UTF-8 text decodes to);
    - a [dict] is an association of keys to values in insertion order;
    - an exception is a [Raise] result, and [try]/[except] a match on it;
    - [re] patterns are run by a backtracking matcher, ElementPath
      expressions by selection steps over the element tree;
    - the file of the store holds a JSON value, which [json.dump] writes and
      [json.load] reads.

    What lies outside the program is a parameter: the XML parser behind
    [ET.fromstring], the answers of [pubmed_esearch] and [pubmed_efetch],
    the answers of the summariser, whether the client of the model can be
    built and what the model answers, [str] of a value that is no string,
    and the character tables of the interpreter above U+00FF.
    Printing and sleeping are left out. *)

From Stdlib Require Import List NArith ZArith Bool Ascii String Lia.
From Stdlib Require Import Permutation Sorted.
From Stdlib Require Floats.SpecFloat.
Import ListNotations.

Set Implicit Arguments.
Set Warnings "-register-all".
Local Open Scope N_scope.

(* ================================================================== *)
(** * Python strings *)
(* ================================================================== *)

(** A [str] is a sequence of Unicode code points. *)
Definition pystr := list N.

(** Decoding of the UTF-8 bytes of a literal of this file. *)
Fixpoint utf8_decode (bs : list N) : pystr :=
  match bs with
  | [] => []
  | b :: r =>
      if b <? 128 then b :: utf8_decode r
      else if b <? 224 then
        match r with
        | c1 :: r' => ((b mod 32) * 64 + c1 mod 64) :: utf8_decode r'
        | _ => []
        end
      else if b <? 240 then
        match r with
        | c1 :: c2 :: r' =>
            ((b mod 16) * 4096 + (c1 mod 64) * 64 + c2 mod 64) :: utf8_decode r'
        | _ => []
        end
      else
        match r with
        | c1 :: c2 :: c3 :: r' =>
            ((b mod 8) * 262144 + (c1 mod 64) * 4096 + (c2 mod 64) * 64 + c3 mod 64)
              :: utf8_decode r'
        | _ => []
        end
  end.

Definition py (s : string) : pystr :=
  utf8_decode (map N_of_ascii (list_ascii_of_string s)).

Definition str_eqb (a b : pystr) : bool :=
  if list_eq_dec N.eq_dec a b then true else false.

(** Truthiness of a [str]: the empty string is falsy. *)
Definition nonempty (s : pystr) : bool :=
  match s with [] => false | _ => true end.

(** [a or b] on strings. *)
Definition str_or (a b : pystr) : pystr := if nonempty a then a else b.

(** [x or ""] where [x] may be [None]. *)
Definition or_empty (x : option pystr) : pystr :=
  match x with Some s => s | None => [] end.

Definition in_range (lo hi c : N) : bool := (lo <=? c) && (c <=? hi).

(** ** Character data

    The interpreter's character tables are fixed below U+0100, where they are
    short enough to write out.  Above, they are the Unicode database of the
    interpreter, which the development takes as given. *)

Class UnicodeData := {
  (** [str.isalnum] of one character from U+0100 on. *)
  uni_isalnum : N -> bool;
  (** [str.isdigit] of one character from U+0100 on. *)
  uni_isdigit : N -> bool;
  (** What [str.lower] puts for a character from U+0100 on, given the text
      before and after it (the final-sigma rule reads both). *)
  uni_lower : pystr -> N -> pystr -> pystr;
  (** The case-insensitive literal test of [re] ([text character], [pattern
      character]) when one of the two is U+0100 or above. *)
  uni_ieq : N -> N -> bool
}.

(** The tables cut off at U+00FF: nothing above is alphanumeric or a digit,
    and case mapping leaves it alone.  Results on Latin-1 text do not read
    it. *)
Definition latin1_tables : UnicodeData :=
  {| uni_isalnum := fun _ => false;
     uni_isdigit := fun _ => false;
     uni_lower := fun _ c _ => [c];
     uni_ieq := N.eqb |}.

(** [str.isspace] of one character, which is also [\s] of [re] and what
    [str.strip()] removes. *)
Definition is_space (c : N) : bool :=
  in_range 9 13 c || in_range 28 32 c || (c =? 133) || (c =? 160)
  || (c =? 5760) || in_range 8192 8202 c || (c =? 8232) || (c =? 8233)
  || (c =? 8239) || (c =? 8287) || (c =? 12288).

Definition is_ascii_digit (c : N) : bool := in_range 48 57 c.
Definition is_ascii_upper (c : N) : bool := in_range 65 90 c.
Definition is_ascii_lower (c : N) : bool := in_range 97 122 c.
Definition is_ascii_alpha (c : N) : bool := is_ascii_upper c || is_ascii_lower c.

(** Lower case of one character below U+0100. *)
Definition lower_latin1 (c : N) : N :=
  if is_ascii_upper c then c + 32
  else if in_range 192 222 c && negb (c =? 215) then c + 32
  else c.

Section Characters.
Context {U : UnicodeData}.

Definition is_digit (c : N) : bool :=
  if c <? 256 then
    is_ascii_digit c || (c =? 178) || (c =? 179) || (c =? 185)
  else uni_isdigit c.

Definition is_alnum (c : N) : bool :=
  if c <? 128 then is_ascii_digit c || is_ascii_alpha c
  else if c <? 256 then
    (c =? 170) || (c =? 178) || (c =? 179) || (c =? 181) || (c =? 185)
    || (c =? 186) || in_range 188 190 c
    || (in_range 192 255 c && negb (c =? 215) && negb (c =? 247))
  else uni_isalnum c.

(** [\w] of [re] on a [str] pattern. *)
Definition is_word (c : N) : bool := is_alnum c || (c =? 95).

(** [s.lower()], character by character. *)
Fixpoint lower_from (before : pystr) (s : pystr) : pystr :=
  match s with
  | [] => []
  | c :: r =>
      (if c <? 256 then [lower_latin1 c] else uni_lower before c r)
        ++ lower_from (before ++ [c]) r
  end.

Definition lower (s : pystr) : pystr := lower_from [] s.

(** [s.isdigit()]: non-empty and every character a digit. *)
Definition isdigit (s : pystr) : bool := nonempty s && forallb is_digit s.

(** The literal test of [re] under [(?i)]. *)
Definition ieq (text_c pat_c : N) : bool :=
  if (text_c <? 256) && (pat_c <? 256)
  then lower_latin1 text_c =? lower_latin1 pat_c
  else uni_ieq text_c pat_c.
End Characters.

(** ** [strip], [split], [join] *)

Fixpoint lstrip_by (p : N -> bool) (s : pystr) : pystr :=
  match s with
  | c :: r => if p c then lstrip_by p r else s
  | [] => []
  end.

Definition rstrip_by (p : N -> bool) (s : pystr) : pystr :=
  rev (lstrip_by p (rev s)).

Definition strip_by (p : N -> bool) (s : pystr) : pystr :=
  rstrip_by p (lstrip_by p s).

(** [s.strip()] *)
Definition strip (s : pystr) : pystr := strip_by is_space s.

Definition mem_chars (chars : pystr) (c : N) : bool := existsb (N.eqb c) chars.

(** [s.strip(chars)] and [s.lstrip(chars)] *)
Definition strip_chars (chars s : pystr) : pystr := strip_by (mem_chars chars) s.

(** [s.split(sep)] for a separator of one character: the pieces between
    occurrences, at least one piece. *)
Fixpoint split_on (sep : N) (s : pystr) : list pystr :=
  match s with
  | [] => [[]]
  | c :: r =>
      if c =? sep then [] :: split_on sep r
      else match split_on sep r with
           | p :: ps => (c :: p) :: ps
           | [] => [[c]]
           end
  end.

(** [sep.join(parts)] *)
Fixpoint join (sep : pystr) (parts : list pystr) : pystr :=
  match parts with
  | [] => []
  | [p] => p
  | p :: ps => p ++ sep ++ join sep ps
  end.

(** [s.endswith(suffix)] *)
Definition endswith (s suffix : pystr) : bool :=
  (List.length suffix <=? List.length s)%nat
  && str_eqb (skipn (List.length s - List.length suffix) s) suffix.

(** [s.startswith(prefix)] *)
Definition startswith (s prefix : pystr) : bool :=
  str_eqb (firstn (List.length prefix) s) prefix.

(** [xs[-1]] of a non-empty list. *)
Definition last_piece (xs : list pystr) : pystr := last xs [].

(* ================================================================== *)
(** * The [re] patterns of the program

    The patterns used by the program are sequences and alternatives of
    literals, character sets, greedy repetitions of one character set, the
    anchors and groups.  [rmatch] is the backtracking matcher of [re] on that
    fragment: it offers every way of matching to its continuation, longest
    repetition first, first alternative first. *)
(* ================================================================== *)

Inductive cset_item :=
| One (c : N)          (* a character *)
| Range (lo hi : N)    (* lo-hi *)
| Word                 (* \w *)
| Space.               (* \s *)

Definition cset := list cset_item.

Inductive regex :=
| Eps
| Lit (c : N)                  (* a literal character *)
| LitI (c : N)                 (* a literal character under (?i) *)
| Cls (cs : cset)              (* [...] *)
| Many1 (cs : cset)            (* [...]+ and \w+, \s+ *)
| Seq (a b : regex)
| Or (a b : regex)             (* a|b *)
| Bol                          (* ^ *)
| Eol                          (* $ *)
| Group (n : nat) (a : regex). (* the n-th parenthesis *)

(** A match object: [m.start()], [m.end()] and the groups that took part. *)
Record rmatch_result := MatchObj {
  m_start : nat;
  m_end : nat;
  m_groups : list (nat * pystr)
}.

Fixpoint assoc_nat (n : nat) (g : list (nat * pystr)) : option pystr :=
  match g with
  | [] => None
  | (k, v) :: r => if Nat.eqb k n then Some v else assoc_nat n r
  end.

(** [m.group(n)] *)
Definition group (n : nat) (m : rmatch_result) : pystr :=
  or_empty (assoc_nat n (m_groups m)).

(** Sequence of literals, as [re.escape] of a plain string gives under [(?i)]. *)
Definition lits_i (s : pystr) : regex := fold_right (fun c r => Seq (LitI c) r) Eps s.

Section Regex.
Context {U : UnicodeData}.

Definition in_item (c : N) (it : cset_item) : bool :=
  match it with
  | One x => c =? x
  | Range lo hi => in_range lo hi c
  | Word => is_word c
  | Space => is_space c
  end.

Definition in_cset (cs : cset) (c : N) : bool := existsb (in_item c) cs.

Section Matcher.
Variable R : Type.

(** Zero or more characters of [p], as many as the rest of the pattern
    allows. *)
Fixpoint many (p : N -> bool) (pos : nat) (s : pystr)
         (k : nat -> pystr -> option R) : option R :=
  match s with
  | c :: r =>
      if p c then
        match many p (S pos) r k with
        | Some x => Some x
        | None => k pos s
        end
      else k pos s
  | [] => k pos s
  end.

Fixpoint rmatch (r : regex) (pos : nat) (s : pystr) (g : list (nat * pystr))
         (k : nat -> pystr -> list (nat * pystr) -> option R) : option R :=
  match r with
  | Eps => k pos s g
  | Lit c =>
      match s with
      | x :: s' => if x =? c then k (S pos) s' g else None
      | [] => None
      end
  | LitI c =>
      match s with
      | x :: s' => if ieq x c then k (S pos) s' g else None
      | [] => None
      end
  | Cls cs =>
      match s with
      | x :: s' => if in_cset cs x then k (S pos) s' g else None
      | [] => None
      end
  | Many1 cs =>
      match s with
      | x :: s' =>
          if in_cset cs x
          then many (in_cset cs) (S pos) s' (fun p' t => k p' t g)
          else None
      | [] => None
      end
  | Seq a b => rmatch a pos s g (fun p' t g' => rmatch b p' t g' k)
  | Or a b =>
      match rmatch a pos s g k with
      | Some x => Some x
      | None => rmatch b pos s g k
      end
  | Bol => if Nat.eqb pos 0 then k pos s g else None
  | Eol =>
      match s with
      | [] => k pos s g
      | [c] => if c =? 10 then k pos s g else None
      | _ => None
      end
  | Group n a =>
      rmatch a pos s g (fun p' t g' => k p' t ((n, firstn (p' - pos) s) :: g'))
  end.
End Matcher.

(** The match of [r] that starts at [pos], where [s] is the text from
    [pos] on; the text left after the match comes with it. *)
Definition match_at (r : regex) (pos : nat) (s : pystr)
  : option (rmatch_result * pystr) :=
  rmatch r pos s [] (fun e t g => Some (MatchObj pos e g, t)).

(** [re.match(r, s)] *)
Definition re_match (r : regex) (s : pystr) : option rmatch_result :=
  option_map fst (match_at r 0 s).

Fixpoint search_from (r : regex) (pos : nat) (s : pystr) : option rmatch_result :=
  match match_at r pos s with
  | Some (m, _) => Some m
  | None =>
      match s with
      | [] => None
      | _ :: s' => search_from r (S pos) s'
      end
  end.

(** [re.search(r, s)]: the match at the leftmost position that has one. *)
Definition re_search (r : regex) (s : pystr) : option rmatch_result :=
  search_from r 0 s.

(** [re.sub(r, repl, s)] for a pattern that matches no empty text and a
    replacement without references.  The fuel is the length of the text:
    each step consumes at least one character. *)
Fixpoint sub_from (fuel : nat) (r : regex) (repl : pystr) (pos : nat) (s : pystr)
  : pystr :=
  match fuel, s with
  | O, _ => s
  | _, [] => []
  | S f, c :: s' =>
      match match_at r pos s with
      | Some (m, t) =>
          if (pos <? m_end m)%nat
          then repl ++ sub_from f r repl (m_end m) t
          else c :: sub_from f r repl (S pos) s'
      | None => c :: sub_from f r repl (S pos) s'
      end
  end.

Definition re_sub (r : regex) (repl s : pystr) : pystr :=
  sub_from (List.length s) r repl 0 s.

(** [re.split(r, s)] for a pattern without groups that matches no empty
    text: the pieces between the matches.  [cur] is the piece being read,
    reversed. *)
Fixpoint split_from (fuel : nat) (r : regex) (pos : nat) (s : pystr) (cur : pystr)
  : list pystr :=
  match fuel, s with
  | O, _ => [rev cur ++ s]
  | _, [] => [rev cur]
  | S f, c :: s' =>
      match match_at r pos s with
      | Some (m, t) =>
          if (pos <? m_end m)%nat
          then rev cur :: split_from f r (m_end m) t []
          else split_from f r (S pos) s' (c :: cur)
      | None => split_from f r (S pos) s' (c :: cur)
      end
  end.

Definition re_split (r : regex) (s : pystr) : list pystr :=
  split_from (List.length s) r 0 s [].
End Regex.

(* ================================================================== *)
(** * Results and exceptions *)
(* ================================================================== *)

(** The exceptions that reach this model. *)
Inductive exn :=
| ParseError          (* xml.etree.ElementTree.ParseError *)
| JSONDecodeError.    (* json.JSONDecodeError, and whatever else json.load raises *)

(** The outcome of a call that may raise. *)
Inductive result (A : Type) :=
| Ok (a : A)
| Raise (e : exn).

Arguments Ok {A} a.
Arguments Raise {A} e.

Definition bind {A B : Type} (r : result A) (f : A -> result B) : result B :=
  match r with
  | Ok a => f a
  | Raise e => Raise e
  end.

Notation "x <- c ;; k" := (bind c (fun x => k))
  (at level 61, c at next level, right associativity).

(* ================================================================== *)
(** * [xml.etree.ElementTree] elements *)
(* ================================================================== *)

(** An [Element]: tag, attributes in document order, the text before the
    first child, the children, and the text after the end tag ([tail]).
    [text] and [tail] are [None] where the document has no character data. *)
Inductive Element :=
| Elem (tag : pystr) (attrib : list (pystr * pystr)) (text : option pystr)
       (children : list Element) (tail : option pystr).

Definition tag (e : Element) : pystr := let 'Elem t _ _ _ _ := e in t.
Definition attrib (e : Element) : list (pystr * pystr) := let 'Elem _ a _ _ _ := e in a.
Definition text (e : Element) : option pystr := let 'Elem _ _ x _ _ := e in x.
Definition children (e : Element) : list Element := let 'Elem _ _ _ c _ := e in c.
Definition tail (e : Element) : option pystr := let 'Elem _ _ _ _ x := e in x.

(** [d.get(k)] on a dict with string keys, as an association in insertion
    order. *)
Fixpoint dict_get {V : Type} (k : pystr) (d : list (pystr * V)) : option V :=
  match d with
  | [] => None
  | (k', v) :: r => if str_eqb k' k then Some v else dict_get k r
  end.

(** [d.get(k, default)] *)
Definition get_default (k : pystr) (d : list (pystr * pystr)) (default : pystr) : pystr :=
  match dict_get k d with Some v => v | None => default end.

(** [elem.iter()]: the element and its descendants, in document order. *)
Fixpoint iter (e : Element) : list Element :=
  match e with
  | Elem _ _ _ cs _ => e :: flat_map iter cs
  end.

(** The descendants of [e], itself excluded. *)
Definition descendants (e : Element) : list Element := flat_map iter (children e).

(** [elem.itertext()]: the inner text, with the tails of the descendants. *)
Fixpoint itertext (e : Element) : list pystr :=
  match e with
  | Elem _ _ t cs _ =>
      (match t with Some s => if nonempty s then [s] else [] | None => [] end)
        ++ flat_map (fun c =>
                       itertext c
                         ++ match tail c with
                            | Some s => if nonempty s then [s] else []
                            | None => []
                            end) cs
  end.

(** ** The ElementPath expressions of the program

    Every path of the program is [.//A], [.//A/B], [.//A/B[@k='v']] or a
    plain child tag. *)
Inductive step :=
| Descendant (t : pystr)        (* //t : descendants with this tag *)
| Child (t : pystr)             (* /t  : children with this tag *)
| AttrIs (k v : pystr).         (* [@k='v'] *)

Definition has_tag (t : pystr) (e : Element) : bool := str_eqb (tag e) t.

Definition select (st : step) (es : list Element) : list Element :=
  match st with
  | Descendant t => flat_map (fun e => filter (has_tag t) (descendants e)) es
  | Child t => flat_map (fun e => filter (has_tag t) (children e)) es
  | AttrIs k v =>
      filter (fun e => match dict_get k (attrib e) with
                       | Some x => str_eqb x v
                       | None => false
                       end) es
  end.

(** [elem.findall(path)] *)
Definition findall (path : list step) (e : Element) : list Element :=
  fold_left (fun es st => select st es) path [e].

(** [elem.find(path)] *)
Definition find (path : list step) (e : Element) : option Element :=
  hd_error (findall path e).

(** [elem.findtext(path)]: [None] without a match, the text of the first
    match otherwise, [""] where that text is [None]. *)
Definition findtext (path : list step) (e : Element) : option pystr :=
  option_map (fun x => or_empty (text x)) (find path e).

(* ================================================================== *)
(** * A parser for [ET.fromstring]

    [parse_records] is stated over any parser; to run it on a document this
    section gives one for the XML that [efetch] returns: an optional byte
    order mark and XML declaration at the very start, a prolog of a document
    type declaration, processing instructions and comments, then one root
    element with attributes, character data, the predefined and numeric
    references and CDATA sections.  Names are read with their namespaces, as
    the parser behind [ET.fromstring] reports them: a tag or an attribute
    with a prefix becomes [{uri}local], a tag without one takes the default
    namespace, and the [xmlns] attributes are not attributes of the element.
    A document outside that fragment (an internal DTD subset, a declared
    entity in character data) is refused here, and every character above
    U+007F is taken as a character of names. *)
(* ================================================================== *)

Module Xml.

Inductive token :=
| TStart (name : pystr) (attrs : list (pystr * pystr))
| TEmpty (name : pystr) (attrs : list (pystr * pystr))
| TEnd (name : pystr)
| TData (s : pystr)
| TDoctype.

Definition xml_space (c : N) : bool := (c =? 32) || (c =? 9) || (c =? 10) || (c =? 13).

Definition xml_char (c : N) : bool :=
  (c =? 9) || (c =? 10) || (c =? 13) || in_range 32 55295 c
  || in_range 57344 65533 c || in_range 65536 1114111 c.

Definition name_start (c : N) : bool :=
  is_ascii_alpha c || (c =? 95) || (c =? 58) || (128 <=? c).

Definition name_char (c : N) : bool :=
  name_start c || is_ascii_digit c || (c =? 45) || (c =? 46).

Definition valid_name (s : pystr) : bool :=
  match s with
  | c :: _ => name_start c
  | [] => false
  end.

(** A name of an element or attribute: at most one colon, which stands
    between a prefix and a local name. *)
Definition valid_qname (s : pystr) : bool :=
  match split_on 58 s with
  | [a] => valid_name a
  | [p; l] => valid_name p && valid_name l
  | _ => false
  end.

(** The target of a processing instruction: a name without a colon that is
    not [xml] in any case of its letters. *)
Definition valid_target (s : pystr) : bool :=
  valid_name s && negb (existsb (N.eqb 58) s)
  && negb (str_eqb (map lower_latin1 s) (py "xml")).

Fixpoint span (p : N -> bool) (s : pystr) : pystr * pystr :=
  match s with
  | c :: r => if p c then let (a, b) := span p r in (c :: a, b) else ([], s)
  | [] => ([], [])
  end.

(** The text before the first occurrence of [pat] and the text after it. *)
Fixpoint cut_at (pat : pystr) (s : pystr) : option (pystr * pystr) :=
  if startswith s pat then Some ([], skipn (List.length pat) s)
  else match s with
       | [] => None
       | c :: r =>
           match cut_at pat r with
           | Some (a, b) => Some (c :: a, b)
           | None => None
           end
       end.

Fixpoint number (base : N) (digits : pystr) (acc : N) : option N :=
  match digits with
  | [] => Some acc
  | c :: r =>
      let d := if is_ascii_digit c then Some (c - 48)
               else if in_range 97 102 c then Some (c - 87)
               else if in_range 65 70 c then Some (c - 55)
               else None in
      match d with
      | Some v => if v <? base then number base r (acc * base + v) else None
      | None => None
      end
  end.

(** The character a reference [&name;] stands for. *)
Definition reference (name : pystr) : option N :=
  if str_eqb name (py "lt") then Some 60
  else if str_eqb name (py "gt") then Some 62
  else if str_eqb name (py "amp") then Some 38
  else if str_eqb name (py "quot") then Some 34
  else if str_eqb name (py "apos") then Some 39
  else match name with
       | 35 :: 120 :: ((_ :: _) as h) =>
           match number 16 h 0 with
           | Some c => if xml_char c then Some c else None
           | None => None
           end
       | 35 :: ((_ :: _) as d) =>
           match number 10 d 0 with
           | Some c => if xml_char c then Some c else None
           | None => None
           end
       | _ => None
       end.

(** Character data with its references replaced; [pending] is the name of
    the reference being read, reversed.  With [skip], a reference to an
    entity that is not known stands for nothing: so the parser reads an
    attribute value when the document names an external subset, where the
    entity may be declared. *)
Fixpoint decode_refs (skip : bool) (s : pystr) (pending : option pystr) : result pystr :=
  match s, pending with
  | [], None => Ok []
  | [], Some _ => Raise ParseError
  | c :: r, None =>
      if c =? 38 then decode_refs skip r (Some [])
      else (x <- decode_refs skip r None ;; Ok (c :: x))
  | c :: r, Some acc =>
      if c =? 59 then
        match reference (rev acc) with
        | Some ch => x <- decode_refs skip r None ;; Ok (ch :: x)
        | None =>
            if skip && valid_name (rev acc) && forallb name_char acc
               && negb (existsb (N.eqb 58) acc)
            then decode_refs skip r None
            else Raise ParseError
        end
      else decode_refs skip r (Some (c :: acc))
  end.

(** ** The document type declaration *)

Definition pubid_char (c : N) : bool :=
  (c =? 32) || (c =? 13) || (c =? 10) || is_ascii_alpha c || is_ascii_digit c
  || existsb (N.eqb c) (py "-'()+,./:=?;!*#@$_%").

(** A quoted literal at the start of the text: what it holds and the text
    after it. *)
Definition literal (s : pystr) : option (pystr * pystr) :=
  match s with
  | q :: r => if (q =? 34) || (q =? 39) then cut_at [q] r else None
  | [] => None
  end.

(** The external identifier of a document type declaration: [SYSTEM] with
    a literal, or [PUBLIC] with a public identifier and a literal; the text
    after it. *)
Definition external_id (s : pystr) : option pystr :=
  if startswith s (py "SYSTEM") then
    let (sp, r) := span xml_space (skipn 6 s) in
    if nonempty sp then option_map snd (literal r) else None
  else if startswith s (py "PUBLIC") then
    let (sp, r) := span xml_space (skipn 6 s) in
    match literal r with
    | Some (pid, r1) =>
        let (sp1, r2) := span xml_space r1 in
        if nonempty sp && forallb pubid_char pid && nonempty sp1
        then option_map snd (literal r2)
        else None
    | None => None
    end
  else None.

(** The text after [<!DOCTYPE]: a name, an external identifier or none,
    and [>]; whether an external subset is named, and the text left. *)
Definition doctype (s : pystr) : option (bool * pystr) :=
  let (sp, r) := span xml_space s in
  let (nm, r1) := span name_char r in
  let (sp1, r2) := span xml_space r1 in
  if nonempty sp && valid_qname nm then
    match r2 with
    | 62 :: r3 => Some (false, r3)
    | _ =>
        if nonempty sp1 then
          match external_id r2 with
          | Some r3 =>
              match snd (span xml_space r3) with
              | 62 :: r4 => Some (true, r4)
              | _ => None
              end
          | None => None
          end
        else None
    end
  else None.

(** ** The XML declaration *)

(** The characters of a value in the XML declaration. *)
Definition decl_char (c : N) : bool :=
  is_ascii_alpha c || is_ascii_digit c || (c =? 46) || (c =? 45) || (c =? 95).

(** One pseudo-attribute of the declaration: whitespace, a name, [=] and a
    quoted value; the name, the value and the text left. *)
Definition pseudo_attr (s : pystr) : option (pystr * pystr * pystr) :=
  let (sp, r) := span xml_space s in
  let (nm, r1) := span is_ascii_alpha r in
  let (_, r2) := span xml_space r1 in
  match r2 with
  | 61 :: r3 =>
      let (_, r4) := span xml_space r3 in
      match r4 with
      | q :: r5 =>
          let (v, r6) := span decl_char r5 in
          match r6 with
          | q' :: r7 =>
              if ((q =? 34) || (q =? 39)) && (q' =? q) && nonempty sp && nonempty nm
              then Some (nm, v, r7)
              else None
          | [] => None
          end
      | [] => None
      end
  | _ => None
  end.

Definition encoding_ok (v : pystr) : bool :=
  match v with
  | c :: _ => is_ascii_alpha c
  | [] => false
  end.

Definition standalone_ok (v : pystr) : bool :=
  str_eqb v (py "yes") || str_eqb v (py "no").

(** What stands between [<?xml] and [?>]: the version, then an encoding
    and a standalone declaration, each of them optional. *)
Definition xml_decl_ok (body : pystr) : bool :=
  match pseudo_attr body with
  | Some (n1, _, r1) =>
      str_eqb n1 (py "version")
      && (forallb xml_space r1
          || match pseudo_attr r1 with
             | Some (n2, v2, r2) =>
                 (str_eqb n2 (py "encoding") && encoding_ok v2
                  && (forallb xml_space r2
                      || match pseudo_attr r2 with
                         | Some (n3, v3, r3) =>
                             str_eqb n3 (py "standalone") && standalone_ok v3
                             && forallb xml_space r3
                         | None => false
                         end))
                 || (str_eqb n2 (py "standalone") && standalone_ok v2
                     && forallb xml_space r2)
             | None => false
             end)
  | None => false
  end.

(** The document after its XML declaration, if it starts with one. *)
Definition after_decl (s : pystr) : option pystr :=
  if startswith s (py "<?xml")
     && match skipn 5 s with c :: _ => negb (name_char c) | [] => true end
  then match cut_at (py "?>") (skipn 5 s) with
       | Some (body, rest) => if xml_decl_ok body then Some rest else None
       | None => None
       end
  else Some s.

(** The attributes of a start tag, from the text after its name to its [>]
    or [/>]: the attributes, whether the tag closes itself, the text left. *)
Fixpoint lex_attrs (skip : bool) (fuel : nat) (s : pystr) (acc : list (pystr * pystr))
  : result (list (pystr * pystr) * bool * pystr) :=
  match fuel with
  | O => Raise ParseError
  | S f =>
      let (sp, r) := span xml_space s in
      match r with
      | 62 :: r' => Ok (rev acc, false, r')
      | 47 :: 62 :: r' => Ok (rev acc, true, r')
      | _ =>
          let (nm, r1) := span name_char r in
          let (_, r2) := span xml_space r1 in
          match r2 with
          | 61 :: r3 =>
              let (_, r4) := span xml_space r3 in
              match r4 with
              | q :: r5 =>
                  match cut_at [q] r5 with
                  | Some (v, r6) =>
                      if nonempty sp && valid_qname nm && ((q =? 34) || (q =? 39))
                         && negb (existsb (N.eqb 60) v)
                         && match dict_get nm acc with Some _ => false | None => true end
                      then
                        v' <- decode_refs skip
                                (map (fun c => if xml_space c then 32 else c) v) None ;;
                        lex_attrs skip f r6 ((nm, v') :: acc)
                      else Raise ParseError
                  | None => Raise ParseError
                  end
              | [] => Raise ParseError
              end
          | _ => Raise ParseError
          end
      end
  end.

(** The tokens of a document.  [dt] tells whether a document type
    declaration has been read, and whether it names an external subset. *)
Fixpoint lex (fuel : nat) (dt : option bool) (s : pystr) : result (list token) :=
  match fuel, s with
  | _, [] => Ok []
  | O, _ => Raise ParseError
  | S f, 60 :: r =>
      match r with
      | 63 :: r1 =>
          match cut_at (py "?>") r1 with
          | Some (body, r2) =>
              let (target, rest) := span name_char body in
              if valid_target target
                 && match rest with c :: _ => xml_space c | [] => true end
              then lex f dt r2
              else Raise ParseError
          | None => Raise ParseError
          end
      | 33 :: 45 :: 45 :: r1 =>
          match cut_at (py "--") r1 with
          | Some (_, 62 :: r2) => lex f dt r2
          | _ => Raise ParseError
          end
      | 33 :: 91 :: r1 =>
          if startswith r1 (py "CDATA[") then
            match cut_at (py "]]>") (skipn 6 r1) with
            | Some (d, r2) => ts <- lex f dt r2 ;; Ok (TData d :: ts)
            | None => Raise ParseError
            end
          else Raise ParseError
      | 33 :: r1 =>
          if startswith r1 (py "DOCTYPE") then
            match dt, doctype (skipn 7 r1) with
            | None, Some (ext, r2) => ts <- lex f (Some ext) r2 ;; Ok (TDoctype :: ts)
            | _, _ => Raise ParseError
            end
          else Raise ParseError
      | 47 :: r1 =>
          let (nm, r2) := span name_char r1 in
          let (_, r3) := span xml_space r2 in
          match r3 with
          | 62 :: r4 =>
              if valid_qname nm then ts <- lex f dt r4 ;; Ok (TEnd nm :: ts)
              else Raise ParseError
          | _ => Raise ParseError
          end
      | _ =>
          let (nm, r1) := span name_char r in
          if valid_qname nm then
            a <- lex_attrs (match dt with Some ext => ext | None => false end)
                           (S (List.length r1)) r1 [] ;;
            let '(attrs, closed, r2) := a in
            ts <- lex f dt r2 ;;
            Ok ((if closed then TEmpty nm attrs else TStart nm attrs) :: ts)
          else Raise ParseError
      end
  | S f, _ =>
      let (txt, r) := span (fun c => negb (c =? 60)) s in
      match cut_at (py "]]>") txt with
      | Some _ => Raise ParseError
      | None =>
          d <- decode_refs false txt None ;;
          ts <- lex f dt r ;;
          Ok (TData d :: ts)
      end
  end.

(** ** Namespaces *)

(** The prefixes in scope with their namespace names, the innermost
    declaration first; the empty prefix stands for the default namespace. *)
Definition bindings := list (pystr * pystr).

Definition xml_ns : pystr := py "http://www.w3.org/XML/1998/namespace".
Definition xmlns_ns : pystr := py "http://www.w3.org/2000/xmlns/".

Definition initial_ns : bindings := [(py "xml", xml_ns)].

(** A namespace name that no declaration may bind, or that holds the
    character which separates it from the local name. *)
Definition refused_ns (v : pystr) : bool :=
  str_eqb v xml_ns || str_eqb v xmlns_ns || existsb (N.eqb 125) v.

Definition is_decl (n : pystr) : bool :=
  str_eqb n (py "xmlns") || startswith n (py "xmlns:").

(** The scope inside a start tag with these attributes; [None] for a
    declaration that is refused. *)
Fixpoint declare (attrs : list (pystr * pystr)) (ns : bindings) : option bindings :=
  match attrs with
  | [] => Some ns
  | (n, v) :: r =>
      if str_eqb n (py "xmlns") then
        if refused_ns v then None else declare r (([], v) :: ns)
      else if startswith n (py "xmlns:") then
        let p := skipn 6 n in
        if str_eqb p (py "xmlns") then None
        else if str_eqb p (py "xml") then
          if str_eqb v xml_ns then declare r ns else None
        else if nonempty v && negb (refused_ns v) then declare r ((p, v) :: ns)
        else None
      else declare r ns
  end.

(** The name as [ElementTree] has it: [{uri}local] for a name in a
    namespace.  A name without a prefix takes the default namespace when it
    names an element; [None] for a prefix that is not bound. *)
Definition expand (ns : bindings) (is_attr : bool) (n : pystr) : option pystr :=
  match split_on 58 n with
  | [p; l] =>
      match dict_get p ns with
      | Some u => Some ([123] ++ u ++ [125] ++ l)
      | None => None
      end
  | _ =>
      if is_attr then Some n
      else match dict_get [] ns with
           | Some u => if nonempty u then Some ([123] ++ u ++ [125] ++ n) else Some n
           | None => Some n
           end
  end.

(** The attributes of an element: the declarations left out, the names
    expanded; [None] for an unbound prefix or a name that comes twice. *)
Fixpoint expand_attrs (ns : bindings) (attrs acc : list (pystr * pystr))
  : option (list (pystr * pystr)) :=
  match attrs with
  | [] => Some (rev acc)
  | (n, v) :: r =>
      if is_decl n then expand_attrs ns r acc
      else match expand ns true n with
           | Some n' =>
               match dict_get n' acc with
               | Some _ => None
               | None => expand_attrs ns r ((n', v) :: acc)
               end
           | None => None
           end
  end.

(** An element under construction: what [TreeBuilder] holds for an open
    tag, with the name as written, which the end tag has to repeat, and the
    namespaces in scope.  The children are kept latest first. *)
Record frame := Frame {
  f_raw : pystr;
  f_ns : bindings;
  f_tag : pystr;
  f_attrib : list (pystr * pystr);
  f_text : pystr;
  f_kids : list Element
}.

Definition some_text (s : pystr) : option pystr :=
  if nonempty s then Some s else None.

(** Character data goes to the text of the open element, or to the tail of
    its latest child. *)
Definition add_data (s : pystr) (fr : frame) : frame :=
  match f_kids fr with
  | [] => Frame (f_raw fr) (f_ns fr) (f_tag fr) (f_attrib fr) (f_text fr ++ s) []
  | Elem t a x cs tl :: ks =>
      Frame (f_raw fr) (f_ns fr) (f_tag fr) (f_attrib fr) (f_text fr)
            (Elem t a x cs (some_text (or_empty tl ++ s)) :: ks)
  end.

Definition add_kid (e : Element) (fr : frame) : frame :=
  Frame (f_raw fr) (f_ns fr) (f_tag fr) (f_attrib fr) (f_text fr) (e :: f_kids fr).

Definition close (fr : frame) : Element :=
  Elem (f_tag fr) (f_attrib fr) (some_text (f_text fr)) (rev (f_kids fr)) None.

(** The frame of a start tag inside the elements of [stack]. *)
Definition open_tag (n : pystr) (a : list (pystr * pystr)) (stack : list frame)
  : result frame :=
  let outer := match stack with fr :: _ => f_ns fr | [] => initial_ns end in
  match declare a outer with
  | Some ns =>
      match expand ns false n, expand_attrs ns a [] with
      | Some t, Some a' => Ok (Frame n ns t a' [] [])
      | _, _ => Raise ParseError
      end
  | None => Raise ParseError
  end.

Fixpoint build (ts : list token) (stack : list frame) (root : option Element)
  : result Element :=
  match ts with
  | [] =>
      match stack, root with
      | [], Some e => Ok e
      | _, _ => Raise ParseError
      end
  | TData s :: ts' =>
      match stack with
      | [] => if forallb xml_space s then build ts' [] root else Raise ParseError
      | fr :: st => build ts' (add_data s fr :: st) root
      end
  | TDoctype :: ts' =>
      match stack, root with
      | [], None => build ts' [] None
      | _, _ => Raise ParseError
      end
  | TStart n a :: ts' =>
      match stack, root with
      | [], Some _ => Raise ParseError
      | _, _ =>
          match open_tag n a stack with
          | Ok fr => build ts' (fr :: stack) root
          | Raise e => Raise e
          end
      end
  | TEmpty n a :: ts' =>
      match stack, root with
      | [], Some _ => Raise ParseError
      | [], None =>
          match open_tag n a [] with
          | Ok fr => build ts' [] (Some (close fr))
          | Raise e => Raise e
          end
      | p :: st, _ =>
          match open_tag n a stack with
          | Ok fr => build ts' (add_kid (close fr) p :: st) root
          | Raise e => Raise e
          end
      end
  | TEnd n :: ts' =>
      match stack with
      | [] => Raise ParseError
      | fr :: st =>
          if str_eqb n (f_raw fr) then
            match st with
            | [] => build ts' [] (Some (close fr))
            | p :: st' => build ts' (add_kid (close fr) p :: st') root
            end
          else Raise ParseError
      end
  end.

(** Line ends as the parser reports them: CR LF and a lone CR become LF. *)
Fixpoint newlines (s : pystr) : pystr :=
  match s with
  | 13 :: r =>
      10 :: match r with
            | 10 :: r' => newlines r'
            | _ => newlines r
            end
  | c :: r => c :: newlines r
  | [] => []
  end.

(** [ET.fromstring] of a [str]: a byte order mark at the start is passed
    over, an XML declaration may follow it and nothing else may stand before
    that; the encoding that the declaration names is not read, the text
    being a [str] already. *)
Definition fromstring (s : pystr) : result Element :=
  if forallb xml_char s then
    let s := match s with 65279 :: r => r | _ => s end in
    match after_decl (newlines s) with
    | Some body =>
        ts <- lex (List.length body) None body ;;
        build ts [] None
    | None => Raise ParseError
    end
  else Raise ParseError.

End Xml.

(* ================================================================== *)
(** * Field extractors *)
(* ================================================================== *)

Section Extractors.
Context {U : UnicodeData}.

(** [re.sub(r"\s+", " ", (s or "")).strip()] *)
Definition _norm_ws (s : pystr) : pystr :=
  strip (re_sub (Many1 [Space]) (py " ") s).

Definition _itertext (elem : option Element) : pystr :=
  match elem with
  | None => []
  | Some e => _norm_ws (List.concat (itertext e))
  end.

Definition journal_paths : list (list step) :=
  [ [Descendant (py "Journal"); Child (py "ISOAbbreviation")];
    [Descendant (py "MedlineJournalInfo"); Child (py "MedlineTA")];
    [Descendant (py "Journal"); Child (py "Title")] ].

Fixpoint first_journal (paths : list (list step)) (art : Element) : pystr :=
  match paths with
  | [] => []
  | path :: rest =>
      match findtext path art with
      | Some val =>
          if nonempty val && nonempty (strip val) then _norm_ws val
          else first_journal rest art
      | None => first_journal rest art
      end
  end.

Definition _prefer_abbrev (art : Element) : pystr := first_journal journal_paths art.

(** ** Dates *)

Definition _MONTH_ABBR : list (pystr * pystr) :=
  [ (py "1", py "Jan"); (py "01", py "Jan"); (py "Jan", py "Jan"); (py "January", py "Jan");
    (py "2", py "Feb"); (py "02", py "Feb"); (py "Feb", py "Feb"); (py "February", py "Feb");
    (py "3", py "Mar"); (py "03", py "Mar"); (py "Mar", py "Mar"); (py "March", py "Mar");
    (py "4", py "Apr"); (py "04", py "Apr"); (py "Apr", py "Apr"); (py "April", py "Apr");
    (py "5", py "May"); (py "05", py "May"); (py "May", py "May");
    (py "6", py "Jun"); (py "06", py "Jun"); (py "Jun", py "Jun"); (py "June", py "Jun");
    (py "7", py "Jul"); (py "07", py "Jul"); (py "Jul", py "Jul"); (py "July", py "Jul");
    (py "8", py "Aug"); (py "08", py "Aug"); (py "Aug", py "Aug"); (py "August", py "Aug");
    (py "9", py "Sep"); (py "09", py "Sep"); (py "Sep", py "Sep"); (py "September", py "Sep");
    (py "10", py "Oct"); (py "Oct", py "Oct"); (py "October", py "Oct");
    (py "11", py "Nov"); (py "Nov", py "Nov"); (py "November", py "Nov");
    (py "12", py "Dec"); (py "Dec", py "Dec"); (py "December", py "Dec") ].

Definition _fmt_date (y m d : option pystr) : pystr :=
  let y := strip (or_empty y) in
  let m := get_default (strip (or_empty m)) _MONTH_ABBR (strip (or_empty m)) in
  let d := strip (or_empty d) in
  if nonempty y && nonempty m && nonempty d then
    let d := if isdigit d && Nat.eqb (List.length d) 1 then py "0" ++ d else d in
    y ++ py " " ++ m ++ py " " ++ d
  else if nonempty y && nonempty m then y ++ py " " ++ m
  else y.

(** [_fmt_date(e.findtext("Year"), e.findtext("Month"), e.findtext("Day"))] *)
Definition fmt_date_of (e : Element) : pystr :=
  _fmt_date (findtext [Child (py "Year")] e)
            (findtext [Child (py "Month")] e)
            (findtext [Child (py "Day")] e).

Definition article_dates : list step :=
  [Descendant (py "Article"); Child (py "ArticleDate")].

(** [(ad.attrib or {}).get("DateType", "").lower() == "electronic"] *)
Definition is_electronic (ad : Element) : bool :=
  str_eqb (lower (get_default (py "DateType") (attrib ad) [])) (py "electronic").

Definition history_path (status : pystr) : list step :=
  [Descendant (py "History"); Child (py "PubMedPubDate");
   AttrIs (py "PubStatus") status].

(** The loop over [("pubmed", "entrez", "medline")]: the first status with
    an entry decides, [""] when there is none. *)
Fixpoint history_date (statuses : list pystr) (art : Element) : pystr :=
  match statuses with
  | [] => []
  | status :: rest =>
      match find (history_path status) art with
      | Some ppd => fmt_date_of ppd
      | None => history_date rest art
      end
  end.

Definition history_statuses : list pystr := [py "pubmed"; py "entrez"; py "medline"].

Definition issue_pubdate (field : pystr) : list step :=
  [Descendant (py "JournalIssue"); Child (py "PubDate"); Child field].

Definition _extract_pubdate_display (art : Element) : pystr :=
  match List.find is_electronic (findall article_dates art) with
  | Some ad => fmt_date_of ad
  | None =>
      let s := match find article_dates art with
               | Some ad => fmt_date_of ad
               | None => []
               end in
      if nonempty s then s else
      let s := _fmt_date (findtext (issue_pubdate (py "Year")) art)
                         (findtext (issue_pubdate (py "Month")) art)
                         (findtext (issue_pubdate (py "Day")) art) in
      if nonempty s then s else
      let md := strip (or_empty (findtext (issue_pubdate (py "MedlineDate")) art)) in
      if nonempty md then md else
      history_date history_statuses art
  end.

(** ** Publication types: the distinct labels, in document order. *)
Fixpoint distinct (seen : list pystr) (ts : list pystr) : list pystr :=
  match ts with
  | [] => []
  | t :: r =>
      if nonempty t && negb (existsb (str_eqb t) seen)
      then t :: distinct (t :: seen) r
      else distinct seen r
  end.

Definition _extract_pubtypes (art : Element) : list pystr :=
  distinct []
    (map (fun pt => strip (or_empty (text pt)))
         (findall [Descendant (py "PublicationTypeList"); Child (py "PublicationType")] art)).
End Extractors.

(* ================================================================== *)
(** * Country inference *)
(* ================================================================== *)

Definition COUNTRY_ALIASES : list (pystr * pystr) :=
  [ (py "usa", py "USA"); (py "united states", py "USA");
    (py "united states of america", py "USA"); (py "u.s.a.", py "USA");
    (py "uk", py "UK"); (py "united kingdom", py "UK"); (py "england", py "UK");
    (py "scotland", py "UK"); (py "wales", py "UK"); (py "northern ireland", py "UK");
    (py "republic of korea", py "South Korea"); (py "south korea", py "South Korea");
    (py "korea, republic of", py "South Korea"); (py "korea", py "South Korea");
    (py "pr china", py "China"); (py "p.r. china", py "China");
    (py "people's republic of china", py "China"); (py "china", py "China");
    (py "japan", py "Japan"); (py "germany", py "Germany"); (py "france", py "France");
    (py "italy", py "Italy"); (py "spain", py "Spain");
    (py "netherlands", py "Netherlands"); (py "switzerland", py "Switzerland");
    (py "sweden", py "Sweden"); (py "norway", py "Norway");
    (py "denmark", py "Denmark"); (py "finland", py "Finland"); (py "austria", py "Austria");
    (py "belgium", py "Belgium"); (py "ireland", py "Ireland");
    (py "canada", py "Canada"); (py "australia", py "Australia");
    (py "singapore", py "Singapore"); (py "taiwan", py "Taiwan");
    (py "hong kong", py "Hong Kong");
    (py "india", py "India"); (py "thailand", py "Thailand"); (py "malaysia", py "Malaysia");
    (py "philippines", py "Philippines"); (py "indonesia", py "Indonesia");
    (py "vietnam", py "Vietnam"); (py "israel", py "Israel");
    (py "turkey", py "Türkiye"); (py "türkiye", py "Türkiye");
    (py "saudi arabia", py "Saudi Arabia"); (py "united arab emirates", py "UAE");
    (py "uae", py "UAE"); (py "qatar", py "Qatar"); (py "kuwait", py "Kuwait");
    (py "iran", py "Iran");
    (py "brazil", py "Brazil"); (py "argentina", py "Argentina"); (py "chile", py "Chile");
    (py "mexico", py "Mexico"); (py "colombia", py "Colombia"); (py "peru", py "Peru");
    (py "south africa", py "South Africa"); (py "egypt", py "Egypt") ].

Definition TLD_COUNTRY_MAP : list (pystr * pystr) :=
  [ (py "jp", py "Japan"); (py "uk", py "UK"); (py "de", py "Germany");
    (py "fr", py "France"); (py "it", py "Italy"); (py "es", py "Spain");
    (py "nl", py "Netherlands"); (py "ch", py "Switzerland");
    (py "se", py "Sweden"); (py "no", py "Norway"); (py "dk", py "Denmark");
    (py "fi", py "Finland"); (py "at", py "Austria"); (py "be", py "Belgium");
    (py "ie", py "Ireland");
    (py "ca", py "Canada"); (py "au", py "Australia"); (py "cn", py "China");
    (py "kr", py "South Korea"); (py "tw", py "Taiwan"); (py "sg", py "Singapore");
    (py "hk", py "Hong Kong");
    (py "in", py "India"); (py "tr", py "Türkiye"); (py "sa", py "Saudi Arabia");
    (py "ae", py "UAE"); (py "qa", py "Qatar"); (py "kw", py "Kuwait");
    (py "il", py "Israel"); (py "ir", py "Iran");
    (py "br", py "Brazil"); (py "ar", py "Argentina"); (py "cl", py "Chile");
    (py "mx", py "Mexico"); (py "co", py "Colombia"); (py "pe", py "Peru");
    (py "za", py "South Africa"); (py "eg", py "Egypt");
    (py "us", py "USA") ].

(** [sorted(xs, key=len, reverse=True)]: longest first, equal lengths in
    their order in [xs]. *)
Fixpoint insert_longest (x : pystr) (l : list pystr) : list pystr :=
  match l with
  | [] => [x]
  | y :: r =>
      if (List.length y <=? List.length x)%nat then x :: l
      else y :: insert_longest x r
  end.

Definition sorted_longest_first (xs : list pystr) : list pystr :=
  fold_right insert_longest [] xs.

(** [r'@[\w\.-]+\.(\w+)'] *)
Definition email_re : regex :=
  Seq (Lit 64)
      (Seq (Many1 [Word; One 46; One 45])
           (Seq (Lit 46) (Group 1 (Many1 [Word])))).

(** [r"^[A-Za-zÀ-ÿ .'-]+$"] *)
Definition placename_re : regex :=
  Seq Bol
      (Seq (Many1 [Range 65 90; Range 97 122; Range 192 255;
                   One 32; One 46; One 39; One 45])
           Eol).

(** [rf'(?i)(^|[,\s;]){re.escape(alias)}([,\s.;]|$)'] *)
Definition alias_re (alias : pystr) : regex :=
  Seq (Group 1 (Or Bol (Cls [One 44; Space; One 59])))
      (Seq (lits_i alias)
           (Group 2 (Or (Cls [One 44; Space; One 46; One 59]) Eol))).

Section Country.
Context {U : UnicodeData}.

Definition _normalize_country (name : pystr) : pystr :=
  if nonempty name then
    let key := re_sub (Many1 [Space]) (py " ") (lower (strip name)) in
    get_default key COUNTRY_ALIASES (strip name)
  else [].

(** The loop over [reversed(tokens)] of the second tier; [None] when no
    token decides. *)
Fixpoint tail_tokens (toks : list pystr) : option pystr :=
  match toks with
  | [] => None
  | tok :: rest =>
      let norm := _normalize_country tok in
      if negb (str_eqb norm tok) || existsb (str_eqb norm) (map snd COUNTRY_ALIASES)
      then Some (get_default (lower norm) COUNTRY_ALIASES norm)
      else if (2 <=? List.length tok)%nat && (List.length tok <=? 40)%nat
              && match re_match placename_re tok with Some _ => true | None => false end
      then Some tok
      else tail_tokens rest
  end.

(** The loop over the aliases of the third tier. *)
Fixpoint scan_aliases (aliases : list pystr) (txt : pystr) : pystr :=
  match aliases with
  | [] => []
  | alias :: rest =>
      match re_search (alias_re alias) txt with
      | Some _ => or_empty (dict_get alias COUNTRY_ALIASES)
      | None => scan_aliases rest txt
      end
  end.

Definition _extract_country_from_aff (aff : pystr) : pystr :=
  if negb (nonempty aff) then [] else
  let txt := aff in
  let by_tld :=
    match re_search email_re txt with
    | Some m => dict_get (lower (group 1 m)) TLD_COUNTRY_MAP
    | None => None
    end in
  match by_tld with
  | Some country => country
  | None =>
      let tail := last_piece (re_split (Cls [One 59]) txt) in
      let tokens :=
        filter nonempty (map (strip_chars (py " .,")) (split_on 44 tail)) in
      match tail_tokens (rev tokens) with
      | Some country => country
      | None => scan_aliases (sorted_longest_first (map fst COUNTRY_ALIASES)) txt
      end
  end.
End Country.

(* ================================================================== *)
(** * The record normaliser: [parse_records] *)
(* ================================================================== *)

(** One normalised record, the dict that [parse_records] appends. *)
Record record := Rec {
  pmid : pystr;
  title : pystr;
  authors : pystr;
  journal : pystr;
  pubdate : pystr;
  doi : pystr;
  url : pystr;
  abstract : pystr;
  pt : list pystr
}.

(** What the loop over the author nodes carries. *)
Record author_acc := Acc {
  first_author_name : pystr;
  counted : nat;
  aff_raw : pystr
}.

Definition et_al : pystr := py ", et al.".

Section Normaliser.
Context {U : UnicodeData}.

(** One [AbstractText] section: dropped when empty, ["Label: text"] when
    labelled. *)
Definition abstract_section (abs_elem : Element) : list pystr :=
  let label := dict_get (py "Label") (attrib abs_elem) in
  let txt := _itertext (Some abs_elem) in
  if nonempty txt then
    match label with
    | Some l => if nonempty l then [l ++ py ": " ++ txt] else [txt]
    | None => [txt]
    end
  else [].

Definition extract_abstract (art : Element) : pystr :=
  join [10]
       (flat_map abstract_section
                 (findall [Descendant (py "Abstract"); Child (py "AbstractText")] art)).

(** The body of [for au in authors_nodes]. *)
Definition author_step (acc : author_acc) (au : Element) : author_acc :=
  let last := or_empty (findtext [Child (py "LastName")] au) in
  let init := or_empty (findtext [Child (py "Initials")] au) in
  let collective := or_empty (findtext [Child (py "CollectiveName")] au) in
  if nonempty last || nonempty init then
    let name := strip (last ++ py " " ++ init) in
    if negb (nonempty (first_author_name acc)) then
      Acc name (S (counted acc))
          (_itertext (find [Child (py "AffiliationInfo"); Child (py "Affiliation")] au))
    else Acc (first_author_name acc) (S (counted acc)) (aff_raw acc)
  else if nonempty collective then
    if negb (nonempty (first_author_name acc)) then
      Acc collective (S (counted acc)) (aff_raw acc)
    else Acc (first_author_name acc) (S (counted acc)) (aff_raw acc)
  else acc.

Definition authors_nodes (art : Element) : list Element :=
  findall [Descendant (py "AuthorList"); Child (py "Author")] art.

Definition walk_authors (art : Element) : author_acc :=
  fold_left author_step (authors_nodes art) (Acc [] 0 []).

(** The affiliation text given to country inference: the first author's,
    or the first one anywhere in the article. *)
Definition affiliation_source (art : Element) : pystr :=
  let acc := walk_authors art in
  if nonempty (aff_raw acc) then aff_raw acc
  else _itertext (find [Descendant (py "AffiliationInfo"); Child (py "Affiliation")] art).

(** The author line from the walk's result and the inferred country. *)
Definition render_authors (acc : author_acc) (country : pystr) : pystr :=
  let authors_display := first_author_name acc in
  let authors_display :=
    if (2 <=? counted acc)%nat && nonempty authors_display
    then authors_display ++ et_al else authors_display in
  if nonempty country
  then authors_display ++ py "（" ++ country ++ py "）"
  else authors_display.

Definition authors_display (art : Element) : pystr :=
  render_authors (walk_authors art)
                 (_extract_country_from_aff (affiliation_source art)).

Fixpoint first_doi (aids : list Element) : pystr :=
  match aids with
  | [] => []
  | aid :: rest =>
      if str_eqb (lower (get_default (py "IdType") (attrib aid) [])) (py "doi")
      then strip (or_empty (text aid))
      else first_doi rest
  end.

(** The body of [for art in root.findall(".//PubmedArticle")]. *)
Definition parse_article (art : Element) : record :=
  let pmid := strip (or_empty (findtext [Descendant (py "PMID")] art)) in
  {| pmid := pmid;
     title := _itertext (find [Descendant (py "Article"); Child (py "ArticleTitle")] art);
     authors := authors_display art;
     journal := _prefer_abbrev art;
     pubdate := _extract_pubdate_display art;
     doi := first_doi (findall [Descendant (py "ArticleIdList"); Child (py "ArticleId")] art);
     url := py "https://pubmed.ncbi.nlm.nih.gov/" ++ pmid ++ py "/";
     abstract := extract_abstract art;
     pt := _extract_pubtypes art |}.

Section WithParser.
(** [ET.fromstring] *)
Variable ET_fromstring : pystr -> result Element.

Definition parse_records (xml_text : pystr) : result (list record) :=
  if negb (nonempty xml_text) then Ok []
  else
    root <- ET_fromstring xml_text ;;
    Ok (map parse_article (findall [Descendant (py "PubmedArticle")] root)).
End WithParser.
End Normaliser.

(* ================================================================== *)
(** * JSON values and dicts *)
(* ================================================================== *)

(** The values [json.load] builds: [None], [bool], [int], [float], [str],
    [list] and [dict] with string keys.  A dict keeps its keys in insertion
    order. *)
Inductive json :=
| JNull
| JBool (b : bool)
| JInt (z : Z)
| JFloat (f : SpecFloat.spec_float)
| JStr (s : pystr)
| JArr (items : list json)
| JObj (members : list (pystr * json)).

Definition dict := list (pystr * json).

(** Truthiness, as [not x] reads it. *)
Definition truthy (j : json) : bool :=
  match j with
  | JNull => false
  | JBool b => b
  | JInt z => negb (Z.eqb z 0)
  | JFloat (SpecFloat.S754_zero _) => false
  | JFloat _ => true
  | JStr s => nonempty s
  | JArr l => match l with [] => false | _ => true end
  | JObj m => match m with [] => false | _ => true end
  end.

(** [d[k] = v]: the value is replaced where the key stands, a new key goes
    last. *)
Fixpoint dict_set {V : Type} (k : pystr) (v : V) (d : list (pystr * V))
  : list (pystr * V) :=
  match d with
  | [] => [(k, v)]
  | (k', v') :: r =>
      if str_eqb k' k then (k', v) :: r else (k', v') :: dict_set k v r
  end.

(** [k in d] *)
Definition dict_mem {V : Type} (k : pystr) (d : list (pystr * V)) : bool :=
  match dict_get k d with Some _ => true | None => false end.

Definition keys {V : Type} (d : list (pystr * V)) : list pystr := map fst d.

(** The dict built from the members of a JSON object as they stand in the
    text: a repeated key keeps its first place and its last value. *)
Definition dict_of_members {V : Type} (ms : list (pystr * V)) : list (pystr * V) :=
  fold_left (fun d kv => dict_set (fst kv) (snd kv) d) ms [].

(** The Python value of a JSON text, objects turned into dicts throughout. *)
Fixpoint load_value (j : json) : json :=
  match j with
  | JArr l => JArr (map load_value l)
  | JObj ms => JObj (dict_of_members (map (fun kv => (fst kv, load_value (snd kv))) ms))
  | _ => j
  end.

(** ** Order of keys: [str] comparison, by code points *)

Fixpoint str_leb (a b : pystr) : bool :=
  match a, b with
  | [], _ => true
  | _ :: _, [] => false
  | x :: a', y :: b' =>
      if x <? y then true else if y <? x then false else str_leb a' b'
  end.

(** [sorted(d.items())] on a dict: by key, equal keys in their order. *)
Fixpoint insert_by_key {V : Type} (kv : pystr * V) (l : list (pystr * V))
  : list (pystr * V) :=
  match l with
  | [] => [kv]
  | kv' :: r =>
      if str_leb (fst kv) (fst kv') then kv :: l
      else kv' :: insert_by_key kv r
  end.

Definition sorted_items {V : Type} (d : list (pystr * V)) : list (pystr * V) :=
  fold_right insert_by_key [] d.

(** What [json.dump(..., sort_keys=True)] writes for a value: every dict
    with its keys in order. *)
Fixpoint dump_value (j : json) : json :=
  match j with
  | JArr l => JArr (map dump_value l)
  | JObj ms => JObj (sorted_items (map (fun kv => (fst kv, dump_value (snd kv))) ms))
  | _ => j
  end.

(* ================================================================== *)
(** * The sent-PMID store: [sent_pmids.json] *)
(* ================================================================== *)

(** What the file at [STATE_PATH] holds, as [json.load] reads it. *)
Inductive content :=
| Empty                                    (* no bytes: the file just opened with "w" *)
| Garbage                                  (* bytes that are not a JSON text *)
| ListOf (pmids : list pystr)              (* the legacy form: a list of PMID strings *)
| ObjectOf (members : list (pystr * json)) (* an object, members as they stand *)
| Scalar.                                  (* a string, a number, true, false or null *)

(** The file system as the store sees it: [None] when the path does not
    exist. *)
Definition file := option content.

(** What [json.load] returns. *)
Inductive loaded :=
| PyList (data : list pystr)
| PyDict (data : dict)
| PyOther.

Definition json_load (c : content) : result loaded :=
  match c with
  | Empty | Garbage => Raise JSONDecodeError
  | ListOf l => Ok (PyList l)
  | ObjectOf ms =>
      Ok (PyDict (dict_of_members (map (fun kv => (fst kv, load_value (snd kv))) ms)))
  | Scalar => Ok PyOther
  end.

Definition added_at : pystr := py "added_at".

Definition load_sent_state (f : file) : dict :=
  match f with
  | None => []
  | Some c =>
      match json_load c with
      | Ok (PyList data) =>
          fold_left (fun d pmid => dict_set pmid (JObj [(added_at, JNull)]) d) data []
      | Ok (PyDict data) => data
      | Ok PyOther => []
      | Raise _ => []
      end
  end.

(** The file after each step of [save_sent_state]: [open(STATE_PATH, "w")]
    leaves it empty, the end of the [with] block leaves it holding the
    dump. *)
Definition save_steps (state : dict) : list content :=
  [ Empty;
    ObjectOf (sorted_items (map (fun kv => (fst kv, dump_value (snd kv))) state)) ].

Definition save_sent_state (state : dict) : file :=
  Some (last (save_steps state) Empty).

(** The file when a save over [f] stops after [n] of its steps. *)
Definition interrupted_save (n : nat) (f : file) (state : dict) : file :=
  match n with
  | O => f
  | S k => Some (nth k (save_steps state) (last (save_steps state) Empty))
  end.

(* ================================================================== *)
(** * [main]: registration and summaries *)
(* ================================================================== *)

(** The registration of a record in the loop of [main]: a PMID that is new,
    or whose value is no dict, gets [{"added_at": now}]; a dict whose
    ["added_at"] is falsy gets it set; any other is left as it is. *)
Definition register (state : dict) (pmid now : pystr) : dict :=
  match dict_get pmid state with
  | Some (JObj entry) =>
      if match dict_get added_at entry with
         | Some v => truthy v
         | None => false
         end
      then state
      else dict_set pmid (JObj (dict_set added_at (JStr now) entry)) state
  | _ => dict_set pmid (JObj [(added_at, JStr now)]) state
  end.

(** What [summarize_title_and_bullets] returns. *)
Record summary_data := Summary {
  sd_title_ja : pystr;
  sd_bullets : list pystr
}.

(** A record once [main] has put its two keys. *)
Record item := Item {
  rec_of : record;
  title_ja : pystr;
  summary : pystr
}.

Definition no_abstract_line : pystr :=
  Eval vm_compute in py "・この論文にはPubMed上でアブストラクトが見つかりません".

(** What the loop of [main] carries: the state, the calls made to the
    summariser so far (title, abstract) and the items. *)
Record loop_state := Loop {
  l_state : dict;
  l_calls : list (pystr * pystr);
  l_items : list item
}.

Section Main.
Context {U : UnicodeData}.

(** [ET.fromstring]. *)
Variable ET_fromstring : pystr -> result Element.
(** [pubmed_efetch], for a request that is answered. *)
Variable pubmed_efetch : list pystr -> pystr.
(** [summarize_title_and_bullets]: the answer to the n-th call of the run
    (counted from 0) for a title and an abstract. *)
Variable summarize_title_and_bullets : nat -> pystr -> pystr -> summary_data.

(** The body of [for idx, rec in enumerate(records, 1)]. *)
Definition process_record (now : pystr) (w : loop_state) (rec : record)
  : loop_state :=
  let state := register (l_state w) (pmid rec) now in
  let data := summarize_title_and_bullets (List.length (l_calls w))
                (title rec) (str_or (abstract rec) []) in
  let it :=
    Item rec (sd_title_ja data)
         (if nonempty (abstract rec) then join [10] (sd_bullets data)
          else no_abstract_line) in
  Loop state
       (l_calls w ++ [(title rec, str_or (abstract rec) [])])
       (l_items w ++ [it]).

Definition process_records (now : pystr) (state : dict) (records : list record)
  : loop_state :=
  fold_left (process_record now) records (Loop state [] []).

(** [main] from the search result to the saved state: the file after the
    run, the calls to the summariser and the items of the digest.  A
    [Raise] leaves [main] at that point: nothing is saved and nothing is
    sent. *)
Definition main (f : file) (pmids : list pystr) (now : pystr)
  : result (file * list (pystr * pystr) * list item) :=
  let state := load_sent_state f in
  let new_pmids := filter (fun p => negb (dict_mem p state)) pmids in
  match new_pmids with
  | [] => Ok (f, [], [])
  | _ :: _ =>
      let xml := pubmed_efetch new_pmids in
      records <- parse_records ET_fromstring xml ;;
      let w := process_records now state records in
      Ok (save_sent_state (l_state w), l_calls w, l_items w)
  end.
End Main.

(* ================================================================== *)
(** * Vocabulary of the specification *)
(* ================================================================== *)

(** [[\w\.-]], the characters of a domain in [email_re]. *)
Definition domain_cs : cset := [Word; One 46; One 45].

Section EmailAddress.
Context {U : UnicodeData}.

(** Within the run of domain characters that [post] starts with, no dot is
    followed by a word character: the domain has no further label. *)
Fixpoint no_more_labels (post : pystr) : bool :=
  match post with
  | [] => true
  | c :: r =>
      if in_cset domain_cs c then
        (if c =? 46
         then match r with d :: _ => negb (is_word d) | [] => true end
         else true)
        && no_more_labels r
      else true
  end.

(** The text after an address: it does not go on with a word character,
    and the domain has no further label. *)
Definition address_ends (post : pystr) : bool :=
  match post with [] => true | c :: _ => negb (is_word c) end
  && no_more_labels post.

(** The text [t] starts with a dot and a word character: one more label
    of a domain. *)
Definition dot_then_word (t : pystr) : bool :=
  match t with
  | c :: w :: _ => (c =? 46) && is_word w
  | _ => false
  end.

(** What is left of [email_re] once the domain has been read: [\.(\w+)],
    for a match that started at [start]. *)
Definition after_domain (start : nat) (p' : nat) (t : pystr)
  : option (rmatch_result * pystr) :=
  rmatch (Seq (Lit 46) (Group 1 (Many1 [Word]))) p' t []
         (fun e t' g => Some (MatchObj start e g, t')).

(** [aff] reads [pre @ host . tld post], an address whose top-level domain
    is [tld]. *)
Definition email_at (aff pre host tld post : pystr) : Prop :=
  aff = pre ++ [64] ++ host ++ [46] ++ tld ++ post
  /\ host <> [] /\ forallb (in_cset domain_cs) host = true
  /\ tld <> [] /\ forallb is_word tld = true
  /\ address_ends post = true.

(** The affiliation contains an email address with that top-level domain. *)
Definition contains_email (aff tld : pystr) : Prop :=
  exists pre host post, email_at aff pre host tld post.

(** The text starts with an address: [@], a domain, a dot and a top-level
    domain. *)
Definition starts_address (s : pystr) : Prop :=
  exists host tld post,
    s = [64] ++ host ++ [46] ++ tld ++ post
    /\ host <> [] /\ forallb (in_cset domain_cs) host = true
    /\ tld <> [] /\ forallb is_word tld = true.

(** No address starts within [pre] in the text [pre ++ rest]. *)
Fixpoint no_address_before (pre rest : pystr) : Prop :=
  match pre with
  | [] => True
  | c :: pre' => ~ starts_address (c :: pre' ++ rest) /\ no_address_before pre' rest
  end.

(** A dot stands in the run of domain characters that [s] starts with, or
    right after it. *)
Fixpoint dot_in_domain (s : pystr) : bool :=
  match s with
  | [] => false
  | c :: r => (c =? 46) || (in_cset domain_cs c && dot_in_domain r)
  end.

(** What a text that starts with an address has: [@], a domain character,
    and a dot in the domain or at its end. *)
Definition may_start_address (s : pystr) : bool :=
  match s with
  | c :: h :: r => (c =? 64) && in_cset domain_cs h && dot_in_domain r
  | _ => false
  end.
End EmailAddress.

(** ** The electronic article date *)

(** The date-type of an [ArticleDate] entry, [""] when it states none. *)
Definition date_type (e : Element) : pystr := get_default (py "DateType") (attrib e) [].

(** The entry's date-type is "electronic", in whatever case it is spelled. *)
Definition electronic {U : UnicodeData} (e : Element) : Prop :=
  lower (date_type e) = py "electronic".

(** The texts of the entry's year, month and day, without the whitespace
    around them. *)
Definition date_fields (e : Element) : pystr * pystr * pystr :=
  (strip (or_empty (findtext [Child (py "Year")] e)),
   strip (or_empty (findtext [Child (py "Month")] e)),
   strip (or_empty (findtext [Child (py "Day")] e))).

(** ** The earliest history entry, by the dates the entries carry

    The reading of "the earliest of the processing-history date entries" by
    date: among the first entries of the three statuses, the one whose year,
    month and day come first, the first in the order of the statuses when
    two carry the same day. *)

(** The number a field of digits stands for. *)
Definition field_number (e : Element) (field : pystr) : option N :=
  match findtext [Child field] e with
  | Some s => match strip s with
              | [] => None
              | d => Xml.number 10 d 0
              end
  | None => None
  end.

Definition entry_ymd (e : Element) : option (N * N * N) :=
  match field_number e (py "Year"), field_number e (py "Month"),
        field_number e (py "Day") with
  | Some y, Some m, Some d => Some (y, m, d)
  | _, _, _ => None
  end.

Definition ymd_ltb (a b : N * N * N) : bool :=
  let '(y1, m1, d1) := a in
  let '(y2, m2, d2) := b in
  (y1 <? y2) || ((y1 =? y2) && ((m1 <? m2) || ((m1 =? m2) && (d1 <? d2)))).

(** The first entry of each status that has one, in the order of the
    statuses. *)
Definition history_entries (art : Element) : list Element :=
  flat_map (fun status => match find (history_path status) art with
                          | Some ppd => [ppd]
                          | None => []
                          end) history_statuses.

Fixpoint earliest_of (best : option (Element * (N * N * N))) (es : list Element)
  : option Element :=
  match es with
  | [] => option_map fst best
  | e :: rest =>
      match entry_ymd e, best with
      | Some d, Some (_, b) =>
          if ymd_ltb d b then earliest_of (Some (e, d)) rest else earliest_of best rest
      | Some d, None => earliest_of (Some (e, d)) rest
      | None, _ => earliest_of best rest
      end
  end.

(** The date the claim's words give: the earliest entry, rendered. *)
Definition earliest_history_date {U : UnicodeData} (art : Element) : pystr :=
  match earliest_of None (history_entries art) with
  | Some e => fmt_date_of e
  | None => []
  end.

(** An entry [e] of a dict that records the time [t]:
    [{"added_at": t, ...}] with a non-empty string. *)
Definition has_timestamp (e : json) (t : pystr) : Prop :=
  exists entry, e = JObj entry /\ dict_get added_at entry = Some (JStr t) /\ t <> [].

(** An entry without a time: a dict whose ["added_at"] is missing or
    [None]. *)
Definition lacks_timestamp (e : json) : Prop :=
  exists entry, e = JObj entry
    /\ (dict_get added_at entry = None \/ dict_get added_at entry = Some JNull).

(** One member of an object as [json.dump] writes it and as [json.load]
    reads it. *)
Definition dump_member (kv : pystr * json) : pystr * json := (fst kv, dump_value (snd kv)).
Definition load_member (kv : pystr * json) : pystr * json := (fst kv, load_value (snd kv)).

(** The entry that the legacy list gives each of its identifiers. *)
Definition legacy_entry : json := JObj [(added_at, JNull)].

(** Keys in increasing order, as [sort_keys] leaves them. *)
Definition key_le {V : Type} (a b : pystr * V) : Prop := str_leb (fst a) (fst b) = true.

(* ================================================================== *)
(** * Articles used as examples *)
(* ================================================================== *)

Module Examples.

Definition leaf (t s : string) : Element := Elem (py t) [] (Some (py s)) [] None.
Definition node (t : string) (cs : list Element) : Element := Elem (py t) [] None cs None.
Definition node_at (t k v : string) (cs : list Element) : Element :=
  Elem (py t) [(py k, py v)] None cs None.

Definition ymd (y m d : string) : list Element :=
  [leaf "Year" y; leaf "Month" m; leaf "Day" d].

(** Two named authors, the first with an affiliation that names a country. *)
Definition two_authors : Element :=
  node "PubmedArticle"
    [ node "MedlineCitation"
        [ leaf "PMID" "1";
          node "Article"
            [ leaf "ArticleTitle" "A trial";
              node "AuthorList"
                [ node "Author"
                    [ leaf "LastName" "Sato"; leaf "Initials" "T";
                      node "AffiliationInfo"
                        [leaf "Affiliation" "Kyoto University, Kyoto, Japan."] ];
                  node "Author" [leaf "LastName" "Lee"; leaf "Initials" "K"] ] ] ] ].

(** No author list; an investigator carries the only affiliation. *)
Definition no_authors : Element :=
  node "PubmedArticle"
    [ node "MedlineCitation"
        [ leaf "PMID" "2";
          node "Article" [leaf "ArticleTitle" "A registry report"];
          node "InvestigatorList"
            [ node "Investigator"
                [ leaf "LastName" "Mori"; leaf "Initials" "H";
                  node "AffiliationInfo"
                    [leaf "Affiliation" "Osaka University, Osaka, Japan."] ] ] ] ].

(** An electronic article date of 2024-03-05 and an issue date of 2024 Feb. *)
Definition electronic_date : Element :=
  node "PubmedArticle"
    [ node "MedlineCitation"
        [ leaf "PMID" "3";
          node "Article"
            [ node "Journal"
                [ node "JournalIssue"
                    [node "PubDate" [leaf "Year" "2024"; leaf "Month" "Feb"]] ];
              leaf "ArticleTitle" "A cohort";
              node_at "ArticleDate" "DateType" "Electronic" (ymd "2024" "03" "05") ] ] ].

(** A print article date of 2024-01-01, then an electronic one of
    2024-03-05, and an issue date of 2024 Feb. *)
Definition print_then_electronic : Element :=
  node "PubmedArticle"
    [ node "MedlineCitation"
        [ leaf "PMID" "5";
          node "Article"
            [ node "Journal"
                [ node "JournalIssue"
                    [node "PubDate" [leaf "Year" "2024"; leaf "Month" "Feb"]] ];
              leaf "ArticleTitle" "A trial";
              node_at "ArticleDate" "DateType" "Print" (ymd "2024" "01" "01");
              node_at "ArticleDate" "DateType" "Electronic" (ymd "2024" "03" "05") ] ] ].

(** No article date and no issue date; the history has an entry for
    "entrez" dated 2024-03-01 and one for "pubmed" dated 2024-03-05. *)
Definition history_only : Element :=
  node "PubmedArticle"
    [ node "MedlineCitation" [leaf "PMID" "4"; node "Article" [leaf "ArticleTitle" "A note"]];
      node "PubmedData"
        [ node "History"
            [ node_at "PubMedPubDate" "PubStatus" "entrez" (ymd "2024" "3" "1");
              node_at "PubMedPubDate" "PubStatus" "pubmed" (ymd "2024" "3" "5") ] ] ].

(** A response cut short, and a response that holds one article. *)
Definition truncated_xml : pystr := py "<PubmedArticleSet><PubmedArticle>".

Definition one_article_xml : pystr :=
  py "<?xml version='1.0' ?>
<PubmedArticleSet>
 <PubmedArticle>
  <MedlineCitation>
   <PMID Version='1'>3</PMID>
   <Article>
    <Journal><JournalIssue><PubDate><Year>2024</Year><Month>Feb</Month></PubDate></JournalIssue></Journal>
    <ArticleTitle>A <i>cohort</i> study</ArticleTitle>
    <ArticleDate DateType='Electronic'><Year>2024</Year><Month>03</Month><Day>05</Day></ArticleDate>
   </Article>
  </MedlineCitation>
 </PubmedArticle>
</PubmedArticleSet>".

(** A stored mapping with one entry, and the time of a later run. *)
Definition stored_one : file :=
  Some (ObjectOf [(py "39000001", JObj [(added_at, JStr (py "2025-01-01T07:00:00+09:00"))])]).

Definition later : pystr := py "2025-01-02T07:00:00+09:00".

End Examples.

(* ================================================================== *)
(** * Further functions of the program *)
(* ================================================================== *)

(** ** [pubmed_multi_esearch_all] *)

Section Search.
(** [pubmed_esearch], for a request that is answered: the identifiers of
    a query. *)
Variable pubmed_esearch : pystr -> list pystr.

(** The body of [for pmid in ids], on [(all_pmids, seen)]. *)
Definition add_pmid (st : list pystr * list pystr) (pmid : pystr)
  : list pystr * list pystr :=
  if existsb (str_eqb pmid) (snd st) then st
  else (fst st ++ [pmid], pmid :: snd st).

Definition pubmed_multi_esearch_all (queries : list pystr) : list pystr :=
  fst (fold_left (fun st q => fold_left add_pmid (pubmed_esearch q) st)
                 queries ([], [])).
End Search.

(** ** [_format_bullets] and [summarize_title_and_bullets] *)

(** [d.get(k)] as a value: [None] for a key that is missing. *)
Definition get_or_none (k : pystr) (d : dict) : json :=
  match dict_get k d with Some v => v | None => JNull end.

(** [for x in j]: the items of a list, the characters of a string, the keys
    of a dict; [None] where Python raises [TypeError] (a number, a bool,
    [None] are not iterable). *)
Definition iterate (j : json) : option (list json) :=
  match j with
  | JArr l => Some l
  | JStr s => Some (map (fun c => JStr [c]) s)
  | JObj m => Some (map (fun kv => JStr (fst kv)) m)
  | JNull | JBool _ | JInt _ | JFloat _ => None
  end.

Definition bullet_mark : pystr := Eval vm_compute in py "・".
Definition bullet_lead : pystr := Eval vm_compute in py "・-•*・ 　".
Definition bullet_filler : pystr := Eval vm_compute in py "・（要約が不足しています）".
Definition ellipsis : pystr := Eval vm_compute in py "…".
Definition title_lead : pystr := Eval vm_compute in py "・-•*[]() 　".
Definition title_failed : pystr := Eval vm_compute in py "（邦題生成に失敗）".

(** What leaves [summarize_title_and_bullets] by an exception. *)
Inductive summary_exn :=
| ClientError  (* raised by [genai.Client()], before the [try]: no API key, ... *)
| TypeError.   (* raised by the loop of [_format_bullets] *)

(** A call of [summarize_title_and_bullets]: it returns its dict, or
    raises. *)
Inductive outcome :=
| Returned (data : summary_data)
| Raised (e : summary_exn).

Section Summariser.
(** [str(x)] of a value that is not a string. *)
Variable repr_of : json -> pystr.

(** [str(x)] *)
Definition py_str (x : json) : pystr :=
  match x with JStr s => s | _ => repr_of x end.

(** [_format_bullets(lines, target)]; [None] where the loop over
    [lines or []] raises [TypeError]. *)
Definition _format_bullets (lines : json) (target : nat) : option (list pystr) :=
  match (if truthy lines then iterate lines else Some []) with
  | None => None
  | Some items =>
      let xs := filter nonempty (map (fun x => strip (py_str x)) items) in
      let xs := map (fun x => strip (bullet_mark ++ lstrip_by (mem_chars bullet_lead) x)) xs in
      let xs := firstn target xs in
      let xs := xs ++ repeat bullet_filler (target - List.length xs) in
      Some (map (fun x => if (List.length x <=? 150)%nat then x
                          else firstn 147 x ++ ellipsis) xs)
  end.

(** The lines that [_format_bullets] keeps, in their order:
    [str(x).strip()] of each item of [lines or []], the blank ones left out
    (none when the value is not iterable). *)
Definition kept_lines (lines : json) : list pystr :=
  filter nonempty
         (map (fun x => strip (py_str x))
              (match (if truthy lines then iterate lines else Some []) with
               | Some items => items
               | None => []
               end)).

(** [genai.Client()], which stands before the [try]: whether the client is
    built ([true]) or the call raises ([false]), as it does when no API key
    is set. *)
Variable client_built : bool.

(** The [try] block of [summarize_title_and_bullets] with the client: the
    call of the model for a title and the abstract cut to 7000 characters,
    read through [_resp_to_text] and [_force_json]. *)
Variable generate : pystr -> pystr -> result dict.

(** [summarize_title_and_bullets(title, abstract)] *)
Definition summarize_title_and_bullets (title abstract : pystr) : outcome :=
  if negb client_built then Raised ClientError else
  let data := match generate title (firstn (7 * 1000) abstract) with
              | Ok d => d
              | Raise _ => []
              end in
  let v := get_or_none (py "title_ja") data in
  let title_ja := strip (if truthy v then py_str v else []) in
  match _format_bullets (get_or_none (py "bullets") data) 4 with
  | None => Raised TypeError
  | Some bullets =>
      let title_ja := lstrip_by (mem_chars title_lead) title_ja in
      let title_ja :=
        if endswith title_ja (py "。") || endswith title_ja (py "．")
           || endswith title_ja (py ".")
        then removelast title_ja else title_ja in
      let title_ja := if nonempty title_ja then title_ja else title_failed in
      Returned (Summary title_ja bullets)
  end.
End Summariser.

(** ** Whitespace-normalised text *)

(** Runs of whitespace replaced by one space; [prev] tells that the
    character before was whitespace. *)
Fixpoint squeeze (prev : bool) (s : pystr) : pystr :=
  match s with
  | [] => []
  | c :: r =>
      if is_space c then (if prev then squeeze true r else 32 :: squeeze true r)
      else c :: squeeze false r
  end.

(** Every whitespace character is a space that is followed by a character
    that is not whitespace. *)
Fixpoint single_spaced (s : pystr) : bool :=
  match s with
  | [] => true
  | c :: r =>
      (if is_space c
       then (c =? 32) && match r with d :: _ => negb (is_space d) | [] => false end
       else true)
      && single_spaced r
  end.

(** Text in normal form: words separated by single spaces, no whitespace
    at either end. *)
Definition ws_normal (s : pystr) : bool :=
  match s with c :: _ => negb (is_space c) | [] => true end && single_spaced s.

(** Whitespace as [single_spaced] allows it, but for a space at the end. *)
Fixpoint loose_spaced (s : pystr) : bool :=
  match s with
  | [] => true
  | c :: r =>
      (if is_space c
       then (c =? 32) && match r with d :: _ => negb (is_space d) | [] => true end
       else true)
      && loose_spaced r
  end.

(** The first character, if any, is not one that [p] strips. *)
Definition starts_clean (p : N -> bool) (s : pystr) : bool :=
  match s with c :: _ => negb (p c) | [] => true end.

(** What the loops of [pubmed_multi_esearch_all] keep: [seen] holds the
    members of [all_pmids], which has each of them once. *)
Definition search_inv (st : list pystr * list pystr) : Prop :=
  NoDup (fst st) /\ forall x, In x (snd st) <-> In x (fst st).

(** Neither the first nor the last character is one that [p] strips. *)
Definition clean_ends (p : N -> bool) (s : pystr) : bool :=
  starts_clean p s && starts_clean p (rev s).

(** An author node that the loop of [parse_records] counts: one with a last
    name, initials or a collective name. *)
Definition is_named (au : Element) : bool :=
  nonempty (or_empty (findtext [Child (py "LastName")] au))
  || nonempty (or_empty (findtext [Child (py "Initials")] au))
  || nonempty (or_empty (findtext [Child (py "CollectiveName")] au)).

(** The name the loop reads off an author node. *)
Definition author_name (au : Element) : pystr :=
  let last := or_empty (findtext [Child (py "LastName")] au) in
  let init := or_empty (findtext [Child (py "Initials")] au) in
  if nonempty last || nonempty init then strip (last ++ py " " ++ init)
  else or_empty (findtext [Child (py "CollectiveName")] au).

(** The tokens that the second tier of [_extract_country_from_aff] reads:
    the pieces between commas of the text after the last semicolon, without
    spaces, periods and commas around them, the empty ones left out. *)
Definition tail_token_list {U : UnicodeData} (aff : pystr) : list pystr :=
  filter nonempty
         (map (strip_chars (py " .,"))
              (split_on 44 (last_piece (re_split (Cls [One 59]) aff)))).

(** The tiers after the email tier: the tokens of the tail, then the scan
    for an alias. *)
Definition after_email_tier {U : UnicodeData} (aff : pystr) : pystr :=
  match tail_tokens (rev (tail_token_list aff)) with
  | Some country => country
  | None => scan_aliases (sorted_longest_first (map fst COUNTRY_ALIASES)) aff
  end.

(** Longest first. *)
Definition longer_first (a b : pystr) : Prop := (List.length b <= List.length a)%nat.

(** A bullet of the digest: it starts with the mark and has at most 150
    characters. *)
Definition is_bullet (x : pystr) : Prop :=
  startswith x bullet_mark = true /\ (List.length x <= 150)%nat.

(** The state holds a time for [k]: a dict whose ["added_at"] is truthy. *)
Definition registered (k : pystr) (state : dict) : Prop :=
  exists entry v,
    dict_get k state = Some (JObj entry)
    /\ dict_get added_at entry = Some v /\ truthy v = true.

(** The identifiers of the records sent. *)
Definition sent_pmids (items : list item) : list pystr :=
  map (fun it => pmid (rec_of it)) items.

(** A value as the interpreter holds it: no dict in it has a key twice. *)
Inductive dict_like : json -> Prop :=
| like_null : dict_like JNull
| like_bool (b : bool) : dict_like (JBool b)
| like_int (z : Z) : dict_like (JInt z)
| like_float (x : SpecFloat.spec_float) : dict_like (JFloat x)
| like_str (s : pystr) : dict_like (JStr s)
| like_arr (items : list json) : Forall dict_like items -> dict_like (JArr items)
| like_obj (members : list (pystr * json)) :
    NoDup (keys members) ->
    Forall (fun kv => dict_like (snd kv)) members ->
    dict_like (JObj members).

(* ================================================================== *)
(** * Properties *)
(* ================================================================== *)

(** ** Strings and dicts *)

Lemma str_eqb_eq (a b : pystr) : str_eqb a b = true <-> a = b.
Proof.
  unfold str_eqb. destruct (list_eq_dec N.eq_dec a b); split; congruence.
Qed.

Lemma str_eqb_refl (a : pystr) : str_eqb a a = true.
Proof. now apply str_eqb_eq. Qed.

Lemma str_eqb_neq (a b : pystr) : str_eqb a b = false <-> a <> b.
Proof.
  unfold str_eqb. destruct (list_eq_dec N.eq_dec a b); split; congruence.
Qed.

Lemma nonempty_true (s : pystr) : nonempty s = true <-> s <> [].
Proof. destruct s; simpl; split; congruence. Qed.

Lemma nonempty_false (s : pystr) : nonempty s = false <-> s = [].
Proof. destruct s; simpl; split; congruence. Qed.

Section DictFacts.
Variable V : Type.
Implicit Types (d : list (pystr * V)) (k : pystr) (v : V).

Lemma dict_get_set_eq d k v : dict_get k (dict_set k v d) = Some v.
Proof.
  induction d as [|[k' v'] d IH]; simpl.
  - now rewrite str_eqb_refl.
  - destruct (str_eqb k' k) eqn:E; simpl; rewrite E; auto.
Qed.

Lemma dict_get_set_neq d k k' v :
  k <> k' -> dict_get k (dict_set k' v d) = dict_get k d.
Proof.
  intros N. induction d as [|[k0 v0] d IH]; simpl.
  - destruct (str_eqb k' k) eqn:E; auto.
    apply str_eqb_eq in E. congruence.
  - destruct (str_eqb k0 k') eqn:E; simpl.
    + apply str_eqb_eq in E. subst k0.
      destruct (str_eqb k' k) eqn:E'; auto.
      apply str_eqb_eq in E'. congruence.
    + destruct (str_eqb k0 k); auto.
Qed.

Lemma dict_get_set d k k' v :
  dict_get k (dict_set k' v d) = if str_eqb k' k then Some v else dict_get k d.
Proof.
  destruct (str_eqb k' k) eqn:E.
  - apply str_eqb_eq in E. subst. apply dict_get_set_eq.
  - apply str_eqb_neq in E. apply dict_get_set_neq. congruence.
Qed.

Lemma dict_get_In d k v : dict_get k d = Some v -> In (k, v) d.
Proof.
  induction d as [|[k' v'] d IH]; simpl; [discriminate|].
  destruct (str_eqb k' k) eqn:E.
  - apply str_eqb_eq in E. intros [= ->]. subst. now left.
  - auto.
Qed.

Lemma dict_get_None d k : dict_get k d = None <-> ~ In k (keys d).
Proof.
  induction d as [|[k' v'] d IH]; simpl.
  - tauto.
  - destruct (str_eqb k' k) eqn:E.
    + apply str_eqb_eq in E. split; [discriminate | intros H; exfalso; auto].
    + apply str_eqb_neq in E. rewrite IH. tauto.
Qed.

Lemma keys_dict_set d k v :
  keys (dict_set k v d) = if dict_mem k d then keys d else keys d ++ [k].
Proof.
  unfold dict_mem. induction d as [|[k' v'] d IH]; simpl; auto.
  destruct (str_eqb k' k) eqn:E; simpl; auto.
  rewrite IH. destruct (dict_get k d); auto.
Qed.

Lemma NoDup_keys_set d k v : NoDup (keys d) -> NoDup (keys (dict_set k v d)).
Proof.
  intros H. rewrite keys_dict_set. unfold dict_mem.
  destruct (dict_get k d) eqn:E; auto.
  apply dict_get_None in E.
  apply NoDup_rev in H. rewrite <- (rev_involutive (keys d ++ [k])).
  apply NoDup_rev. rewrite rev_app_distr. simpl. constructor; auto.
  now rewrite <- in_rev.
Qed.

(** A key that is not there goes last. *)
Lemma dict_set_fresh d k v : ~ In k (keys d) -> dict_set k v d = d ++ [(k, v)].
Proof.
  induction d as [|[k' v'] d IH]; simpl; auto.
  intros H. destruct (str_eqb k' k) eqn:E.
  - apply str_eqb_eq in E. tauto.
  - now rewrite IH by tauto.
Qed.
End DictFacts.

(** ** Registration *)

Lemma register_absent (state : dict) (pmid now : pystr) :
  dict_get pmid state = None ->
  register state pmid now = state ++ [(pmid, JObj [(added_at, JStr now)])].
Proof.
  intros H. unfold register. rewrite H.
  apply dict_set_fresh. now apply dict_get_None.
Qed.

Lemma dict_set_same (V : Type) (d : list (pystr * V)) (k : pystr) (v : V) :
  dict_get k d = Some v -> dict_set k v d = d.
Proof.
  induction d as [|[k' v'] d IH]; simpl; [discriminate|].
  destruct (str_eqb k' k) eqn:E.
  - now intros [= ->].
  - intros H. now rewrite IH.
Qed.

Lemma register_other (state : dict) (pmid now k : pystr) :
  k <> pmid -> dict_get k (register state pmid now) = dict_get k state.
Proof.
  intros N. unfold register.
  destruct (dict_get pmid state) as [[| | | | | |entry]|]; try now apply dict_get_set_neq.
  destruct (match dict_get added_at entry with Some v => truthy v | None => false end);
    auto using dict_get_set_neq.
Qed.

(** After a registration with a non-empty time the entry records a time. *)
Lemma register_records (state : dict) (pmid now : pystr) :
  now <> [] ->
  exists entry v,
    dict_get pmid (register state pmid now) = Some (JObj entry)
    /\ dict_get added_at entry = Some v /\ truthy v = true.
Proof.
  intros Hnow. unfold register.
  assert (Hfresh : exists entry v,
             dict_get pmid (dict_set pmid (JObj [(added_at, JStr now)]) state)
             = Some (JObj entry)
             /\ dict_get added_at entry = Some v /\ truthy v = true).
  { exists [(added_at, JStr now)], (JStr now). rewrite dict_get_set_eq.
    repeat split. simpl. now apply nonempty_true. }
  destruct (dict_get pmid state) as [[| | | | | |entry]|] eqn:E; auto.
  destruct (dict_get added_at entry) as [v|] eqn:Ea.
  - destruct (truthy v) eqn:Ev.
    + exists entry, v. auto.
    + exists (dict_set added_at (JStr now) entry), (JStr now).
      rewrite !dict_get_set_eq. repeat split. simpl. now apply nonempty_true.
  - exists (dict_set added_at (JStr now) entry), (JStr now).
    rewrite !dict_get_set_eq. repeat split. simpl. now apply nonempty_true.
Qed.

(** C3. Registration is idempotent on the time it records.  For a time
    [now] that is a non-empty string: an identifier that is absent is
    inserted with [added_at = now]; one that is present without a time (its
    [added_at] missing or [None], as after a legacy import) gets [now], its
    other keys kept; one that is present with a time is left as it is, the
    whole state unchanged; no other identifier is touched; and a second
    registration of the same identifier, whatever its time, changes nothing,
    so the time stays the one of the first registration. *)
Theorem register_keeps_first_time (state : dict) (pmid now : pystr) :
  now <> [] ->
  (dict_get pmid state = None ->
   dict_get pmid (register state pmid now) = Some (JObj [(added_at, JStr now)]))
  /\ (forall entry,
         dict_get pmid state = Some (JObj entry) ->
         lacks_timestamp (JObj entry) ->
         dict_get pmid (register state pmid now)
         = Some (JObj (dict_set added_at (JStr now) entry)))
  /\ (forall e t,
         dict_get pmid state = Some e -> has_timestamp e t ->
         register state pmid now = state)
  /\ (forall k, k <> pmid -> dict_get k (register state pmid now) = dict_get k state)
  /\ (forall now2,
         register (register state pmid now) pmid now2 = register state pmid now)
  /\ (dict_get pmid state = None
      \/ (exists e, dict_get pmid state = Some e /\ lacks_timestamp e) ->
      forall now2, exists e',
        dict_get pmid (register (register state pmid now) pmid now2) = Some e'
        /\ has_timestamp e' now).
Proof.
  intros Hnow.
  assert (Hidem : forall now2,
             register (register state pmid now) pmid now2 = register state pmid now).
  { intros now2. destruct (register_records state pmid Hnow) as (entry & v & H1 & H2 & H3).
    unfold register at 1. now rewrite H1, H2, H3. }
  assert (Hlegacy : forall entry,
             dict_get pmid state = Some (JObj entry) ->
             lacks_timestamp (JObj entry) ->
             dict_get pmid (register state pmid now)
             = Some (JObj (dict_set added_at (JStr now) entry))).
  { intros entry H (entry' & [= <-] & Hl). unfold register. rewrite H.
    destruct Hl as [-> | ->]; simpl; apply dict_get_set_eq. }
  assert (Habsent : dict_get pmid state = None ->
                    dict_get pmid (register state pmid now)
                    = Some (JObj [(added_at, JStr now)])).
  { intros H. unfold register. rewrite H. apply dict_get_set_eq. }
  split; [exact Habsent|]. split; [exact Hlegacy|].
  split; [|split; [|split; [exact Hidem|]]].
  - intros e t H (entry & -> & Ha & Ht). unfold register. rewrite H, Ha. simpl.
    apply nonempty_true in Ht. now rewrite Ht.
  - intros k. apply register_other.
  - intros Hcase now2. rewrite Hidem.
    destruct Hcase as [H | (e & H & entry & -> & Hl)].
    + eexists. split; [now apply Habsent|].
      exists [(added_at, JStr now)]. repeat split; auto.
    + eexists. split; [apply Hlegacy; [exact H | now exists entry]|].
      exists (dict_set added_at (JStr now) entry). repeat split; auto.
      apply dict_get_set_eq.
Qed.

(** The theorem at work: a state loaded from the legacy list ["7"], then
    ["7"] registered at ["t1"] and again at ["t2"]. *)
Lemma register_keeps_first_time_witness :
  py "t1" <> []
  /\ dict_get (py "7")
       (register (register (load_sent_state (Some (ListOf [py "7"]))) (py "7") (py "t1"))
                 (py "7") (py "t2"))
     = Some (JObj [(added_at, JStr (py "t1"))]).
Proof.
  assert (H : py "t1" <> []) by (vm_compute; discriminate).
  split; [exact H|].
  rewrite (proj1 (proj2 (proj2 (proj2 (proj2
    (@register_keeps_first_time (load_sent_state (Some (ListOf [py "7"]))) (py "7")
       (py "t1") H)))))
    (py "t2")).
  vm_compute. reflexivity.
Defined.

(** ** The loop of [main] *)

Section LoopFacts.
Variable summarize : nat -> pystr -> pystr -> summary_data.
Variable now : pystr.

Lemma length_calls_step (w : loop_state) (r : record) :
  List.length (l_calls (process_record summarize now w r)) = S (List.length (l_calls w)).
Proof. unfold process_record. simpl. rewrite length_app. simpl. lia. Qed.

Lemma length_items_step (w : loop_state) (r : record) :
  List.length (l_items (process_record summarize now w r)) = S (List.length (l_items w)).
Proof. unfold process_record. simpl. rewrite length_app. simpl. lia. Qed.

(** The loop only appends to the calls and to the items. *)
Lemma loop_appends (records : list record) (w : loop_state) :
  exists cs its,
    l_calls (fold_left (process_record summarize now) records w) = l_calls w ++ cs
    /\ l_items (fold_left (process_record summarize now) records w) = l_items w ++ its
    /\ List.length cs = List.length records
    /\ List.length its = List.length records.
Proof.
  revert w. induction records as [|r rs IH]; intros w; simpl.
  - exists [], []. now rewrite !app_nil_r.
  - destruct (IH (process_record summarize now w r)) as (cs & its & Hc & Hi & Lc & Li).
    rewrite Hc, Hi. unfold process_record. simpl.
    eexists (_ :: cs), (_ :: its). rewrite <- !app_assoc. simpl.
    repeat split; auto.
Qed.

Lemma loop_nth (records : list record) (w : loop_state) (i : nat) (rec : record) :
  nth_error records i = Some rec ->
  nth_error (l_calls (fold_left (process_record summarize now) records w))
            (List.length (l_calls w) + i)
  = Some (title rec, str_or (abstract rec) [])
  /\ nth_error (l_items (fold_left (process_record summarize now) records w))
               (List.length (l_items w) + i)
     = Some (Item rec
               (sd_title_ja (summarize (List.length (l_calls w) + i)
                                       (title rec) (str_or (abstract rec) [])))
               (if nonempty (abstract rec)
                then join [10] (sd_bullets (summarize (List.length (l_calls w) + i)
                                                      (title rec) (str_or (abstract rec) [])))
                else no_abstract_line)).
Proof.
  revert w i. induction records as [|r rs IH]; intros w i H.
  - destruct i; discriminate.
  - destruct i as [|j]; simpl in H.
    + injection H as ->. simpl fold_left.
      destruct (loop_appends rs (process_record summarize now w rec))
        as (cs & its & Hc & Hi & _ & _).
      rewrite Hc, Hi. unfold process_record. simpl.
      rewrite !Nat.add_0_r, <- !app_assoc. simpl.
      rewrite !nth_error_app2 by lia. rewrite !Nat.sub_diag. simpl. auto.
    + simpl fold_left. destruct (IH (process_record summarize now w r) j H) as [Hc Hi].
      rewrite length_calls_step in Hc, Hi. rewrite length_items_step in Hi.
      rewrite <- !Nat.add_succ_comm. split; [exact Hc | exact Hi].
Qed.
End LoopFacts.

(** C10. In the loop of [main], a record whose abstract is the empty string
    is still given to the summariser (the call for the i-th record carries
    its title and the empty abstract), the item keeps the localized title
    that call returned, and its summary is the fixed line, whatever bullet
    points came back. *)
Theorem empty_abstract_gets_fixed_line
  (summarize : nat -> pystr -> pystr -> summary_data)
  (now : pystr) (state : dict) (records : list record) (i : nat) (rec : record) :
  nth_error records i = Some rec ->
  abstract rec = [] ->
  nth_error (l_calls (process_records summarize now state records)) i
  = Some (title rec, [])
  /\ nth_error (l_items (process_records summarize now state records)) i
     = Some (Item rec (sd_title_ja (summarize i (title rec) [])) no_abstract_line)
  /\ List.length (l_calls (process_records summarize now state records))
     = List.length records.
Proof.
  intros Hi Ha. unfold process_records.
  destruct (loop_nth summarize now records (Loop state [] []) i Hi) as [Hc Hit].
  rewrite Ha in Hc, Hit.
  split; [exact Hc|]. split; [exact Hit|].
  destruct (loop_appends summarize now records (Loop state [] [])) as (cs & its & H1 & _ & L & _).
  rewrite H1. exact L.
Qed.

(** The theorem at work: one record without an abstract, and a summariser
    that answers with a title and four bullet points. *)
Lemma empty_abstract_gets_fixed_line_witness :
  let rec := Rec (py "1") (py "A trial") [] [] [] [] [] [] [] in
  let summarize := fun (_ : nat) (_ _ : pystr) =>
                     Summary (py "ある試験") [py "・a"; py "・b"; py "・c"; py "・d"] in
  nth_error [rec] 0 = Some rec
  /\ abstract rec = []
  /\ nth_error (l_items (process_records summarize Examples.later [] [rec])) 0
     = Some (Item rec (py "ある試験") no_abstract_line).
Proof.
  intros rec summarize.
  split; [reflexivity|]. split; [reflexivity|].
  exact (proj1 (proj2 (@empty_abstract_gets_fixed_line summarize Examples.later []
                         [rec] 0 rec eq_refl eq_refl))).
Defined.

(** ** The order of keys *)

Lemma str_leb_refl (a : pystr) : str_leb a a = true.
Proof. induction a as [|x a IH]; simpl; auto. now rewrite N.ltb_irrefl. Qed.

Lemma str_leb_total (a b : pystr) : str_leb a b = true \/ str_leb b a = true.
Proof.
  revert b. induction a as [|x a IH]; intros [|y b]; simpl; auto.
  destruct (N.ltb_spec x y), (N.ltb_spec y x); auto; lia.
Qed.

Lemma str_leb_antisym (a b : pystr) :
  str_leb a b = true -> str_leb b a = true -> a = b.
Proof.
  revert b. induction a as [|x a IH]; intros [|y b]; simpl; auto; try discriminate.
  destruct (N.ltb_spec x y), (N.ltb_spec y x); try discriminate; try lia.
  intros H1 H2. assert (x = y) by lia. subst. f_equal. auto.
Qed.

Lemma str_leb_trans (a b c : pystr) :
  str_leb a b = true -> str_leb b c = true -> str_leb a c = true.
Proof.
  revert b c. induction a as [|x a IH]; intros [|y b] [|z c]; simpl; auto; try discriminate.
  destruct (N.ltb_spec x y), (N.ltb_spec y x), (N.ltb_spec y z), (N.ltb_spec z y),
    (N.ltb_spec x z), (N.ltb_spec z x); auto; try discriminate; try lia.
  apply IH.
Qed.

Section SortFacts.
Variable V : Type.
Implicit Types (d l : list (pystr * V)) (kv : pystr * V).

Lemma insert_by_key_perm kv l : Permutation (insert_by_key kv l) (kv :: l).
Proof.
  induction l as [|kv' l IH]; simpl; auto.
  destruct (str_leb (fst kv) (fst kv')); auto.
  rewrite IH. apply perm_swap.
Qed.

Lemma sorted_items_perm d : Permutation (sorted_items d) d.
Proof.
  induction d as [|kv d IH]; simpl; auto.
  rewrite insert_by_key_perm. now constructor.
Qed.

Lemma insert_by_key_sorted kv l :
  StronglySorted (@key_le V) l -> StronglySorted (@key_le V) (insert_by_key kv l).
Proof.
  induction 1 as [|kv' l Hs IH Hall]; simpl.
  - repeat constructor.
  - destruct (str_leb (fst kv) (fst kv')) eqn:E.
    + constructor; [now constructor|]. constructor; [exact E|].
      eapply Forall_impl; [|exact Hall]. intros x Hx. unfold key_le in *.
      eapply str_leb_trans; eauto.
    + constructor; auto.
      assert (Hle : key_le kv' kv).
      { unfold key_le. destruct (str_leb_total (fst kv') (fst kv)); congruence. }
      rewrite (Forall_forall (key_le kv')). intros x Hx.
      apply (Permutation_in _ (insert_by_key_perm kv l)) in Hx.
      destruct Hx as [<- | Hx]; auto.
      now apply (proj1 (Forall_forall _ _) Hall).
Qed.

Lemma sorted_items_sorted d : StronglySorted (@key_le V) (sorted_items d).
Proof.
  induction d as [|kv d IH]; simpl; [constructor|]. now apply insert_by_key_sorted.
Qed.

Lemma dict_get_insert_by_key k kv l :
  dict_get k (insert_by_key kv l)
  = if str_eqb (fst kv) k then Some (snd kv) else dict_get k l.
Proof.
  destruct kv as [k0 v0]. induction l as [|[k1 v1] l IH]; simpl; auto.
  destruct (str_leb k0 k1) eqn:E; simpl; auto.
  rewrite IH. simpl.
  destruct (str_eqb k1 k) eqn:E1, (str_eqb k0 k) eqn:E0; auto.
  apply str_eqb_eq in E1, E0. subst. now rewrite str_leb_refl in E.
Qed.

(** Sorting keeps what each key maps to. *)
Lemma dict_get_sorted_items k d : dict_get k (sorted_items d) = dict_get k d.
Proof.
  induction d as [|[k0 v0] d IH]; simpl; auto.
  rewrite dict_get_insert_by_key. simpl. now rewrite IH.
Qed.

(** Two sorted lists with the same members and distinct keys are the same
    list. *)
Lemma sorted_perm_eq l1 l2 :
  StronglySorted (@key_le V) l1 -> StronglySorted (@key_le V) l2 ->
  NoDup (keys l1) -> Permutation l1 l2 -> l1 = l2.
Proof.
  intros S1. revert l2. induction S1 as [|a l1 S1 IH Ha]; intros l2 S2 ND P.
  - apply Permutation_nil in P. now subst.
  - destruct S2 as [|b l2 S2 Hb].
    + apply Permutation_sym, Permutation_nil in P. discriminate.
    + assert (a = b).
      { assert (Ina : In a (b :: l2)) by (eapply Permutation_in; [exact P | now left]).
        assert (Inb : In b (a :: l1))
          by (eapply Permutation_in; [apply Permutation_sym; exact P | now left]).
        destruct Ina as [-> | Ina]; auto. destruct Inb as [-> | Inb]; auto.
        assert (K : fst a = fst b).
        { apply str_leb_antisym.
          - apply (proj1 (Forall_forall _ _) Ha _ Inb).
          - apply (proj1 (Forall_forall _ _) Hb _ Ina). }
        simpl in ND. inversion ND as [|? ? Hnot _]; subst.
        exfalso. apply Hnot. rewrite K. unfold keys. now apply in_map. }
      subst b. f_equal. apply IH; auto.
      * simpl in ND. now inversion ND.
      * eapply Permutation_cons_inv; eauto.
Qed.

(** A dict read back from members with distinct keys is those members. *)
Lemma dict_of_members_app (ms acc : list (pystr * V)) :
  NoDup (keys (acc ++ ms)) ->
  fold_left (fun d kv => dict_set (fst kv) (snd kv) d) ms acc = acc ++ ms.
Proof.
  revert acc. induction ms as [|[k v] ms IH]; intros acc ND; simpl.
  - now rewrite app_nil_r.
  - rewrite dict_set_fresh.
    + rewrite IH; rewrite <- app_assoc; auto.
    + unfold keys in ND. rewrite map_app in ND. simpl in ND.
      apply NoDup_remove_2 in ND. intros H. apply ND. apply in_or_app. now left.
Qed.

Lemma dict_of_members_id d : NoDup (keys d) -> dict_of_members d = d.
Proof. intros ND. unfold dict_of_members. now rewrite dict_of_members_app. Qed.
End SortFacts.

Lemma keys_map_values (A B : Type) (f : A -> B) (d : list (pystr * A)) :
  keys (map (fun kv => (fst kv, f (snd kv))) d) = keys d.
Proof. unfold keys. rewrite map_map. now apply map_ext. Qed.

Lemma dict_get_map_values (A B : Type) (f : A -> B) (d : list (pystr * A)) (k : pystr) :
  dict_get k (map (fun kv => (fst kv, f (snd kv))) d) = option_map f (dict_get k d).
Proof.
  induction d as [|[k0 v0] d IH]; simpl; auto.
  destruct (str_eqb k0 k); auto.
Qed.

(** ** The store: load, save, load again *)

Lemma save_sent_state_eq (state : dict) :
  save_sent_state state = Some (ObjectOf (sorted_items (map dump_member state))).
Proof. reflexivity. Qed.

Lemma NoDup_keys_sorted_dump (state : dict) :
  NoDup (keys state) -> NoDup (keys (map load_member (sorted_items (map dump_member state)))).
Proof.
  intros ND. unfold load_member. rewrite keys_map_values.
  eapply Permutation_NoDup.
  - apply Permutation_sym. unfold keys. apply Permutation_map. apply sorted_items_perm.
  - unfold dump_member. fold (keys (map (fun kv => (fst kv, dump_value (snd kv))) state)).
    now rewrite keys_map_values.
Qed.

(** What a completed save gives back on the next load: the same keys, each
    with its value as [json.dump] and [json.load] pass it on. *)
Lemma load_after_save (state : dict) (k : pystr) :
  NoDup (keys state) ->
  dict_get k (load_sent_state (save_sent_state state))
  = option_map (fun v => load_value (dump_value v)) (dict_get k state).
Proof.
  intros ND. rewrite save_sent_state_eq. unfold load_sent_state, json_load.
  fold load_member. rewrite dict_of_members_id by now apply NoDup_keys_sorted_dump.
  unfold load_member. rewrite dict_get_map_values, dict_get_sorted_items.
  unfold dump_member. rewrite dict_get_map_values.
  now destruct (dict_get k state).
Qed.

Lemma legacy_fold (ids : list pystr) (acc : dict) (k : pystr) :
  dict_get k (fold_left (fun d pmid => dict_set pmid legacy_entry d) ids acc)
  = if existsb (fun id => str_eqb id k) ids then Some legacy_entry else dict_get k acc.
Proof.
  revert acc. induction ids as [|id ids IH]; intros acc; simpl; auto.
  rewrite IH, dict_get_set.
  destruct (existsb (fun id0 => str_eqb id0 k) ids), (str_eqb id k); auto.
Qed.

Lemma legacy_fold_NoDup (ids : list pystr) (acc : dict) :
  NoDup (keys acc) ->
  NoDup (keys (fold_left (fun d pmid => dict_set pmid legacy_entry d) ids acc)).
Proof.
  revert acc. induction ids as [|id ids IH]; intros acc ND; simpl; auto.
  apply IH. now apply NoDup_keys_set.
Qed.

Lemma load_legacy_present (ids : list pystr) (id : pystr) :
  In id ids -> dict_get id (load_sent_state (Some (ListOf ids))) = Some legacy_entry.
Proof.
  intros H. unfold load_sent_state, json_load. fold legacy_entry. rewrite legacy_fold.
  replace (existsb (fun id0 => str_eqb id0 id) ids) with true; auto.
  symmetry. apply existsb_exists. exists id. split; auto. apply str_eqb_refl.
Qed.

Lemma load_legacy_absent (ids : list pystr) (id : pystr) :
  ~ In id ids -> dict_get id (load_sent_state (Some (ListOf ids))) = None.
Proof.
  intros H. unfold load_sent_state, json_load. fold legacy_entry. rewrite legacy_fold.
  destruct (existsb (fun id0 => str_eqb id0 id) ids) eqn:E; auto.
  apply existsb_exists in E. destruct E as (x & Hx & E). apply str_eqb_eq in E.
  subst. contradiction.
Qed.

Lemma load_legacy_NoDup (ids : list pystr) :
  NoDup (keys (load_sent_state (Some (ListOf ids)))).
Proof.
  unfold load_sent_state, json_load. fold legacy_entry.
  apply legacy_fold_NoDup. constructor.
Qed.

Lemma NoDup_dict_of_members (V : Type) (ms acc : list (pystr * V)) :
  NoDup (keys acc) ->
  NoDup (keys (fold_left (fun d kv => dict_set (fst kv) (snd kv) d) ms acc)).
Proof.
  revert acc. induction ms as [|kv ms IH]; intros acc ND; simpl; auto.
  apply IH. now apply NoDup_keys_set.
Qed.

(** Whatever the file holds, the state that is loaded has each key once. *)
Lemma load_sent_state_NoDup (f : file) : NoDup (keys (load_sent_state f)).
Proof.
  destruct f as [[| |ids|ms|]|]; try constructor.
  - apply load_legacy_NoDup.
  - unfold load_sent_state, json_load, dict_of_members.
    apply NoDup_dict_of_members. constructor.
Qed.

Lemma register_NoDup (state : dict) (pmid now : pystr) :
  NoDup (keys state) -> NoDup (keys (register state pmid now)).
Proof.
  intros ND. unfold register.
  destruct (dict_get pmid state) as [[| | | | | |entry]|]; try now apply NoDup_keys_set.
  destruct (match dict_get added_at entry with Some v => truthy v | None => false end);
    auto using NoDup_keys_set.
Qed.

(** C4. Round trip over the legacy format.  Load a stored flat list of
    identifiers, register one identifier that is not in it, save, and load
    again: every identifier of the list is present with [added_at] absent
    ([None]), the new identifier is present with the time of its
    registration, and nothing else is. *)
Theorem legacy_round_trip (ids : list pystr) (new now : pystr) :
  ~ In new ids ->
  let reloaded :=
    load_sent_state
      (save_sent_state (register (load_sent_state (Some (ListOf ids))) new now)) in
  (forall id, In id ids -> dict_get id reloaded = Some (JObj [(added_at, JNull)]))
  /\ dict_get new reloaded = Some (JObj [(added_at, JStr now)])
  /\ (forall k, k <> new -> ~ In k ids -> dict_get k reloaded = None).
Proof.
  intros Hnew reloaded. subst reloaded.
  assert (ND : NoDup (keys (register (load_sent_state (Some (ListOf ids))) new now)))
    by (apply register_NoDup, load_legacy_NoDup).
  split; [|split].
  - intros id Hid. rewrite load_after_save by exact ND.
    rewrite register_other by (intros ->; contradiction).
    now rewrite load_legacy_present.
  - rewrite load_after_save by exact ND.
    unfold register at 1. rewrite load_legacy_absent by exact Hnew.
    now rewrite dict_get_set_eq.
  - intros k Hk Hin. rewrite load_after_save by exact ND.
    rewrite register_other by exact Hk.
    now rewrite load_legacy_absent.
Qed.

(** The theorem at work: the legacy list ["101", "102"] and the new
    identifier ["103"]. *)
Lemma legacy_round_trip_witness :
  ~ In (py "103") [py "101"; py "102"]
  /\ load_sent_state
       (save_sent_state
          (register (load_sent_state (Some (ListOf [py "101"; py "102"])))
                    (py "103") Examples.later))
     = [ (py "101", JObj [(added_at, JNull)]);
         (py "102", JObj [(added_at, JNull)]);
         (py "103", JObj [(added_at, JStr Examples.later)]) ]
  /\ dict_get (py "103")
       (load_sent_state
          (save_sent_state
             (register (load_sent_state (Some (ListOf [py "101"; py "102"])))
                       (py "103") Examples.later)))
     = Some (JObj [(added_at, JStr Examples.later)]).
Proof.
  assert (H : ~ In (py "103") [py "101"; py "102"]).
  { vm_compute. intros [H | [H | []]]; discriminate. }
  split; [exact H|]. split; [vm_compute; reflexivity|].
  exact (proj1 (proj2 (@legacy_round_trip [py "101"; py "102"] (py "103") Examples.later H))).
Defined.

(** ** Saving *)

(** Counterexample to C9 as stated.  A save that stops after it has opened
    the file leaves the file empty: the next load gives the empty state, and
    the stored entry is gone. *)
Lemma interrupted_save_loses_state :
  dict_get (py "39000001") (load_sent_state Examples.stored_one)
  = Some (JObj [(added_at, JStr (py "2025-01-01T07:00:00+09:00"))])
  /\ interrupted_save 1 Examples.stored_one
       (register (load_sent_state Examples.stored_one) (py "39000002") Examples.later)
     = Some Empty
  /\ load_sent_state
       (interrupted_save 1 Examples.stored_one
          (register (load_sent_state Examples.stored_one) (py "39000002") Examples.later))
     = [].
Proof. repeat split; vm_compute; reflexivity. Qed.

(** C9, amended.  [save_sent_state] rewrites the whole mapping in place: the
    file is first emptied, then holds the mapping with its keys in
    increasing order and nothing else.  What is written depends on the
    mapping only, not on the order in which its keys were inserted, so the
    same state saved twice gives the same file.  A completed save is read
    back key by key; a save that stops after opening the file leaves it
    empty, whatever it held. *)
Theorem save_is_sorted_and_deterministic (state : dict) :
  NoDup (keys state) ->
  (exists ms,
      save_sent_state state = Some (ObjectOf ms)
      /\ StronglySorted (@key_le json) ms
      /\ Permutation (keys ms) (keys state))
  /\ (forall state', Permutation state state' ->
                     save_sent_state state' = save_sent_state state)
  /\ (forall k, dict_get k (load_sent_state (save_sent_state state))
                = option_map (fun v => load_value (dump_value v)) (dict_get k state))
  /\ (forall f, interrupted_save 0 f state = f
                /\ interrupted_save 1 f state = Some Empty
                /\ interrupted_save 2 f state = save_sent_state state).
Proof.
  intros ND. split; [|split; [|split]].
  - exists (sorted_items (map dump_member state)). split; [reflexivity|].
    split; [apply sorted_items_sorted|].
    unfold keys. rewrite (Permutation_map fst (sorted_items_perm (map dump_member state))).
    unfold dump_member. fold (keys (map (fun kv => (fst kv, dump_value (snd kv))) state)).
    now rewrite keys_map_values.
  - intros state' P. rewrite !save_sent_state_eq. do 2 f_equal.
    apply sorted_perm_eq; try apply sorted_items_sorted.
    + eapply Permutation_NoDup.
      * unfold keys. apply Permutation_map, Permutation_sym, sorted_items_perm.
      * unfold dump_member.
        fold (keys (map (fun kv => (fst kv, dump_value (snd kv))) state')).
        rewrite keys_map_values. eapply Permutation_NoDup; [|exact ND].
        unfold keys. now apply Permutation_map.
    + rewrite !sorted_items_perm. apply Permutation_map. now apply Permutation_sym.
  - intros k. now apply load_after_save.
  - intros f. repeat split.
Qed.

(** The theorem at work: the same two entries inserted in either order are
    written to the same file. *)
Lemma save_is_sorted_and_deterministic_witness :
  NoDup (keys [(py "b", legacy_entry); (py "a", legacy_entry)])
  /\ save_sent_state [(py "a", legacy_entry); (py "b", legacy_entry)]
     = save_sent_state [(py "b", legacy_entry); (py "a", legacy_entry)].
Proof.
  assert (ND : NoDup (keys [(py "b", legacy_entry); (py "a", legacy_entry)])).
  { vm_compute. repeat constructor; simpl; intuition discriminate. }
  split; [exact ND|].
  apply (proj1 (proj2 (@save_is_sorted_and_deterministic _ ND))).
  apply perm_swap.
Defined.

(** ** Parsing a response *)

(** Counterexample to C1 as stated.  A response cut short is not an empty
    list of records: the parser raises, [parse_records] raises with it, and
    so does [main], whatever the stored state. *)
Lemma malformed_blob_raises :
  Xml.fromstring Examples.truncated_xml = Raise ParseError
  /\ parse_records (U:=latin1_tables) Xml.fromstring Examples.truncated_xml
     = Raise ParseError
  /\ main (U:=latin1_tables) Xml.fromstring (fun _ => Examples.truncated_xml)
          (fun _ _ _ => Summary [] []) Examples.stored_one [py "39000002"] Examples.later
     = Raise ParseError.
Proof. repeat split; vm_compute; reflexivity. Qed.

(** C1, amended.  An empty response gives the empty list of records and the
    parser is not asked.  A non-empty response that the parser rejects makes
    [parse_records] raise the parser's error, and [main], which has no
    handler around the call, raises it too: the run stops before the state is
    saved. *)
Theorem parse_records_empty_or_raises
  {U : UnicodeData} (ET_fromstring : pystr -> result Element)
  (pubmed_efetch : list pystr -> pystr)
  (summarize : nat -> pystr -> pystr -> summary_data)
  (f : file) (pmids : list pystr) (now : pystr) (e : exn) :
  let new_pmids := filter (fun p => negb (dict_mem p (load_sent_state f))) pmids in
  new_pmids <> [] ->
  pubmed_efetch new_pmids <> [] ->
  ET_fromstring (pubmed_efetch new_pmids) = Raise e ->
  parse_records ET_fromstring [] = Ok []
  /\ parse_records ET_fromstring (pubmed_efetch new_pmids) = Raise e
  /\ main ET_fromstring pubmed_efetch summarize f pmids now = Raise e.
Proof.
  intros new_pmids Hnew Hxml Hraise.
  assert (Hp : parse_records ET_fromstring (pubmed_efetch new_pmids) = Raise e).
  { unfold parse_records. apply nonempty_true in Hxml. rewrite Hxml. simpl.
    now rewrite Hraise. }
  split; [reflexivity|]. split; [exact Hp|].
  unfold main. fold new_pmids. destruct new_pmids as [|p ps] eqn:E; [congruence|].
  rewrite Hp. reflexivity.
Qed.

(** The theorem at work: the response cut short, for one new identifier. *)
Lemma parse_records_empty_or_raises_witness :
  filter (fun p => negb (dict_mem p (load_sent_state Examples.stored_one))) [py "39000002"]
  <> []
  /\ Examples.truncated_xml <> []
  /\ Xml.fromstring Examples.truncated_xml = Raise ParseError
  /\ main (U:=latin1_tables) Xml.fromstring (fun _ => Examples.truncated_xml)
          (fun _ _ _ => Summary [] []) Examples.stored_one [py "39000002"] Examples.later
     = Raise ParseError.
Proof.
  assert (H1 : filter (fun p => negb (dict_mem p (load_sent_state Examples.stored_one)))
                      [py "39000002"] <> []) by (vm_compute; discriminate).
  assert (H2 : Examples.truncated_xml <> []) by (vm_compute; discriminate).
  assert (H3 : Xml.fromstring Examples.truncated_xml = Raise ParseError)
    by (vm_compute; reflexivity).
  split; [exact H1|]. split; [exact H2|]. split; [exact H3|].
  exact (proj2 (proj2 (@parse_records_empty_or_raises latin1_tables Xml.fromstring
                         (fun _ => Examples.truncated_xml) (fun _ _ _ => Summary [] [])
                         Examples.stored_one [py "39000002"] Examples.later ParseError
                         H1 H2 H3))).
Defined.

(** ** The author line *)

Lemma endswith_app (a b : pystr) : endswith (a ++ b) b = true.
Proof.
  unfold endswith. rewrite length_app.
  replace (List.length a + List.length b - List.length b)%nat with (List.length a) by lia.
  rewrite skipn_app, Nat.sub_diag, skipn_all. simpl.
  rewrite str_eqb_refl, andb_true_r. apply Nat.leb_le. lia.
Qed.

Lemma last_app_nonempty (a suf : pystr) (x : N) :
  suf <> [] -> last (a ++ suf) x = last suf x.
Proof.
  intros H. induction a as [|c a IH]; simpl; auto.
  destruct (a ++ suf) eqn:E; auto.
  apply app_eq_nil in E. tauto.
Qed.

Lemma endswith_last (s suf : pystr) (x : N) :
  endswith s suf = true -> suf <> [] -> last s x = last suf x.
Proof.
  unfold endswith. intros H Hs. apply andb_true_iff in H. destruct H as [_ H].
  apply str_eqb_eq in H.
  rewrite <- (firstn_skipn (List.length s - List.length suf) s) at 1.
  rewrite H. now apply last_app_nonempty.
Qed.

(** A line that ends with the closing parenthesis of the country does not
    end with [", et al."]. *)
Lemma country_suffix_not_et_al (a country : pystr) :
  endswith (a ++ py "（" ++ country ++ py "）") et_al = false.
Proof.
  destruct (endswith (a ++ py "（" ++ country ++ py "）") et_al) eqn:E; auto.
  apply (@endswith_last _ _ 0) in E; [|vm_compute; discriminate].
  rewrite !app_assoc in E. change (py "）") with [65289] in E.
  rewrite last_last in E. vm_compute in E. discriminate.
Qed.

Lemma render_authors_et_al {U : UnicodeData} (acc : author_acc) (country : pystr) :
  (2 <= counted acc)%nat -> first_author_name acc <> [] ->
  render_authors acc country
  = first_author_name acc ++ et_al
      ++ (if nonempty country then py "（" ++ country ++ py "）" else []).
Proof.
  intros H2 Hn. unfold render_authors.
  apply Nat.leb_le in H2. apply nonempty_true in Hn. rewrite H2, Hn. simpl andb. cbv iota.
  destruct (nonempty country); [now rewrite <- app_assoc | now rewrite app_nil_r].
Qed.

(** Counterexample to C5 as stated.  Two named authors, the first found,
    and the line ends with the country, not with [", et al."]. *)
Lemma et_al_is_not_last :
  counted (walk_authors (U:=latin1_tables) Examples.two_authors) = 2%nat
  /\ first_author_name (walk_authors (U:=latin1_tables) Examples.two_authors) = py "Sato T"
  /\ authors (parse_article (U:=latin1_tables) Examples.two_authors)
     = py "Sato T, et al.（Japan）"
  /\ endswith (authors (parse_article (U:=latin1_tables) Examples.two_authors)) et_al
     = false.
Proof. repeat split; vm_compute; reflexivity. Qed.

(** C5, amended.  For an article with two or more credited authors and a
    first author's name, the author line is that name, then [", et al."],
    then the inferred country in full-width parentheses when there is one.
    It ends with [", et al."] exactly when no country was inferred. *)
Theorem et_al_follows_first_author {U : UnicodeData} (art : Element) :
  (2 <= counted (walk_authors art))%nat ->
  first_author_name (walk_authors art) <> [] ->
  let country := _extract_country_from_aff (affiliation_source art) in
  authors (parse_article art)
  = first_author_name (walk_authors art) ++ et_al
      ++ (if nonempty country then py "（" ++ country ++ py "）" else [])
  /\ (endswith (authors (parse_article art)) et_al = true <-> country = []).
Proof.
  intros H2 Hn country.
  assert (E : authors (parse_article art)
              = first_author_name (walk_authors art) ++ et_al
                  ++ (if nonempty country then py "（" ++ country ++ py "）" else [])).
  { unfold parse_article, authors, authors_display. fold country.
    now apply render_authors_et_al. }
  split; [exact E|]. rewrite E.
  destruct country as [|c cs] eqn:Ec.
  - simpl nonempty. cbv iota. rewrite app_nil_r. rewrite endswith_app. tauto.
  - simpl nonempty. cbv iota. rewrite app_assoc, country_suffix_not_et_al.
    split; discriminate.
Qed.

(** The theorem at work: the article with two named authors. *)
Lemma et_al_follows_first_author_witness :
  (2 <= counted (walk_authors (U:=latin1_tables) Examples.two_authors))%nat
  /\ first_author_name (walk_authors (U:=latin1_tables) Examples.two_authors) <> []
  /\ authors (parse_article (U:=latin1_tables) Examples.two_authors)
     = py "Sato T" ++ et_al ++ py "（" ++ py "Japan" ++ py "）".
Proof.
  assert (H1 : (2 <= counted (walk_authors (U:=latin1_tables) Examples.two_authors))%nat)
    by (vm_compute; lia).
  assert (H2 : first_author_name (walk_authors (U:=latin1_tables) Examples.two_authors) <> [])
    by (vm_compute; discriminate).
  split; [exact H1|]. split; [exact H2|].
  rewrite (proj1 (@et_al_follows_first_author latin1_tables Examples.two_authors H1 H2)).
  vm_compute. reflexivity.
Defined.

(** Counterexample to C6 as stated.  An article without author nodes whose
    investigator has an affiliation: the author line is the country alone,
    not the empty string. *)
Lemma no_authors_yet_a_line :
  authors_nodes Examples.no_authors = []
  /\ authors (parse_article (U:=latin1_tables) Examples.no_authors) = py "（Japan）".
Proof. split; vm_compute; reflexivity. Qed.

(** C6, amended.  For an article without author nodes no [", et al."] is
    put, and the author line is empty unless an affiliation elsewhere in
    the article gives a country: then it is that country alone, in
    full-width parentheses.  Without any affiliation it is empty. *)
Theorem no_author_nodes_line {U : UnicodeData} (art : Element) :
  authors_nodes art = [] ->
  let any_aff := find [Descendant (py "AffiliationInfo"); Child (py "Affiliation")] art in
  let country := _extract_country_from_aff (_itertext any_aff) in
  authors (parse_article art)
  = (if nonempty country then py "（" ++ country ++ py "）" else [])
  /\ endswith (authors (parse_article art)) et_al = false
  /\ (any_aff = None -> authors (parse_article art) = []).
Proof.
  intros H any_aff country.
  assert (E : authors (parse_article art)
              = if nonempty country then py "（" ++ country ++ py "）" else []).
  { unfold parse_article, authors, authors_display, affiliation_source, walk_authors.
    rewrite H. reflexivity. }
  split; [exact E|]. rewrite E. split.
  - destruct (nonempty country).
    + apply (country_suffix_not_et_al []).
    + reflexivity.
  - intros Hnone. subst country. rewrite Hnone. reflexivity.
Qed.

(** The theorem at work: the article whose only affiliation is an
    investigator's. *)
Lemma no_author_nodes_line_witness :
  authors_nodes Examples.no_authors = []
  /\ endswith (authors (parse_article (U:=latin1_tables) Examples.no_authors)) et_al = false.
Proof.
  assert (H : authors_nodes Examples.no_authors = []) by (vm_compute; reflexivity).
  split; [exact H|].
  exact (proj1 (proj2 (@no_author_nodes_line latin1_tables Examples.no_authors H))).
Defined.

(** ** The publication date *)

(** An electronic article date ends the chain, whatever else the article
    holds. *)
Lemma electronic_entry_decides {U : UnicodeData} (art ad : Element) :
  List.find is_electronic (findall article_dates art) = Some ad ->
  _extract_pubdate_display art = fmt_date_of ad.
Proof. intros H. unfold _extract_pubdate_display. now rewrite H. Qed.

(** When the first four steps give nothing, the history decides. *)
Lemma history_is_last_resort {U : UnicodeData} (art : Element) :
  List.find is_electronic (findall article_dates art) = None ->
  (forall ad, find article_dates art = Some ad -> fmt_date_of ad = []) ->
  _fmt_date (findtext (issue_pubdate (py "Year")) art)
            (findtext (issue_pubdate (py "Month")) art)
            (findtext (issue_pubdate (py "Day")) art) = [] ->
  strip (or_empty (findtext (issue_pubdate (py "MedlineDate")) art)) = [] ->
  _extract_pubdate_display art = history_date history_statuses art.
Proof.
  intros H1 H2 H3 H4. unfold _extract_pubdate_display. rewrite H1. cbv zeta.
  assert (E2 : match find article_dates art with
               | Some ad => fmt_date_of ad
               | None => []
               end = []).
  { destruct (find article_dates art) as [ad|]; auto. }
  rewrite E2, H3, H4. reflexivity.
Qed.

(** Counterexample to C7 as stated.  The first four steps fail, the history
    has an "entrez" entry dated 2024-03-01 and a "pubmed" entry dated
    2024-03-05: the earliest entry is the one of 2024-03-01, and the date
    that is rendered is 2024 Mar 05. *)
Lemma later_pubmed_entry_is_rendered :
  List.find (is_electronic (U:=latin1_tables))
            (findall article_dates Examples.history_only) = None
  /\ find article_dates Examples.history_only = None
  /\ _fmt_date (U:=latin1_tables)
       (findtext (issue_pubdate (py "Year")) Examples.history_only)
       (findtext (issue_pubdate (py "Month")) Examples.history_only)
       (findtext (issue_pubdate (py "Day")) Examples.history_only) = []
  /\ findtext (issue_pubdate (py "MedlineDate")) Examples.history_only = None
  /\ map entry_ymd (history_entries Examples.history_only)
     = [Some (2024, 3, 5); Some (2024, 3, 1)]
  /\ earliest_history_date (U:=latin1_tables) Examples.history_only = py "2024 Mar 01"
  /\ _extract_pubdate_display (U:=latin1_tables) Examples.history_only = py "2024 Mar 05".
Proof. repeat split; vm_compute; reflexivity. Qed.

(** C7, amended.  For an article in which the first four steps fail (no
    article date is electronic, the first article date, if any, renders
    empty, the issue's year, month and day render empty, and the issue has
    no free-text date), the rendered date is that of the first history entry
    found when the statuses are tried in the fixed order "pubmed", "entrez",
    "medline": the "pubmed" entry if there is one, else the "entrez" entry,
    else the "medline" entry, and the empty string without any of them.  The
    dates of the entries are not compared with each other. *)
Theorem history_entries_in_fixed_order {U : UnicodeData} (art : Element) :
  List.find is_electronic (findall article_dates art) = None ->
  (forall ad, find article_dates art = Some ad -> fmt_date_of ad = []) ->
  _fmt_date (findtext (issue_pubdate (py "Year")) art)
            (findtext (issue_pubdate (py "Month")) art)
            (findtext (issue_pubdate (py "Day")) art) = [] ->
  strip (or_empty (findtext (issue_pubdate (py "MedlineDate")) art)) = [] ->
  (forall ppd,
      find (history_path (py "pubmed")) art = Some ppd ->
      _extract_pubdate_display art = fmt_date_of ppd)
  /\ (forall ppd,
         find (history_path (py "pubmed")) art = None ->
         find (history_path (py "entrez")) art = Some ppd ->
         _extract_pubdate_display art = fmt_date_of ppd)
  /\ (forall ppd,
         find (history_path (py "pubmed")) art = None ->
         find (history_path (py "entrez")) art = None ->
         find (history_path (py "medline")) art = Some ppd ->
         _extract_pubdate_display art = fmt_date_of ppd)
  /\ (find (history_path (py "pubmed")) art = None ->
      find (history_path (py "entrez")) art = None ->
      find (history_path (py "medline")) art = None ->
      _extract_pubdate_display art = []).
Proof.
  intros H1 H2 H3 H4.
  rewrite (history_is_last_resort art H1 H2 H3 H4).
  unfold history_statuses, history_date.
  split; [|split; [|split]].
  - intros ppd ->. reflexivity.
  - intros ppd -> ->. reflexivity.
  - intros ppd -> -> ->. reflexivity.
  - intros -> -> ->. reflexivity.
Qed.

(** The theorem at work: a history whose "entrez" entry stands first and is
    dated 2024-03-01, and whose "pubmed" entry is dated 2024-03-05.  The
    "pubmed" entry is the one rendered. *)
Lemma history_entries_in_fixed_order_witness :
  option_map (fmt_date_of (U:=latin1_tables))
             (find (history_path (py "entrez")) Examples.history_only)
  = Some (py "2024 Mar 01")
  /\ _extract_pubdate_display (U:=latin1_tables) Examples.history_only = py "2024 Mar 05".
Proof.
  split; [vm_compute; reflexivity|].
  assert (H1 : List.find (is_electronic (U:=latin1_tables))
                         (findall article_dates Examples.history_only) = None)
    by (vm_compute; reflexivity).
  assert (H2 : forall ad, find article_dates Examples.history_only = Some ad ->
                          fmt_date_of (U:=latin1_tables) ad = [])
    by (intros ad H; vm_compute in H; discriminate).
  assert (H3 : _fmt_date (U:=latin1_tables)
                 (findtext (issue_pubdate (py "Year")) Examples.history_only)
                 (findtext (issue_pubdate (py "Month")) Examples.history_only)
                 (findtext (issue_pubdate (py "Day")) Examples.history_only) = [])
    by (vm_compute; reflexivity).
  assert (H4 : strip (or_empty (findtext (issue_pubdate (py "MedlineDate"))
                                         Examples.history_only)) = [])
    by (vm_compute; reflexivity).
  rewrite (proj1 (@history_entries_in_fixed_order latin1_tables Examples.history_only
                    H1 H2 H3 H4)
                 (Examples.node_at "PubMedPubDate" "PubStatus" "pubmed"
                                   (Examples.ymd "2024" "3" "5")));
    vm_compute; reflexivity.
Defined.

Lemma is_electronic_iff {U : UnicodeData} (e : Element) :
  is_electronic e = true <-> electronic e.
Proof. unfold is_electronic, electronic, date_type. apply str_eqb_eq. Qed.

(** The first entry in document order whose date-type is electronic is the
    one that [_extract_pubdate_display] finds. *)
Lemma find_first_electronic {U : UnicodeData} (before after : list Element) (ad : Element) :
  Forall (fun e => ~ electronic e) before -> electronic ad ->
  List.find is_electronic (before ++ ad :: after) = Some ad.
Proof.
  intros Hb Ha. induction Hb as [|e r He Hr IH]; cbn [app List.find].
  - apply is_electronic_iff in Ha. now rewrite Ha.
  - destruct (is_electronic e) eqn:E; [|exact IH].
    apply is_electronic_iff in E. contradiction.
Qed.

(** C8. An article whose electronic article date (the first [ArticleDate]
    entry whose date-type is "electronic", in any case of the letters)
    carries the year 2024, the month "03" and the day "05" renders
    ["2024 Mar 05"], whatever the issue date is and whatever article dates
    of other types stand before it: the electronic date is taken before
    every other source, the month becomes "Mar" (also from "3", "Mar" or
    "March"), and the day has two digits (a day "5" is padded to "05"). *)
Theorem electronic_date_wins {U : UnicodeData}
  (art ad : Element) (before after : list Element) (m d : pystr) :
  findall article_dates art = before ++ ad :: after ->
  Forall (fun e => ~ electronic e) before ->
  electronic ad ->
  date_fields ad = (py "2024", m, d) ->
  In m [py "03"; py "3"; py "Mar"; py "March"] ->
  In d [py "05"; py "5"] ->
  _extract_pubdate_display art = py "2024 Mar 05".
Proof.
  intros Hf Hb Ha Hd Hm Hday.
  rewrite (@electronic_entry_decides U art ad)
    by (rewrite Hf; now apply find_first_electronic).
  unfold date_fields in Hd. injection Hd as Hy Hmo Hda.
  unfold fmt_date_of, _fmt_date. rewrite Hy, Hmo, Hda.
  cbn [In] in Hm, Hday.
  destruct Hm as [<-|[<-|[<-|[<-|[]]]]]; destruct Hday as [<-|[<-|[]]];
    vm_compute; reflexivity.
Qed.

(** The theorem at work: a print date stands before the electronic one, and
    the issue date is 2024 Feb.  The article parsed from its XML text
    renders the same date. *)
Lemma electronic_date_wins_witness :
  findall article_dates Examples.print_then_electronic
  = [Examples.node_at "ArticleDate" "DateType" "Print" (Examples.ymd "2024" "01" "01")]
      ++ Examples.node_at "ArticleDate" "DateType" "Electronic"
                          (Examples.ymd "2024" "03" "05")
      :: []
  /\ _fmt_date (U:=latin1_tables)
       (findtext (issue_pubdate (py "Year")) Examples.print_then_electronic)
       (findtext (issue_pubdate (py "Month")) Examples.print_then_electronic)
       (findtext (issue_pubdate (py "Day")) Examples.print_then_electronic)
     = py "2024 Feb"
  /\ _extract_pubdate_display (U:=latin1_tables) Examples.print_then_electronic
     = py "2024 Mar 05"
  /\ option_map (map pubdate)
                (match parse_records (U:=latin1_tables) Xml.fromstring
                         Examples.one_article_xml with
                 | Ok rs => Some rs
                 | Raise _ => None
                 end)
     = Some [py "2024 Mar 05"].
Proof.
  assert (H1 : findall article_dates Examples.print_then_electronic
               = [Examples.node_at "ArticleDate" "DateType" "Print"
                                   (Examples.ymd "2024" "01" "01")]
                   ++ Examples.node_at "ArticleDate" "DateType" "Electronic"
                                       (Examples.ymd "2024" "03" "05") :: [])
    by (vm_compute; reflexivity).
  assert (H2 : Forall (fun e => ~ electronic (U:=latin1_tables) e)
                      [Examples.node_at "ArticleDate" "DateType" "Print"
                                        (Examples.ymd "2024" "01" "01")])
    by (constructor; [intros H; vm_compute in H; discriminate H | constructor]).
  assert (H3 : electronic (U:=latin1_tables)
                 (Examples.node_at "ArticleDate" "DateType" "Electronic"
                                   (Examples.ymd "2024" "03" "05")))
    by (vm_compute; reflexivity).
  assert (H4 : date_fields (Examples.node_at "ArticleDate" "DateType" "Electronic"
                                             (Examples.ymd "2024" "03" "05"))
               = (py "2024", py "03", py "05"))
    by (vm_compute; reflexivity).
  assert (H5 : In (py "03") [py "03"; py "3"; py "Mar"; py "March"]) by (left; reflexivity).
  assert (H6 : In (py "05") [py "05"; py "5"]) by (left; reflexivity).
  split; [exact H1|]. split; [vm_compute; reflexivity|].
  split; [|vm_compute; reflexivity].
  exact (@electronic_date_wins latin1_tables Examples.print_then_electronic _ _ _ _ _
           H1 H2 H3 H4 H5 H6).
Defined.

(** ** The matcher *)

Section MatcherFacts.
Context {U : UnicodeData}.
Variable R : Type.

Lemma many_consumes (p : N -> bool) (k : nat -> pystr -> option R)
      (s : pystr) (pos : nat) (x : R) :
  many p pos s k = Some x ->
  exists a t, s = a ++ t /\ k (pos + List.length a)%nat t = Some x.
Proof.
  revert pos. induction s as [|c r IH]; intros pos H; cbn [many] in H.
  - exists [], []. now rewrite Nat.add_0_r.
  - destruct (p c).
    + destruct (many p (S pos) r k) as [y|] eqn:E.
      * injection H as ->. destruct (IH _ E) as (a & t & -> & Hk).
        exists (c :: a), t. split; auto. cbn [List.length].
        now rewrite Nat.add_succ_r.
      * exists [], (c :: r). now rewrite Nat.add_0_r.
    + exists [], (c :: r). now rewrite Nat.add_0_r.
Qed.

(** A match consumes a prefix of the text: the continuation is entered
    with what is left, at the position after the prefix. *)
Lemma rmatch_consumes (r : regex) :
  forall (pos : nat) (s : pystr) (g : list (nat * pystr))
         (k : nat -> pystr -> list (nat * pystr) -> option R) (x : R),
    rmatch r pos s g k = Some x ->
    exists a t g', s = a ++ t /\ k (pos + List.length a)%nat t g' = Some x.
Proof.
  induction r as [|c|c|cs|cs|r1 IH1 r2 IH2|r1 IH1 r2 IH2| | |n r IH];
    intros pos s g k x H; cbn [rmatch] in H.
  - exists [], s, g. now rewrite Nat.add_0_r.
  - destruct s as [|y s]; [discriminate|]. destruct (y =? c); [|discriminate].
    exists [y], s, g. cbn [List.length]. now rewrite Nat.add_1_r.
  - destruct s as [|y s]; [discriminate|]. destruct (ieq y c); [|discriminate].
    exists [y], s, g. cbn [List.length]. now rewrite Nat.add_1_r.
  - destruct s as [|y s]; [discriminate|]. destruct (in_cset cs y); [|discriminate].
    exists [y], s, g. cbn [List.length]. now rewrite Nat.add_1_r.
  - destruct s as [|y s]; [discriminate|]. destruct (in_cset cs y); [|discriminate].
    apply many_consumes in H. destruct H as (a & t & -> & Hk).
    exists (y :: a), t, g. split; auto. cbn [List.length].
    now rewrite Nat.add_succ_r.
  - apply IH1 in H. destruct H as (a1 & t1 & g1 & -> & H).
    apply IH2 in H. destruct H as (a2 & t2 & g2 & -> & H).
    exists (a1 ++ a2), t2, g2. rewrite <- app_assoc. split; auto.
    now rewrite length_app, Nat.add_assoc.
  - destruct (rmatch r1 pos s g k) as [y|] eqn:E.
    + injection H as ->. eauto.
    + eauto.
  - destruct (Nat.eqb pos 0); [|discriminate].
    exists [], s, g. now rewrite Nat.add_0_r.
  - exists [], s, g. rewrite Nat.add_0_r.
    destruct s as [|c [|d s]]; auto; try discriminate.
    destruct (c =? 10); auto; discriminate.
  - apply IH in H. destruct H as (a & t & g' & -> & H). eauto.
Qed.
End MatcherFacts.

Section FuelFacts.
Context {U : UnicodeData}.

Lemma match_at_consumes (r : regex) (pos : nat) (s t : pystr) (m : rmatch_result) :
  match_at r pos s = Some (m, t) ->
  exists a, s = a ++ t /\ m_start m = pos /\ m_end m = (pos + List.length a)%nat.
Proof.
  unfold match_at. intros H. apply rmatch_consumes in H.
  destruct H as (a & t' & g' & -> & [= <- <-]). exists a. auto.
Qed.

(** [re_sub] never runs short of fuel: any fuel from the length of the text
    on gives the same result. *)
Lemma sub_from_fuel (r : regex) (repl : pystr) (n m : nat) :
  forall (s : pystr) (pos : nat),
    (List.length s <= n)%nat -> (List.length s <= m)%nat ->
    sub_from n r repl pos s = sub_from m r repl pos s.
Proof.
  revert m. induction n as [|n IH]; intros m s pos Hn Hm.
  - destruct s; [|cbn [List.length] in Hn; lia]. now destruct m.
  - destruct s as [|c s]; [now destruct m|].
    destruct m as [|m]; [cbn [List.length] in Hm; lia|].
    cbn [sub_from]. cbn [List.length] in Hn, Hm.
    destruct (match_at r pos (c :: s)) as [[mo t]|] eqn:E.
    + destruct (pos <? m_end mo)%nat eqn:L.
      * f_equal. apply match_at_consumes in E. destruct E as (a & Ea & _ & Ee).
        apply Nat.ltb_lt in L.
        assert (List.length (c :: s) = (List.length a + List.length t)%nat)
          by (rewrite Ea; apply length_app).
        cbn [List.length] in H. apply IH; lia.
      * f_equal. apply IH; lia.
    + f_equal. apply IH; lia.
Qed.

Lemma split_from_fuel (r : regex) (n m : nat) :
  forall (s cur : pystr) (pos : nat),
    (List.length s <= n)%nat -> (List.length s <= m)%nat ->
    split_from n r pos s cur = split_from m r pos s cur.
Proof.
  revert m. induction n as [|n IH]; intros m s cur pos Hn Hm.
  - destruct s; [|cbn [List.length] in Hn; lia].
    destruct m; cbn [split_from]; now rewrite ?app_nil_r.
  - destruct s as [|c s]; [destruct m; cbn [split_from]; now rewrite ?app_nil_r|].
    destruct m as [|m]; [cbn [List.length] in Hm; lia|].
    cbn [split_from]. cbn [List.length] in Hn, Hm.
    destruct (match_at r pos (c :: s)) as [[mo t]|] eqn:E.
    + destruct (pos <? m_end mo)%nat eqn:L.
      * f_equal. apply match_at_consumes in E. destruct E as (a & Ea & _ & Ee).
        apply Nat.ltb_lt in L.
        assert (List.length (c :: s) = (List.length a + List.length t)%nat)
          by (rewrite Ea; apply length_app).
        cbn [List.length] in H. apply IH; lia.
      * apply IH; lia.
    + apply IH; lia.
Qed.
(** The fuel that [re_sub] and [re_split] start with is enough. *)
Lemma re_sub_fuel (r : regex) (repl s : pystr) (n : nat) :
  (List.length s <= n)%nat -> sub_from n r repl 0 s = re_sub r repl s.
Proof. intros H. unfold re_sub. now apply sub_from_fuel. Qed.

Lemma re_split_fuel (r : regex) (s : pystr) (n : nat) :
  (List.length s <= n)%nat -> split_from n r 0 s [] = re_split r s.
Proof. intros H. unfold re_split. now apply split_from_fuel. Qed.
End FuelFacts.

(** ** Country inference: the email tier *)

Section ManyFacts.
Context {U : UnicodeData}.
Variable R : Type.
Variable p : N -> bool.
Variable k : nat -> pystr -> option R.

Lemma many_stop (pos : nat) (s : pystr) :
  match s with [] => true | c :: _ => negb (p c) end = true ->
  many p pos s k = k pos s.
Proof.
  destruct s as [|c r]; simpl; auto.
  intros H. apply negb_true_iff in H. now rewrite H.
Qed.

Lemma many_prefix_some (a t : pystr) (pos : nat) (x : R) :
  forallb p a = true ->
  many p (pos + List.length a) t k = Some x ->
  many p pos (a ++ t) k = Some x.
Proof.
  revert pos. induction a as [|c a IH]; intros pos Ha H; simpl in *.
  - now rewrite Nat.add_0_r in H.
  - apply andb_true_iff in Ha. destruct Ha as [Hc Ha]. rewrite Hc.
    rewrite (IH (S pos) Ha); auto.
    replace (S pos + List.length a)%nat with (pos + S (List.length a))%nat by lia.
    exact H.
Qed.

Lemma many_none (s : pystr) (pos : nat) :
  (forall a t, s = a ++ t -> forallb p a = true ->
               k (pos + List.length a) t = None) ->
  many p pos s k = None.
Proof.
  revert pos. induction s as [|c r IH]; intros pos H; simpl.
  - specialize (H [] [] eq_refl eq_refl). simpl in H. now rewrite Nat.add_0_r in H.
  - assert (H0 : k pos (c :: r) = None).
    { specialize (H [] (c :: r) eq_refl eq_refl). simpl in H.
      now rewrite Nat.add_0_r in H. }
    destruct (p c) eqn:Hc; auto.
    rewrite IH; auto.
    intros a t -> Ha. specialize (H (c :: a) t eq_refl).
    simpl in H. rewrite Hc, Ha in H.
    replace (S pos + List.length a)%nat with (pos + S (List.length a))%nat by lia.
    now apply H.
Qed.
End ManyFacts.

Section EmailFacts.
Context {U : UnicodeData}.

Lemma dot_is_domain_char : in_cset domain_cs 46 = true.
Proof. vm_compute. reflexivity. Qed.

Lemma word_is_not_dot (w : N) : is_word w = true -> (w =? 46) = false.
Proof.
  intros H. destruct (N.eqb_spec w 46) as [->|]; [|reflexivity].
  vm_compute in H. discriminate.
Qed.

Lemma word_is_domain_char (w : N) : is_word w = true -> in_cset domain_cs w = true.
Proof. intros H. unfold in_cset, domain_cs. simpl. now rewrite H. Qed.

Lemma in_word_set (w : N) : in_cset [Word] w = is_word w.
Proof. unfold in_cset. simpl. now rewrite orb_false_r. Qed.

Lemma forallb_word_set (s : pystr) : forallb (in_cset [Word]) s = forallb is_word s.
Proof. induction s as [|c s IH]; cbn [forallb]; auto. now rewrite in_word_set, IH. Qed.

Lemma no_more_labels_cons (c : N) (r : pystr) :
  no_more_labels (c :: r)
  = if in_cset domain_cs c then
      (if c =? 46
       then match r with d :: _ => negb (is_word d) | [] => true end
       else true) && no_more_labels r
    else true.
Proof. reflexivity. Qed.

Lemma no_label_after (post a t : pystr) :
  no_more_labels post = true -> post = a ++ t ->
  forallb (in_cset domain_cs) a = true -> dot_then_word t = false.
Proof.
  revert post. induction a as [|c a IH]; intros post H E Ha; simpl in E; subst post.
  - destruct t as [|c [|w r]]; auto. unfold dot_then_word.
    destruct (N.eqb_spec c 46) as [->|]; auto.
    rewrite no_more_labels_cons, dot_is_domain_char in H.
    change (46 =? 46) with true in H. cbv iota in H.
    apply andb_true_iff in H. destruct H as [H _].
    apply negb_true_iff in H. now rewrite H.
  - cbn [forallb] in Ha. apply andb_true_iff in Ha. destruct Ha as [Hc Ha].
    rewrite no_more_labels_cons, Hc in H. apply andb_true_iff in H. destruct H as [_ H].
    eapply IH; eauto.
Qed.

Lemma no_label_in_tld (tld post a t : pystr) :
  forallb is_word tld = true -> address_ends post = true ->
  tld ++ post = a ++ t -> forallb (in_cset domain_cs) a = true ->
  dot_then_word t = false.
Proof.
  intros Ht Hp. unfold address_ends in Hp. apply andb_true_iff in Hp.
  destruct Hp as [_ Hp]. revert a.
  induction tld as [|w tld IH]; intros a E Ha; simpl in E.
  - eapply no_label_after; eauto.
  - cbn [forallb] in Ht. apply andb_true_iff in Ht. destruct Ht as [Hw Ht].
    destruct a as [|c a]; simpl in E.
    + subst t. simpl. destruct (tld ++ post); auto.
      now rewrite (word_is_not_dot _ Hw).
    + injection E as -> E. cbn [forallb] in Ha. apply andb_true_iff in Ha.
      eapply IH; eauto. tauto.
Qed.
End EmailFacts.

Section EmailMatch.
Context {U : UnicodeData}.

Lemma after_domain_eq (start p' : nat) (t : pystr) :
  after_domain start p' t
  = match t with
    | c :: w :: r =>
        if (c =? 46) && is_word w
        then many (in_cset [Word]) (S (S p')) r
                  (fun p3 t3 =>
                     Some (MatchObj start p3 [(1%nat, firstn (p3 - S p') (w :: r))], t3))
        else None
    | _ => None
    end.
Proof.
  unfold after_domain. destruct t as [|c [|w r]]; cbn [rmatch]; auto.
  - now destruct (c =? 46).
  - destruct (c =? 46); auto. rewrite in_word_set. now destruct (is_word w).
Qed.

Lemma after_domain_none (start p' : nat) (t : pystr) :
  dot_then_word t = false -> after_domain start p' t = None.
Proof.
  rewrite after_domain_eq. unfold dot_then_word.
  destruct t as [|c [|w r]]; auto. now intros ->.
Qed.

Lemma after_domain_tld (start p' : nat) (tld post : pystr) :
  tld <> [] -> forallb is_word tld = true ->
  match post with [] => true | c :: _ => negb (is_word c) end = true ->
  after_domain start p' (46 :: tld ++ post)
  = Some (MatchObj start (S p' + List.length tld) [(1%nat, tld)], post).
Proof.
  intros Hne Hw Hp. destruct tld as [|w tld]; [congruence|].
  cbn [forallb] in Hw. apply andb_true_iff in Hw. destruct Hw as [Hw Hws].
  rewrite after_domain_eq. cbn [app]. rewrite Hw. change (46 =? 46) with true.
  cbn [andb].
  erewrite many_prefix_some.
  - reflexivity.
  - now rewrite forallb_word_set.
  - rewrite many_stop.
    + replace (S (S p') + List.length tld - S p')%nat with (S (List.length tld)) by lia.
      cbn [firstn]. rewrite firstn_app, Nat.sub_diag, firstn_all. cbn [firstn].
      rewrite app_nil_r. cbn [List.length]. do 3 f_equal. lia.
    + destruct post as [|c post]; auto. now rewrite in_word_set.
Qed.

Lemma match_at_email_eq (pos : nat) (s : pystr) :
  match_at email_re pos s
  = match s with
    | c :: h :: r =>
        if (c =? 64) && in_cset domain_cs h
        then many (in_cset domain_cs) (S (S pos)) r (after_domain pos)
        else None
    | _ => None
    end.
Proof.
  unfold match_at, email_re. destruct s as [|c [|h r]]; cbn [rmatch]; auto.
  - now destruct (c =? 64).
  - destruct (c =? 64); auto.
Qed.

Lemma match_at_email (pos : nat) (host tld post : pystr) :
  host <> [] -> forallb (in_cset domain_cs) host = true ->
  tld <> [] -> forallb is_word tld = true ->
  address_ends post = true ->
  match_at email_re pos (64 :: host ++ 46 :: tld ++ post)
  = Some (MatchObj pos (S (S pos) + List.length host + List.length tld) [(1%nat, tld)],
          post).
Proof.
  intros Hh Hd Ht Hw Hp. destruct host as [|h host]; [congruence|].
  cbn [forallb] in Hd. apply andb_true_iff in Hd. destruct Hd as [Hd0 Hd].
  rewrite match_at_email_eq. cbn [app]. rewrite Hd0. change (64 =? 64) with true.
  cbn [andb].
  assert (Hends : match post with [] => true | c :: _ => negb (is_word c) end = true).
  { unfold address_ends in Hp. now apply andb_true_iff in Hp. }
  apply many_prefix_some; auto.
  cbn [many]. rewrite dot_is_domain_char.
  rewrite many_none.
  - rewrite after_domain_tld by auto. do 3 f_equal. cbn [List.length]. lia.
  - intros a t E Ha. apply after_domain_none.
    eapply no_label_in_tld; eauto.
Qed.

Lemma search_from_hit (r : regex) (pos : nat) (s t : pystr) (m : rmatch_result) :
  match_at r pos s = Some (m, t) -> search_from r pos s = Some m.
Proof. intros H. destruct s; cbn [search_from]; now rewrite H. Qed.

(** What [many] hands to its continuation is the text after a run of
    characters of [p]. *)
Lemma many_reads (R : Type) (p : N -> bool) (k : nat -> pystr -> option R)
      (s : pystr) (pos : nat) (x : R) :
  many p pos s k = Some x ->
  exists a t, s = a ++ t /\ forallb p a = true /\ k (pos + List.length a)%nat t = Some x.
Proof.
  revert pos. induction s as [|c r IH]; intros pos H; cbn [many] in H.
  - exists [], []. rewrite Nat.add_0_r. auto.
  - destruct (p c) eqn:Hc.
    + destruct (many p (S pos) r k) as [y|] eqn:E.
      * injection H as ->. destruct (IH _ E) as (a & t & -> & Ha & Hk).
        exists (c :: a), t. split; [reflexivity|]. split.
        -- cbn [forallb]. now rewrite Hc, Ha.
        -- cbn [List.length]. now rewrite Nat.add_succ_r.
      * exists [], (c :: r). rewrite Nat.add_0_r. auto.
    + exists [], (c :: r). rewrite Nat.add_0_r. auto.
Qed.

(** Where [email_re] matches, an address starts. *)
Lemma match_at_email_starts (pos : nat) (s : pystr) (x : rmatch_result * pystr) :
  match_at email_re pos s = Some x -> starts_address s.
Proof.
  rewrite match_at_email_eq. destruct s as [|c [|h r]]; try discriminate.
  destruct (N.eqb_spec c 64) as [->|]; [|discriminate]. cbn [andb].
  destruct (in_cset domain_cs h) eqn:Hh; [|discriminate].
  intros H. apply many_reads in H. destruct H as (a & t & -> & Ha & H).
  rewrite after_domain_eq in H. destruct t as [|d [|w t]]; try discriminate.
  destruct (N.eqb_spec d 46) as [->|]; [|discriminate]. cbn [andb] in H.
  destruct (is_word w) eqn:Hw; [|discriminate].
  apply many_reads in H. destruct H as (b & t' & -> & Hb & _).
  exists (h :: a), (w :: b), t'. split.
  - reflexivity.
  - split; [discriminate|]. split; [cbn [forallb]; now rewrite Hh, Ha|].
    split; [discriminate|]. cbn [forallb]. rewrite Hw. now rewrite <- forallb_word_set.
Qed.

(** The search passes over a text in which no address starts. *)
Lemma search_skips_clear (pre rest : pystr) (pos : nat) :
  no_address_before pre rest ->
  search_from email_re pos (pre ++ rest)
  = search_from email_re (pos + List.length pre) rest.
Proof.
  revert pos. induction pre as [|c pre IH]; intros pos H; cbn [app List.length].
  - now rewrite Nat.add_0_r.
  - cbn [no_address_before] in H. destruct H as [Hc H]. cbn [search_from].
    destruct (match_at email_re pos (c :: pre ++ rest)) as [[m t]|] eqn:E.
    + exfalso. apply Hc. apply (match_at_email_starts _ _ E).
    + rewrite IH by exact H. f_equal. lia.
Qed.

Lemma dot_in_domain_app (a t : pystr) :
  forallb (in_cset domain_cs) a = true -> dot_in_domain (a ++ 46 :: t) = true.
Proof.
  induction a as [|c a IH]; intros H; cbn [app dot_in_domain].
  - reflexivity.
  - cbn [forallb] in H. apply andb_true_iff in H. destruct H as [Hc Ha].
    rewrite Hc, (IH Ha). apply orb_true_r.
Qed.

Lemma starts_address_may (s : pystr) : starts_address s -> may_start_address s = true.
Proof.
  intros (host & tld & post & -> & Hh & Hd & _).
  destruct host as [|h host]; [congruence|]. cbn [app may_start_address].
  cbn [forallb] in Hd. apply andb_true_iff in Hd. destruct Hd as [Hh0 Hd].
  change (64 =? 64) with true. rewrite Hh0. cbn [andb].
  now apply dot_in_domain_app.
Qed.

(** The first match of [email_re] in a text whose first address is
    [host.tld]: the group is the top-level domain. *)
Lemma search_reads_tld (aff pre host tld post : pystr) :
  email_at aff pre host tld post ->
  no_address_before pre ([64] ++ host ++ [46] ++ tld ++ post) ->
  exists m, re_search email_re aff = Some m /\ group 1 m = tld.
Proof.
  intros (E & Hh & Hd & Ht & Hw & Hp) Hpre. subst aff.
  unfold re_search. rewrite search_skips_clear by exact Hpre.
  cbn [app]. eexists. split.
  - eapply search_from_hit. now apply match_at_email.
  - reflexivity.
Qed.

End EmailMatch.

(** Counterexample to C2 as stated.  The text contains the address
    [b@y.jp], whose top-level domain is in the table, but an address with an
    unknown top-level domain stands before it: only the first is read, and
    no country is inferred. *)
Lemma later_address_is_not_read :
  contains_email (U:=latin1_tables) (py "a@x.com, b@y.jp") (py "jp")
  /\ dict_get (py "jp") TLD_COUNTRY_MAP = Some (py "Japan")
  /\ _extract_country_from_aff (U:=latin1_tables) (py "a@x.com, b@y.jp") = [].
Proof.
  split; [|split; vm_compute; reflexivity].
  exists (py "a@x.com, b"), (py "y"), [].
  unfold email_at. repeat split; try (vm_compute; reflexivity); vm_compute; discriminate.
Qed.

(** C2, amended.  When the first address of the affiliation (the first
    [@] that is followed by a domain of word characters, dots and hyphens,
    a dot, and a top-level domain of word characters after which the domain
    does not go on) has a top-level domain that, in lower case, is a key of
    the table, country inference returns the country the table gives,
    whatever else the text holds; an [@] before it that starts no address
    does not count.  Only that first address is read: when its top-level
    domain is not in the table, the tiers after the email tier decide, also
    when a later address has a top-level domain of the table. *)
Theorem first_address_decides {U : UnicodeData} (aff pre host tld post : pystr) :
  email_at aff pre host tld post ->
  no_address_before pre ([64] ++ host ++ [46] ++ tld ++ post) ->
  (forall country,
      dict_get (lower tld) TLD_COUNTRY_MAP = Some country ->
      _extract_country_from_aff aff = country)
  /\ (dict_get (lower tld) TLD_COUNTRY_MAP = None ->
      _extract_country_from_aff aff = after_email_tier aff).
Proof.
  intros He Hpre.
  destruct (@search_reads_tld U aff pre host tld post He Hpre) as (m & Hm & Hg).
  assert (Hne : nonempty aff = true).
  { destruct He as (-> & _). now destruct pre. }
  unfold _extract_country_from_aff. rewrite Hne. cbn [negb]. cbv zeta.
  rewrite Hm, Hg. split.
  - intros country Hc. now rewrite Hc.
  - intros Hc. rewrite Hc. reflexivity.
Qed.

(** The theorem at work: the first [@] starts no address (no dot follows
    its domain), the second one starts an address in [.jp]. *)
Lemma first_address_decides_witness :
  email_at (U:=latin1_tables) (py "a@b, c@d.jp") (py "a@b, c") (py "d") (py "jp") []
  /\ no_address_before (U:=latin1_tables) (py "a@b, c") (py "@d.jp")
  /\ _extract_country_from_aff (U:=latin1_tables) (py "a@b, c@d.jp") = py "Japan".
Proof.
  assert (H1 : email_at (U:=latin1_tables) (py "a@b, c@d.jp") (py "a@b, c") (py "d")
                        (py "jp") []).
  { unfold email_at. repeat split; try (vm_compute; reflexivity); vm_compute; discriminate. }
  assert (H2 : no_address_before (U:=latin1_tables) (py "a@b, c") (py "@d.jp")).
  { change (py "a@b, c") with [97; 64; 98; 44; 32; 99].
    cbn [no_address_before app].
    repeat (split; [intros S; apply starts_address_may in S; vm_compute in S;
                    discriminate S|]).
    exact I. }
  split; [exact H1|]. split; [exact H2|].
  apply (proj1 (@first_address_decides latin1_tables (py "a@b, c@d.jp") (py "a@b, c")
                  (py "d") (py "jp") [] H1 H2) (py "Japan")).
  vm_compute. reflexivity.
Defined.

(** ** Further examples of the specification *)

(** The affiliation of the specification's example ends with an alias of
    South Korea: the trailing-token tier answers. *)
Example seoul_is_south_korea (U : UnicodeData) :
  _extract_country_from_aff
    (py "Dept of Oncology, Seoul National University, Seoul, Republic of Korea")
  = py "South Korea".
Proof. vm_compute. reflexivity. Qed.

(** The month given as "3", "03" or "Mar" renders the same date. *)
Example month_spellings_agree (U : UnicodeData) (y d : option pystr) :
  _fmt_date y (Some (py "3")) d = _fmt_date y (Some (py "Mar")) d
  /\ _fmt_date y (Some (py "03")) d = _fmt_date y (Some (py "Mar")) d.
Proof. split; reflexivity. Qed.

(* ================================================================== *)
(** * Further properties of the program *)
(* ================================================================== *)

(** ** Searching several queries *)

Section SearchFacts.
Variable pubmed_esearch : pystr -> list pystr.

Lemma existsb_str_eqb (x : pystr) (l : list pystr) :
  existsb (str_eqb x) l = true <-> In x l.
Proof.
  rewrite existsb_exists. split.
  - intros (y & Hy & E). apply str_eqb_eq in E. now subst.
  - intros H. exists x. split; auto. apply str_eqb_refl.
Qed.

Lemma add_pmid_inv (st : list pystr * list pystr) (pmid : pystr) :
  search_inv st ->
  search_inv (add_pmid st pmid)
  /\ forall x, In x (fst (add_pmid st pmid)) <-> In x (fst st) \/ x = pmid.
Proof.
  intros [ND Hs]. unfold add_pmid.
  destruct (existsb (str_eqb pmid) (snd st)) eqn:E.
  - split; [now split|]. intros x. split; auto.
    intros [H | ->]; auto. apply Hs. now apply existsb_str_eqb.
  - assert (Hn : ~ In pmid (fst st)).
    { intros H. apply Hs in H. apply existsb_str_eqb in H. congruence. }
    cbn [fst snd]. split; [split|].
    + apply NoDup_rev in ND. rewrite <- (rev_involutive (fst st ++ [pmid])).
      apply NoDup_rev. rewrite rev_app_distr. cbn. constructor; auto.
      now rewrite <- in_rev.
    + intros x. cbn. rewrite in_app_iff, Hs. cbn. intuition.
    + intros x. rewrite in_app_iff. cbn. intuition.
Qed.

Lemma add_ids_inv (ids : list pystr) (st : list pystr * list pystr) :
  search_inv st ->
  search_inv (fold_left add_pmid ids st)
  /\ forall x, In x (fst (fold_left add_pmid ids st)) <-> In x (fst st) \/ In x ids.
Proof.
  revert st. induction ids as [|id ids IH]; intros st H; cbn [fold_left].
  - split; auto. intros x. cbn. tauto.
  - destruct (@add_pmid_inv st id H) as [H1 H2].
    destruct (IH _ H1) as [H3 H4]. split; auto.
    intros x. rewrite H4, H2. cbn. intuition.
Qed.

Lemma search_loop_inv (queries : list pystr) (st : list pystr * list pystr) :
  search_inv st ->
  search_inv (fold_left (fun st q => fold_left add_pmid (pubmed_esearch q) st) queries st)
  /\ forall x,
       In x (fst (fold_left (fun st q => fold_left add_pmid (pubmed_esearch q) st)
                            queries st))
       <-> In x (fst st) \/ exists q, In q queries /\ In x (pubmed_esearch q).
Proof.
  revert st. induction queries as [|q qs IH]; intros st H; cbn [fold_left].
  - split; auto. intros x. split; auto. intros [?|(q & [] & _)]; auto.
  - destruct (@add_ids_inv (pubmed_esearch q) st H) as [H1 H2].
    destruct (IH _ H1) as [H3 H4]. split; auto.
    intros x. rewrite H4, H2. split.
    + intros [[?|?]|(q' & ? & ?)]; eauto.
      * right. exists q. split; auto. now left.
      * right. exists q'. split; auto. now right.
    + intros [?|(q' & [<-|?] & ?)]; eauto.
Qed.

(** X1. [pubmed_multi_esearch_all] returns the union of what the queries
    return: an identifier is in the result exactly when some query returned
    it, and no identifier is in it twice, however many queries returned
    it. *)
Theorem multi_esearch_is_a_union (queries : list pystr) :
  NoDup (pubmed_multi_esearch_all pubmed_esearch queries)
  /\ forall pmid,
       In pmid (pubmed_multi_esearch_all pubmed_esearch queries)
       <-> exists q, In q queries /\ In pmid (pubmed_esearch q).
Proof.
  unfold pubmed_multi_esearch_all.
  assert (H0 : search_inv (@nil pystr, @nil pystr)).
  { split; [constructor|]. intros x. cbn. tauto. }
  destruct (@search_loop_inv queries _ H0) as [[ND _] H]. split; auto.
  intros x. rewrite H. cbn. intuition.
Qed.
End SearchFacts.

(** ** Publication types *)

Lemma distinct_spec (ts seen : list pystr) :
  NoDup (distinct seen ts)
  /\ forall x, In x (distinct seen ts) <-> In x ts /\ x <> [] /\ ~ In x seen.
Proof.
  revert seen. induction ts as [|t ts IH]; intros seen; cbn [distinct].
  - split; [constructor|]. intros x. cbn. tauto.
  - destruct (nonempty t && negb (existsb (str_eqb t) seen)) eqn:E.
    + apply andb_true_iff in E. destruct E as [Hne Hs].
      apply nonempty_true in Hne. apply negb_true_iff in Hs.
      assert (Hns : ~ In t seen).
      { intros H. apply existsb_str_eqb in H. congruence. }
      destruct (IH (t :: seen)) as [ND H]. split.
      * constructor; auto. rewrite H. cbn. tauto.
      * intros x. cbn. rewrite H. cbn. split.
        -- intros [<-|(? & ? & ?)]; auto. tauto.
        -- intros ([<-|?] & ? & ?); auto.
           destruct (list_eq_dec N.eq_dec t x); auto. right. tauto.
    + destruct (IH seen) as [ND H]. split; auto.
      intros x. rewrite H. cbn. split; [tauto|].
      intros ([<-|?] & Hx & Hs); auto. exfalso.
      apply andb_false_iff in E. destruct E as [E|E].
      * apply nonempty_false in E. congruence.
      * apply negb_false_iff, existsb_str_eqb in E. contradiction.
Qed.

(** X2. [_extract_pubtypes] returns each label once and no empty label: a
    label is in the result exactly when it is the stripped, non-empty text
    of some publication type element of the article. *)
Theorem pubtypes_are_distinct {U : UnicodeData} (art : Element) :
  NoDup (_extract_pubtypes art)
  /\ forall label,
       In label (_extract_pubtypes art)
       <-> label <> []
           /\ exists pt,
                In pt (findall [Descendant (py "PublicationTypeList");
                                Child (py "PublicationType")] art)
                /\ strip (or_empty (text pt)) = label.
Proof.
  unfold _extract_pubtypes.
  destruct (distinct_spec
              (map (fun pt => strip (or_empty (text pt)))
                   (findall [Descendant (py "PublicationTypeList");
                             Child (py "PublicationType")] art)) []) as [ND H].
  split; auto. intros label. rewrite H, in_map_iff. cbn. split.
  - intros ((pt & E & Hin) & Hne & _). split; auto. exists pt. auto.
  - intros (Hne & pt & Hin & E). split; [|split; auto]. exists pt. auto.
Qed.

(** ** Stripping *)

Section StripFacts.
Variable p : N -> bool.

Lemma lstrip_by_length (s : pystr) :
  (List.length (lstrip_by p s) <= List.length s)%nat.
Proof. induction s as [|c r IH]; cbn; auto. destruct (p c); cbn; lia. Qed.

Lemma lstrip_by_starts_clean (s : pystr) : starts_clean p (lstrip_by p s) = true.
Proof.
  induction s as [|c r IH]; cbn; auto.
  destruct (p c) eqn:E; auto. cbn. now rewrite E.
Qed.

Lemma lstrip_by_clean (s : pystr) : starts_clean p s = true -> lstrip_by p s = s.
Proof. destruct s as [|c r]; cbn; auto. now destruct (p c). Qed.

Lemma lstrip_by_snoc (a : pystr) (c : N) :
  lstrip_by p (a ++ [c])
  = match lstrip_by p a with
    | [] => if p c then [] else [c]
    | l => l ++ [c]
    end.
Proof.
  induction a as [|x a IH]; cbn [app lstrip_by]; auto.
  destruct (p x); auto.
Qed.

Lemma rstrip_by_cons (c : N) (r : pystr) :
  rstrip_by p (c :: r)
  = match rstrip_by p r with
    | [] => if p c then [] else [c]
    | l => c :: l
    end.
Proof.
  unfold rstrip_by. cbn [rev]. rewrite lstrip_by_snoc.
  destruct (lstrip_by p (rev r)) as [|x l].
  - cbn. now destruct (p c).
  - rewrite rev_app_distr. cbn [rev app].
    destruct (rev l ++ [x]) eqn:E; auto.
    apply app_eq_nil in E. destruct E; discriminate.
Qed.

Lemma rstrip_by_idem (s : pystr) : rstrip_by p (rstrip_by p s) = rstrip_by p s.
Proof.
  unfold rstrip_by. rewrite rev_involutive.
  now rewrite (lstrip_by_clean _ (lstrip_by_starts_clean (rev s))).
Qed.

Lemma rstrip_by_starts_clean (s : pystr) :
  starts_clean p s = true -> starts_clean p (rstrip_by p s) = true.
Proof.
  destruct s as [|c r]; auto. cbn [starts_clean]. intros H.
  rewrite rstrip_by_cons. destruct (rstrip_by p r); cbn; auto.
  apply negb_true_iff in H. rewrite H. cbn. now rewrite H.
Qed.

(** [s.strip(...)] of a stripped string is that string. *)
Lemma strip_by_idem (s : pystr) : strip_by p (strip_by p s) = strip_by p s.
Proof.
  unfold strip_by.
  rewrite (lstrip_by_clean (rstrip_by p (lstrip_by p s))).
  - apply rstrip_by_idem.
  - apply rstrip_by_starts_clean, lstrip_by_starts_clean.
Qed.

End StripFacts.

Lemma lstrip_by_ext (p q : N -> bool) (s : pystr) :
  (forall c, p c = q c) -> lstrip_by p s = lstrip_by q s.
Proof.
  intros H. induction s as [|c r IH]; cbn; auto. rewrite H, IH. reflexivity.
Qed.

Lemma strip_idem (s : pystr) : strip (strip s) = strip s.
Proof. apply strip_by_idem. Qed.

(** ** Whitespace normalisation *)

Section NormFacts.
Context {U : UnicodeData}.

Lemma many_total (R : Type) (p : N -> bool) (f : nat -> pystr -> R)
      (s : pystr) (pos : nat) :
  many p pos s (fun p' t => Some (f p' t))
  = Some (f (pos + (List.length s - List.length (lstrip_by p s)))%nat (lstrip_by p s)).
Proof.
  revert pos. induction s as [|c r IH]; intros pos; cbn [many lstrip_by].
  - cbn. now rewrite Nat.add_0_r.
  - destruct (p c).
    + rewrite IH. do 2 f_equal. pose proof (lstrip_by_length p r). cbn [List.length]. lia.
    + rewrite Nat.sub_diag, Nat.add_0_r. reflexivity.
Qed.

Lemma in_space_set (c : N) : in_cset [Space] c = is_space c.
Proof. unfold in_cset. cbn. now rewrite orb_false_r. Qed.

Lemma match_at_spaces (pos : nat) (c : N) (r : pystr) :
  match_at (Many1 [Space]) pos (c :: r)
  = if is_space c
    then Some (MatchObj pos (S pos + (List.length r - List.length (lstrip_by is_space r)))
                        [],
               lstrip_by is_space r)
    else None.
Proof.
  unfold match_at. cbn [rmatch]. rewrite in_space_set.
  destruct (is_space c); auto.
  rewrite many_total. rewrite (lstrip_by_ext (in_cset [Space]) is_space r in_space_set).
  reflexivity.
Qed.

Lemma squeeze_after_space (s : pystr) :
  squeeze true s = squeeze false (lstrip_by is_space s).
Proof.
  induction s as [|c r IH]; cbn [squeeze lstrip_by]; auto.
  destruct (is_space c) eqn:E; auto. cbn [squeeze]. now rewrite E.
Qed.

Lemma sub_spaces (n : nat) :
  forall (s : pystr) (pos : nat),
    (List.length s <= n)%nat ->
    sub_from n (Many1 [Space]) [32] pos s = squeeze false s.
Proof.
  induction n as [|n IH]; intros s pos H.
  - destruct s; [reflexivity | cbn in H; lia].
  - destruct s as [|c r]; [reflexivity|]. cbn [sub_from]. cbn [List.length] in H.
    rewrite match_at_spaces. cbn [squeeze].
    destruct (is_space c).
    + cbn [m_end].
      replace (pos <? S pos + (List.length r - List.length (lstrip_by is_space r)))%nat
        with true by (symmetry; apply Nat.ltb_lt; lia).
      cbn [app]. rewrite IH.
      * now rewrite squeeze_after_space.
      * pose proof (lstrip_by_length is_space r). lia.
    + rewrite IH by lia. reflexivity.
Qed.

Lemma _norm_ws_eq (s : pystr) : _norm_ws s = strip (squeeze false s).
Proof.
  unfold _norm_ws, re_sub. change (py " ") with [32].
  now rewrite sub_spaces.
Qed.

Lemma squeeze_loose (s : pystr) :
  loose_spaced (squeeze false s) = true
  /\ loose_spaced (squeeze true s) = true
  /\ starts_clean is_space (squeeze true s) = true.
Proof.
  induction s as [|c r (IH1 & IH2 & IH3)]; cbn [squeeze]; auto.
  destruct (is_space c) eqn:E.
  - repeat split; auto. cbn [loose_spaced].
    change (is_space 32) with true. cbv iota. change (32 =? 32) with true.
    rewrite IH2, andb_true_r. cbn [andb].
    unfold starts_clean in IH3. destruct (squeeze true r); auto.
  - cbn [loose_spaced starts_clean]. rewrite E, IH1. auto.
Qed.

Lemma lstrip_loose (s : pystr) :
  loose_spaced s = true -> loose_spaced (lstrip_by is_space s) = true.
Proof.
  induction s as [|c r IH]; cbn [lstrip_by]; auto. intros H.
  destruct (is_space c) eqn:E; auto.
  apply IH. cbn [loose_spaced] in H. apply andb_true_iff in H. tauto.
Qed.

Lemma rstrip_head (s : pystr) (c : N) (l : pystr) :
  rstrip_by is_space s = c :: l -> exists r, s = c :: r.
Proof.
  destruct s as [|x r]; [discriminate|]. rewrite rstrip_by_cons.
  destruct (rstrip_by is_space r).
  - destruct (is_space x); [discriminate|]. intros [= <- _]. eauto.
  - intros [= <- _]. eauto.
Qed.

Lemma single_spaced_cons (c : N) (r : pystr) :
  single_spaced (c :: r)
  = (if is_space c
     then (c =? 32) && match r with d :: _ => negb (is_space d) | [] => false end
     else true)
    && single_spaced r.
Proof. reflexivity. Qed.

Lemma rstrip_single (s : pystr) :
  loose_spaced s = true -> single_spaced (rstrip_by is_space s) = true.
Proof.
  induction s as [|c r IH]; auto. intros H.
  cbn [loose_spaced] in H. apply andb_true_iff in H. destruct H as [Hc Hr].
  rewrite rstrip_by_cons. specialize (IH Hr).
  destruct (rstrip_by is_space r) as [|d l] eqn:E.
  - destruct (is_space c) eqn:Ec; auto. rewrite single_spaced_cons. now rewrite Ec.
  - rewrite single_spaced_cons, IH, andb_true_r.
    destruct (is_space c) eqn:Ec; auto.
    destruct (@rstrip_head r d l E) as (r' & ->).
    apply andb_true_iff in Hc. destruct Hc as [H32 Hd]. now rewrite H32, Hd.
Qed.

(** What [_norm_ws] returns is in normal form. *)
Lemma _norm_ws_normal (s : pystr) : ws_normal (_norm_ws s) = true.
Proof.
  rewrite _norm_ws_eq. unfold ws_normal, strip, strip_by.
  apply andb_true_iff. split.
  - apply (rstrip_by_starts_clean is_space), lstrip_by_starts_clean.
  - apply rstrip_single, lstrip_loose. apply squeeze_loose.
Qed.

Lemma squeeze_single (s : pystr) (prev : bool) :
  single_spaced s = true ->
  (prev = true -> starts_clean is_space s = true) ->
  squeeze prev s = s.
Proof.
  revert prev. induction s as [|c r IH]; intros prev H Hp; auto.
  cbn [single_spaced] in H. apply andb_true_iff in H. destruct H as [Hc Hr].
  cbn [squeeze]. destruct (is_space c) eqn:E.
  - apply andb_true_iff in Hc. destruct Hc as [H32 Hd]. apply N.eqb_eq in H32. subst c.
    destruct prev.
    + specialize (Hp eq_refl). cbn in Hp. discriminate.
    + f_equal. apply IH; auto. intros _. destruct r; auto.
  - f_equal. apply IH; auto. discriminate.
Qed.

Lemma rstrip_of_single (s : pystr) :
  single_spaced s = true -> rstrip_by is_space s = s.
Proof.
  induction s as [|c r IH]; auto. intros H.
  cbn [single_spaced] in H. apply andb_true_iff in H. destruct H as [Hc Hr].
  rewrite rstrip_by_cons, (IH Hr). destruct r as [|d r]; auto.
  destruct (is_space c); auto. apply andb_true_iff in Hc. destruct Hc. discriminate.
Qed.

(** Text in normal form is left as it is. *)
Lemma _norm_ws_of_normal (s : pystr) : ws_normal s = true -> _norm_ws s = s.
Proof.
  unfold ws_normal. intros H. apply andb_true_iff in H. destruct H as [Hh Hs].
  rewrite _norm_ws_eq, squeeze_single by (auto; discriminate).
  unfold strip, strip_by. rewrite (lstrip_by_clean is_space s Hh).
  now apply rstrip_of_single.
Qed.
End NormFacts.

(** X3. [_norm_ws] computes a normal form: its result has no whitespace
    at either end and no whitespace but single spaces between words;
    normalising twice is normalising once; and the texts it leaves unchanged
    are exactly the texts in that form. *)
Theorem norm_ws_is_a_normal_form {U : UnicodeData} (s : pystr) :
  ws_normal (_norm_ws s) = true
  /\ _norm_ws (_norm_ws s) = _norm_ws s
  /\ (ws_normal s = true <-> _norm_ws s = s).
Proof.
  split; [apply _norm_ws_normal|]. split.
  - apply _norm_ws_of_normal, _norm_ws_normal.
  - split; [apply _norm_ws_of_normal|]. intros <-. apply _norm_ws_normal.
Qed.

(** ** Dates *)

Lemma no_blank_month : get_default [] _MONTH_ABBR [] = [].
Proof. vm_compute. reflexivity. Qed.

(** X4. [_fmt_date] needs a year: the text is empty exactly when the year
    is missing or blank, whatever month and day are given; and when the
    month is missing or blank the text is the year alone, a day that is given
    being dropped. *)
Theorem fmt_date_needs_a_year {U : UnicodeData} (y m d : option pystr) :
  (_fmt_date y m d = [] <-> strip (or_empty y) = [])
  /\ (strip (or_empty m) = [] -> _fmt_date y m d = strip (or_empty y)).
Proof.
  unfold _fmt_date.
  set (ys := strip (or_empty y)). set (ms := strip (or_empty m)).
  set (ds := strip (or_empty d)).
  split.
  - destruct (nonempty ys) eqn:Ey.
    + apply nonempty_true in Ey.
      destruct (nonempty (get_default ms _MONTH_ABBR ms)); cbn [andb];
        [destruct (nonempty ds)|]; (split; [|tauto]); intros H;
        try (apply app_eq_nil in H; tauto); tauto.
    + cbn [andb]. tauto.
  - intros ->. rewrite no_blank_month. cbn [nonempty]. rewrite !andb_false_r.
    reflexivity.
Qed.

(** ** Text without whitespace around it *)

Section CleanEnds.
Variable p : N -> bool.

Lemma clean_ends_strip (s : pystr) : clean_ends p (strip_by p s) = true.
Proof.
  unfold clean_ends, strip_by. apply andb_true_iff. split.
  - apply rstrip_by_starts_clean, lstrip_by_starts_clean.
  - unfold rstrip_by. rewrite rev_involutive. apply lstrip_by_starts_clean.
Qed.

Lemma strip_clean_ends (s : pystr) : clean_ends p s = true -> strip_by p s = s.
Proof.
  unfold clean_ends, strip_by, rstrip_by. intros H.
  apply andb_true_iff in H. destruct H as [H1 H2].
  rewrite (lstrip_by_clean p s H1), (lstrip_by_clean p (rev s) H2).
  apply rev_involutive.
Qed.

Lemma strip_fixed_iff (s : pystr) : strip_by p s = s <-> clean_ends p s = true.
Proof.
  split; [|apply strip_clean_ends]. intros <-. apply clean_ends_strip.
Qed.

Lemma starts_clean_app (a b : pystr) :
  a <> [] -> starts_clean p a = true -> starts_clean p (a ++ b) = true.
Proof. destruct a; [congruence | auto]. Qed.

Lemma clean_ends_app (a m b : pystr) :
  a <> [] -> b <> [] -> clean_ends p a = true -> clean_ends p b = true ->
  clean_ends p (a ++ m ++ b) = true.
Proof.
  unfold clean_ends. intros Ha Hb H1 H2.
  apply andb_true_iff in H1. apply andb_true_iff in H2.
  apply andb_true_iff. split.
  - apply starts_clean_app; tauto.
  - rewrite !rev_app_distr, <- app_assoc. apply starts_clean_app; [|tauto].
    intros E. apply (f_equal (@rev N)) in E. rewrite rev_involutive in E. auto.
Qed.
End CleanEnds.

Section FieldFacts.
Context {U : UnicodeData}.

Lemma strip_fixed (s : pystr) : strip s = s <-> clean_ends is_space s = true.
Proof. apply strip_fixed_iff. Qed.

Lemma _itertext_normal (e : option Element) : ws_normal (_itertext e) = true.
Proof. destruct e; [apply _norm_ws_normal | reflexivity]. Qed.

Lemma first_journal_normal (paths : list (list step)) (art : Element) :
  ws_normal (first_journal paths art) = true.
Proof.
  induction paths as [|path rest IH]; [reflexivity|]. cbn [first_journal].
  destruct (findtext path art); auto.
  destruct (nonempty p && nonempty (strip p)); auto. apply _norm_ws_normal.
Qed.

Lemma months_clean :
  forallb (fun kv => clean_ends is_space (snd kv) && nonempty (snd kv)) _MONTH_ABBR = true.
Proof. vm_compute. reflexivity. Qed.

Lemma month_clean (m : pystr) :
  clean_ends is_space m = true ->
  clean_ends is_space (get_default m _MONTH_ABBR m) = true.
Proof.
  intros H. unfold get_default. destruct (dict_get m _MONTH_ABBR) eqn:E; auto.
  apply dict_get_In in E. pose proof months_clean as A.
  rewrite forallb_forall in A. apply A in E. cbn [snd] in E.
  apply andb_true_iff in E. tauto.
Qed.

Lemma _fmt_date_clean (y m d : option pystr) :
  clean_ends is_space (_fmt_date y m d) = true.
Proof.
  unfold _fmt_date.
  set (ys := strip (or_empty y)). set (ms := strip (or_empty m)).
  set (ds := strip (or_empty d)).
  assert (Hy : clean_ends is_space ys = true) by apply clean_ends_strip.
  assert (Hm : clean_ends is_space (get_default ms _MONTH_ABBR ms) = true)
    by apply month_clean, clean_ends_strip.
  assert (Hd : clean_ends is_space ds = true) by apply clean_ends_strip.
  destruct (nonempty ys) eqn:Ey; cbn [andb]; auto.
  destruct (nonempty (get_default ms _MONTH_ABBR ms)) eqn:Em; cbn [andb]; auto.
  apply nonempty_true in Ey. apply nonempty_true in Em.
  destruct (nonempty ds) eqn:Ed.
  - apply nonempty_true in Ed.
    assert (Hd' : forall b : bool,
               clean_ends is_space (if b then py "0" ++ ds else ds) = true
               /\ (if b then py "0" ++ ds else ds) <> []).
    { intros [|]; [|auto]. split; [|discriminate].
      apply (@clean_ends_app is_space (py "0") [] ds); auto. discriminate. }
    destruct (Hd' (isdigit ds && Nat.eqb (List.length ds) 1)) as [Hc Hn].
    set (D := if isdigit ds && Nat.eqb (List.length ds) 1 then py "0" ++ ds else ds) in *.
    replace (ys ++ py " " ++ get_default ms _MONTH_ABBR ms ++ py " " ++ D)
      with (ys ++ (py " " ++ get_default ms _MONTH_ABBR ms ++ py " ") ++ D)
      by (now rewrite <- !app_assoc).
    apply clean_ends_app; auto.
  - apply (@clean_ends_app is_space ys (py " ") _); auto.
Qed.

Lemma fmt_date_of_clean (e : Element) : clean_ends is_space (fmt_date_of e) = true.
Proof. apply _fmt_date_clean. Qed.

Lemma history_date_clean (statuses : list pystr) (art : Element) :
  clean_ends is_space (history_date statuses art) = true.
Proof.
  induction statuses as [|s r IH]; [reflexivity|]. cbn [history_date].
  destruct (find (history_path s) art); auto. apply fmt_date_of_clean.
Qed.

Lemma _extract_pubdate_display_clean (art : Element) :
  clean_ends is_space (_extract_pubdate_display art) = true.
Proof.
  unfold _extract_pubdate_display.
  destruct (List.find is_electronic (findall article_dates art));
    [apply fmt_date_of_clean|].
  match goal with |- context [if nonempty ?s then _ else _] =>
    assert (Hs : clean_ends is_space s = true)
      by (destruct (find article_dates art); [apply fmt_date_of_clean | reflexivity]);
    destruct (nonempty s); auto end.
  match goal with |- context [if nonempty ?s then _ else _] =>
    assert (Hs2 : clean_ends is_space s = true) by apply _fmt_date_clean;
    destruct (nonempty s); auto end.
  match goal with |- context [if nonempty ?s then _ else _] =>
    assert (Hs3 : clean_ends is_space s = true) by apply clean_ends_strip;
    destruct (nonempty s); auto end.
  apply history_date_clean.
Qed.

Lemma first_doi_stripped (aids : list Element) : strip (first_doi aids) = first_doi aids.
Proof.
  induction aids as [|a r IH]; [reflexivity|]. cbn [first_doi].
  destruct (str_eqb _ _); auto. apply strip_idem.
Qed.
End FieldFacts.

(** X5. The fields of a record that [parse_records] builds carry no
    whitespace around them: the PMID, the publication date and the DOI are
    left unchanged by [strip], the title and the journal name are in the
    normal form of [_norm_ws], and every publication type label is stripped
    and not empty. *)
Theorem record_fields_are_trimmed {U : UnicodeData} (art : Element) :
  let r := parse_article art in
  strip (pmid r) = pmid r
  /\ ws_normal (title r) = true
  /\ ws_normal (journal r) = true
  /\ strip (pubdate r) = pubdate r
  /\ strip (doi r) = doi r
  /\ (forall label, In label (pt r) -> strip label = label /\ label <> []).
Proof.
  cbv zeta. unfold parse_article. cbn [pmid title journal pubdate doi pt url].
  split; [apply strip_idem|]. split; [apply _itertext_normal|].
  split; [apply first_journal_normal|].
  split; [apply strip_fixed, _extract_pubdate_display_clean|].
  split; [apply first_doi_stripped|].
  intros label H. unfold _extract_pubtypes in H.
  apply (proj2 (distinct_spec _ _)) in H. destruct H as (H & Hn & _).
  split; auto. apply in_map_iff in H. destruct H as (e & <- & _). apply strip_idem.
Qed.

(** ** The abstract *)

Section AbstractFacts.
Context {U : UnicodeData}.

Lemma join_nil (sep : pystr) (parts : list pystr) :
  Forall (fun x => x <> []) parts -> join sep parts = [] -> parts = [].
Proof.
  destruct parts as [|x r]; auto. intros H E. inversion H as [|? ? Hx _]; subst.
  cbn [join] in E. destruct r; [congruence|].
  apply app_eq_nil in E. tauto.
Qed.

Lemma abstract_section_nonempty (e : Element) :
  Forall (fun x => x <> []) (abstract_section e).
Proof.
  unfold abstract_section. destruct (nonempty (_itertext (Some e))) eqn:E; [|constructor].
  apply nonempty_true in E.
  destruct (dict_get (py "Label") (attrib e)) as [l|]; [destruct (nonempty l) eqn:El|];
    repeat constructor; auto.
  apply nonempty_true in El. intros H. apply app_eq_nil in H. tauto.
Qed.

Lemma abstract_section_nil (e : Element) :
  abstract_section e = [] <-> _itertext (Some e) = [].
Proof.
  unfold abstract_section. destruct (nonempty (_itertext (Some e))) eqn:E.
  - apply nonempty_true in E.
    destruct (dict_get (py "Label") (attrib e)) as [l|]; [destruct (nonempty l)|];
      split; intros H; try discriminate; contradiction.
  - apply nonempty_false in E. tauto.
Qed.

Lemma flat_map_nil (A B : Type) (f : A -> list B) (l : list A) :
  flat_map f l = [] <-> forall x, In x l -> f x = [].
Proof.
  induction l as [|a l IH]; cbn [flat_map].
  - split; auto. intros _ x [].
  - split.
    + intros H. apply app_eq_nil in H. destruct H as [Ha Hl].
      intros x [<-|Hx]; auto. now apply IH.
    + intros H. rewrite (H a) by now left. apply IH. intros x Hx. apply H. now right.
Qed.

Lemma Forall_flat_map (A B : Type) (P : B -> Prop) (f : A -> list B) (l : list A) :
  (forall x, Forall P (f x)) -> Forall P (flat_map f l).
Proof.
  intros H. induction l; cbn [flat_map]; [constructor|]. apply Forall_app. auto.
Qed.
End AbstractFacts.

(** X6. The abstract of a record is empty exactly when every
    [AbstractText] element of the article has no text once normalised:
    sections without text are left out, also when they are labelled, and one
    section with text makes the abstract non-empty. *)
Theorem abstract_is_empty_iff {U : UnicodeData} (art : Element) :
  abstract (parse_article art) = []
  <-> forall abs_elem,
        In abs_elem (findall [Descendant (py "Abstract"); Child (py "AbstractText")] art) ->
        _itertext (Some abs_elem) = [].
Proof.
  unfold parse_article. cbn [abstract]. unfold extract_abstract. split.
  - intros H e He. apply join_nil in H.
    + apply abstract_section_nil. revert e He. now apply flat_map_nil.
    + apply Forall_flat_map, abstract_section_nonempty.
  - intros H. 
    replace (flat_map abstract_section _) with (@nil pystr); [reflexivity|].
    symmetry. apply flat_map_nil. intros e He. apply abstract_section_nil. auto.
Qed.

(** ** The walk over the author nodes *)

Section AuthorFacts.
Context {U : UnicodeData}.

Lemma author_step_counted (acc : author_acc) (au : Element) :
  counted (author_step acc au)
  = (counted acc + (if is_named au then 1 else 0))%nat.
Proof.
  unfold author_step, is_named.
  destruct (nonempty (or_empty (findtext [Child (py "LastName")] au))
            || nonempty (or_empty (findtext [Child (py "Initials")] au))); cbn [orb].
  - destruct (negb (nonempty (first_author_name acc))); cbn [counted]; lia.
  - destruct (nonempty (or_empty (findtext [Child (py "CollectiveName")] au)));
      [destruct (negb (nonempty (first_author_name acc)))|]; cbn [counted]; lia.
Qed.

Lemma author_step_name (acc : author_acc) (au : Element) :
  first_author_name (author_step acc au)
  = if nonempty (first_author_name acc) then first_author_name acc else author_name au.
Proof.
  unfold author_step, author_name.
  destruct (nonempty (or_empty (findtext [Child (py "LastName")] au))
            || nonempty (or_empty (findtext [Child (py "Initials")] au))).
  - destruct (nonempty (first_author_name acc)); reflexivity.
  - destruct (nonempty (or_empty (findtext [Child (py "CollectiveName")] au))) eqn:E.
    + destruct (nonempty (first_author_name acc)); reflexivity.
    + apply nonempty_false in E. rewrite E.
      destruct (nonempty (first_author_name acc)) eqn:F; auto.
      now apply nonempty_false in F.
Qed.

Lemma walk_counted (nodes : list Element) (acc : author_acc) :
  counted (fold_left author_step nodes acc)
  = (counted acc + List.length (filter is_named nodes))%nat.
Proof.
  revert acc. induction nodes as [|au r IH]; intros acc; cbn [fold_left filter].
  - cbn. lia.
  - rewrite IH, author_step_counted. destruct (is_named au); cbn [List.length]; lia.
Qed.

Lemma walk_name (nodes : list Element) (acc : author_acc) :
  first_author_name (fold_left author_step nodes acc)
  = if nonempty (first_author_name acc) then first_author_name acc
    else hd [] (filter nonempty (map author_name nodes)).
Proof.
  revert acc. induction nodes as [|au r IH]; intros acc; cbn [fold_left filter map].
  - destruct (nonempty (first_author_name acc)) eqn:F; auto.
    now apply nonempty_false in F.
  - rewrite IH, author_step_name.
    destruct (nonempty (first_author_name acc)) eqn:F; [now rewrite F|].
    destruct (nonempty (author_name au)); reflexivity.
Qed.
End AuthorFacts.

(** X7. The walk over the author nodes counts the nodes that have a last
    name, initials or a collective name, and keeps the first name that is
    not empty; so an article with fewer than two such nodes gets an author
    line without [", et al."]. *)
Theorem walk_counts_named_authors {U : UnicodeData} (art : Element) :
  counted (walk_authors art) = List.length (filter is_named (authors_nodes art))
  /\ first_author_name (walk_authors art)
     = hd [] (filter nonempty (map author_name (authors_nodes art)))
  /\ ((List.length (filter is_named (authors_nodes art)) < 2)%nat ->
      let country := _extract_country_from_aff (affiliation_source art) in
      authors (parse_article art)
      = first_author_name (walk_authors art)
          ++ (if nonempty country then py "（" ++ country ++ py "）" else [])).
Proof.
  unfold walk_authors. split; [|split].
  - now rewrite walk_counted.
  - now rewrite walk_name.
  - intros H. cbv zeta. unfold parse_article. cbn [authors].
    unfold authors_display, render_authors, walk_authors.
    rewrite walk_counted. cbn [counted Nat.add].
    replace (2 <=? List.length (filter is_named (authors_nodes art)))%nat with false
      by (symmetry; apply Nat.leb_gt; exact H).
    cbn [andb]. destruct (nonempty _); [reflexivity | now rewrite app_nil_r].
Qed.

(** ** Country names *)

Section CountryFacts.
Context {U : UnicodeData}.

Lemma re_sub_spaces (s : pystr) : re_sub (Many1 [Space]) (py " ") s = squeeze false s.
Proof. unfold re_sub. change (py " ") with [32]. now rewrite sub_spaces. Qed.

Lemma _normalize_country_eq (name : pystr) :
  _normalize_country name
  = if nonempty name
    then get_default (squeeze false (lower (strip name))) COUNTRY_ALIASES (strip name)
    else [].
Proof. unfold _normalize_country. now rewrite re_sub_spaces. Qed.

Lemma canonical_names_fixed :
  forallb (fun kv => str_eqb (_normalize_country (snd kv)) (snd kv)
                     && str_eqb (get_default (lower (snd kv)) COUNTRY_ALIASES (snd kv))
                                (snd kv)
                     && str_eqb (squeeze false (fst kv)) (fst kv)
                     && nonempty (snd kv))
          COUNTRY_ALIASES = true.
Proof. vm_compute. reflexivity. Qed.

Lemma alias_facts (k v : pystr) :
  dict_get k COUNTRY_ALIASES = Some v ->
  _normalize_country v = v
  /\ get_default (lower v) COUNTRY_ALIASES v = v
  /\ squeeze false k = k
  /\ v <> []
  /\ In v (map snd COUNTRY_ALIASES).
Proof.
  intros H. apply dict_get_In in H. pose proof canonical_names_fixed as A.
  rewrite forallb_forall in A. pose proof (A _ H) as B. cbn [fst snd] in B.
  rewrite !andb_true_iff in B. destruct B as (((B1 & B2) & B3) & B4).
  apply str_eqb_eq in B1, B2, B3. apply nonempty_true in B4.
  repeat split; auto. apply in_map_iff. exists (k, v). auto.
Qed.

Lemma _normalize_country_cases (name : pystr) :
  (In (_normalize_country name) (map snd COUNTRY_ALIASES)
   /\ exists k, dict_get k COUNTRY_ALIASES = Some (_normalize_country name))
  \/ (_normalize_country name = strip name
      /\ (name <> [] -> dict_get (squeeze false (lower (strip name))) COUNTRY_ALIASES = None)).
Proof.
  rewrite _normalize_country_eq. destruct (nonempty name) eqn:E.
  - unfold get_default.
    destruct (dict_get (squeeze false (lower (strip name))) COUNTRY_ALIASES) as [v|] eqn:G.
    + left. split; [apply (alias_facts _ G) | eauto].
    + right. auto.
  - right. apply nonempty_false in E. subst. split; [reflexivity | congruence].
Qed.

Lemma _normalize_country_idem (name : pystr) :
  _normalize_country (_normalize_country name) = _normalize_country name.
Proof.
  destruct (_normalize_country_cases name) as [(_ & k & H) | (H & Hk)].
  - apply (alias_facts _ H).
  - rewrite H. rewrite _normalize_country_eq.
    destruct (nonempty (strip name)) eqn:E; [|now apply nonempty_false in E].
    rewrite strip_idem. unfold get_default. rewrite Hk; auto.
    intros ->. discriminate.
Qed.

(** The second look-up of the tier, [COUNTRY_ALIASES.get(norm.lower(), norm)],
    finds nothing new. *)
Lemma second_lookup_is_idle (tok : pystr) :
  get_default (lower (_normalize_country tok)) COUNTRY_ALIASES (_normalize_country tok)
  = _normalize_country tok.
Proof.
  destruct (_normalize_country_cases tok) as [(_ & k & H) | (H & Hk)].
  - apply (alias_facts _ H).
  - rewrite H. unfold get_default.
    destruct (dict_get (lower (strip tok)) COUNTRY_ALIASES) as [v|] eqn:G; auto.
    exfalso. destruct tok as [|c r]; [discriminate G|].
    destruct (alias_facts _ G) as (_ & _ & S & _).
    rewrite S in Hk. rewrite Hk in G; [discriminate | discriminate].
Qed.

Lemma tail_tokens_some (toks : list pystr) (c : pystr) :
  tail_tokens toks = Some c ->
  exists tok, In tok toks /\ (c = _normalize_country tok \/ c = tok).
Proof.
  induction toks as [|tok rest IH]; [discriminate|]. cbn [tail_tokens].
  rewrite second_lookup_is_idle.
  destruct (negb (str_eqb (_normalize_country tok) tok)
            || existsb (str_eqb (_normalize_country tok)) (map snd COUNTRY_ALIASES)).
  - intros [= <-]. exists tok. split; [now left | now left].
  - destruct ((2 <=? List.length tok)%nat && (List.length tok <=? 40)%nat
              && match re_match placename_re tok with Some _ => true | None => false end).
    + intros [= <-]. exists tok. split; [now left | now right].
    + intros H. destruct (IH H) as (t & Ht & Hc). exists t. split; [now right | auto].
Qed.

(** ** The third tier *)

Lemma insert_longest_In (x y : pystr) (l : list pystr) :
  In y (insert_longest x l) <-> y = x \/ In y l.
Proof.
  induction l as [|z r IH]; cbn [insert_longest].
  - cbn. intuition.
  - destruct (List.length z <=? List.length x)%nat; cbn [In]; [intuition|].
    rewrite IH. intuition.
Qed.

Lemma sorted_longest_first_In (y : pystr) (xs : list pystr) :
  In y (sorted_longest_first xs) <-> In y xs.
Proof.
  induction xs as [|x r IH]; cbn [sorted_longest_first fold_right]; [tauto|].
  rewrite insert_longest_In. fold (sorted_longest_first r). rewrite IH. cbn. intuition.
Qed.

Lemma insert_longest_sorted (x : pystr) (l : list pystr) :
  StronglySorted longer_first l -> StronglySorted longer_first (insert_longest x l).
Proof.
  induction 1 as [|z r Hr IH Hz]; cbn [insert_longest].
  - repeat constructor.
  - destruct (List.length z <=? List.length x)%nat eqn:E.
    + apply Nat.leb_le in E. constructor; [constructor; auto|].
      constructor; [exact E|]. rewrite Forall_forall in *. intros y Hy.
      specialize (Hz y Hy). unfold longer_first in *. lia.
    + apply Nat.leb_gt in E. constructor; auto.
      rewrite Forall_forall in *. intros y Hy. apply insert_longest_In in Hy.
      destruct Hy as [->|Hy]; [unfold longer_first; lia | auto].
Qed.

Lemma sorted_longest_first_sorted (xs : list pystr) :
  StronglySorted longer_first (sorted_longest_first xs).
Proof.
  induction xs; cbn [sorted_longest_first fold_right]; [constructor|].
  now apply insert_longest_sorted.
Qed.

Lemma scan_sorted (l : list pystr) (txt a : pystr) :
  StronglySorted longer_first l ->
  In a l -> re_search (alias_re a) txt <> None ->
  exists b, In b l /\ re_search (alias_re b) txt <> None
            /\ (List.length a <= List.length b)%nat
            /\ scan_aliases l txt = or_empty (dict_get b COUNTRY_ALIASES).
Proof.
  induction 1 as [|x r Hr IH Hx]; intros Ha Hm; [destruct Ha|].
  cbn [scan_aliases]. destruct (re_search (alias_re x) txt) eqn:E.
  - exists x. split; [now left|]. split; [congruence|]. split; [|reflexivity].
    destruct Ha as [->|Ha]; [lia|]. rewrite Forall_forall in Hx. apply (Hx a Ha).
  - destruct Ha as [->|Ha]; [congruence|].
    destruct (IH Ha Hm) as (b & Hb & Hbm & Hl & Hs). exists b.
    split; [now right|]. auto.
Qed.

Lemma scan_range (l : list pystr) (txt : pystr) :
  scan_aliases l txt = [] \/ In (scan_aliases l txt) (map snd COUNTRY_ALIASES).
Proof.
  induction l as [|x r IH]; [now left|]. cbn [scan_aliases].
  destruct (re_search (alias_re x) txt); auto.
  destruct (dict_get x COUNTRY_ALIASES) eqn:G; [|now left].
  right. apply (alias_facts _ G).
Qed.
End CountryFacts.

(** X8. [_normalize_country] is idempotent, and its result is a name of
    [COUNTRY_ALIASES] or the stripped input. *)
Theorem normalize_country_is_idempotent {U : UnicodeData} (name : pystr) :
  _normalize_country (_normalize_country name) = _normalize_country name
  /\ (In (_normalize_country name) (map snd COUNTRY_ALIASES)
      \/ _normalize_country name = strip name).
Proof.
  split; [apply _normalize_country_idem|].
  destruct (_normalize_country_cases name) as [(H & _) | (H & _)]; auto.
Qed.

(** X9. What [_extract_country_from_aff] returns is empty, a name of
    [TLD_COUNTRY_MAP], a name of [COUNTRY_ALIASES], or a token of the
    affiliation's tail, as it stands or stripped: the second look-up of the
    token tier never puts another name in its place. *)
Theorem country_is_canonical_or_a_token {U : UnicodeData} (aff : pystr) :
  let country := _extract_country_from_aff aff in
  country = []
  \/ In country (map snd TLD_COUNTRY_MAP)
  \/ In country (map snd COUNTRY_ALIASES)
  \/ exists tok, In tok (tail_token_list aff) /\ (country = tok \/ country = strip tok).
Proof.
  cbv zeta. unfold _extract_country_from_aff.
  destruct (negb (nonempty aff)); [now left|].
  assert (T2 : forall rest : pystr,
             (rest = [] \/ In rest (map snd COUNTRY_ALIASES)) ->
             let country := match tail_tokens (rev (tail_token_list aff)) with
                            | Some country => country
                            | None => rest
                            end in
             country = []
             \/ In country (map snd TLD_COUNTRY_MAP)
             \/ In country (map snd COUNTRY_ALIASES)
             \/ exists tok, In tok (tail_token_list aff)
                            /\ (country = tok \/ country = strip tok)).
  { intros rest Hrest. cbv zeta.
    destruct (tail_tokens (rev (tail_token_list aff))) as [c|] eqn:T.
    - apply tail_tokens_some in T. destruct T as (tok & Ht & Hc).
      apply in_rev in Ht.
      destruct Hc as [-> | ->].
      + destruct (_normalize_country_cases tok) as [(H & _) | (H & _)].
        * right. right. now left.
        * right. right. right. exists tok. rewrite H. auto.
      + right. right. right. exists tok. auto.
    - destruct Hrest; auto. }
  specialize (T2 _ (scan_range (sorted_longest_first (map fst COUNTRY_ALIASES)) aff)).
  cbv zeta in T2. fold (tail_token_list aff).
  destruct (re_search email_re aff) as [m|]; [|exact T2].
  destruct (dict_get (lower (group 1 m)) TLD_COUNTRY_MAP) as [c|] eqn:E; [|exact T2].
  right. left. apply dict_get_In in E. apply in_map_iff.
  exists (lower (group 1 m), c). auto.
Qed.

(** X10. The scan of the third tier prefers long aliases: when an alias
    of [COUNTRY_ALIASES] is found in the text, the scan returns the name of an
    alias that is found and is at least as long, and the name is not
    empty. *)
Theorem longest_alias_wins {U : UnicodeData} (txt alias : pystr) :
  In alias (map fst COUNTRY_ALIASES) ->
  re_search (alias_re alias) txt <> None ->
  exists found,
    In found (map fst COUNTRY_ALIASES)
    /\ re_search (alias_re found) txt <> None
    /\ (List.length alias <= List.length found)%nat
    /\ scan_aliases (sorted_longest_first (map fst COUNTRY_ALIASES)) txt
       = or_empty (dict_get found COUNTRY_ALIASES)
    /\ scan_aliases (sorted_longest_first (map fst COUNTRY_ALIASES)) txt <> [].
Proof.
  intros Ha Hm.
  destruct (@scan_sorted U (sorted_longest_first (map fst COUNTRY_ALIASES)) txt alias)
    as (b & Hb & Hbm & Hl & Hs); auto.
  - apply sorted_longest_first_sorted.
  - now apply sorted_longest_first_In.
  - apply (proj1 (sorted_longest_first_In _ _)) in Hb. exists b.
    split; [exact Hb|]. split; [exact Hbm|]. split; [exact Hl|]. split; [exact Hs|].
    rewrite Hs. apply in_map_iff in Hb. destruct Hb as ((k, v) & <- & Hin). cbn [fst].
    destruct (dict_get k COUNTRY_ALIASES) as [w|] eqn:G.
    + cbn [or_empty]. apply (alias_facts _ G).
    + exfalso. apply dict_get_None in G. apply G. apply in_map_iff. exists (k, v). auto.
Qed.

Lemma longest_alias_wins_witness :
  In (py "korea") (map fst COUNTRY_ALIASES)
  /\ re_search (U:=latin1_tables) (alias_re (py "korea")) (py "Seoul National University; Republic of Korea") <> None
  /\ scan_aliases (U:=latin1_tables) (sorted_longest_first (map fst COUNTRY_ALIASES))
       (py "Seoul National University; Republic of Korea") <> [].
Proof.
  assert (A : In (py "korea") (map fst COUNTRY_ALIASES)) by (vm_compute; tauto).
  assert (B : re_search (U:=latin1_tables) (alias_re (py "korea"))
                        (py "Seoul National University; Republic of Korea") <> None)
    by (vm_compute; discriminate).
  split; [exact A|]. split; [exact B|].
  destruct (@longest_alias_wins latin1_tables
              (py "Seoul National University; Republic of Korea") (py "korea") A B)
    as (b & _ & _ & _ & _ & H).
  exact H.
Defined.

(** ** Bullets *)

Section BulletFacts.
Variable repr_of : json -> pystr.

Lemma strip_keeps_mark (r : pystr) :
  startswith (strip (bullet_mark ++ r)) bullet_mark = true.
Proof.
  unfold strip, strip_by. change (bullet_mark ++ r) with (12539 :: r).
  cbn [lstrip_by]. change (is_space 12539) with false. cbv iota.
  rewrite rstrip_by_cons. change (is_space 12539) with false. cbv iota.
  destruct (rstrip_by is_space r); reflexivity.
Qed.

Lemma startswith_mark (x : pystr) :
  startswith x bullet_mark = true -> exists t, x = bullet_mark ++ t.
Proof.
  destruct x as [|c t]; [discriminate|]. unfold startswith.
  change (firstn (List.length bullet_mark) (c :: t)) with [c].
  intros H. apply str_eqb_eq in H. exists t. now rewrite <- H.
Qed.

Lemma cut_is_bullet (x : pystr) :
  startswith x bullet_mark = true ->
  is_bullet (if (List.length x <=? 150)%nat then x else firstn 147 x ++ ellipsis).
Proof.
  intros H. destruct (List.length x <=? 150)%nat eqn:E.
  - apply Nat.leb_le in E. split; [exact H | exact E].
  - apply Nat.leb_gt in E. destruct (startswith_mark x H) as (t & ->). split.
    + reflexivity.
    + rewrite length_app, length_firstn. change (List.length ellipsis) with 1%nat. lia.
Qed.

Lemma In_firstn (A : Type) (n : nat) (l : list A) (x : A) :
  In x (firstn n l) -> In x l.
Proof.
  revert l. induction n as [|n IH]; intros [|a l]; cbn [firstn In]; try tauto.
  intros [->|H]; auto.
Qed.

Lemma firstn_pad (A : Type) (target : nat) (x : A) (l : list A) :
  List.length (firstn target l ++ repeat x (target - List.length (firstn target l)))
  = target.
Proof.
  rewrite length_app, repeat_length. pose proof (firstn_le_length target l). lia.
Qed.

Lemma _format_bullets_some (items : list json) (target : nat) :
  let xs := firstn target
              (map (fun x => strip (bullet_mark ++ lstrip_by (mem_chars bullet_lead) x))
                   (filter nonempty (map (fun x => strip (py_str repr_of x)) items))) in
  let out := map (fun x => if (List.length x <=? 150)%nat then x
                           else firstn 147 x ++ ellipsis)
                 (xs ++ repeat bullet_filler (target - List.length xs)) in
  List.length out = target /\ Forall is_bullet out.
Proof.
  cbv zeta. split.
  - rewrite length_map. apply firstn_pad.
  - apply Forall_map, Forall_app. split.
    + apply Forall_forall. intros x Hx. apply In_firstn in Hx.
      apply in_map_iff in Hx. destruct Hx as (y & <- & _).
      apply cut_is_bullet, strip_keeps_mark.
    + apply Forall_forall. intros x Hx. apply repeat_spec in Hx. subst x.
      apply cut_is_bullet. reflexivity.
Qed.

Lemma _format_bullets_cases (lines : json) (target : nat) :
  match _format_bullets repr_of lines target with
  | Some xs => List.length xs = target /\ Forall is_bullet xs
  | None => truthy lines = true /\ iterate lines = None
  end.
Proof.
  unfold _format_bullets. destruct (truthy lines) eqn:T.
  - destruct (iterate lines) as [items|] eqn:I; [|auto].
    apply _format_bullets_some.
  - apply (_format_bullets_some [] target).
Qed.

Lemma _format_bullets_none (target : nat) :
  _format_bullets repr_of JNull target = Some (repeat bullet_filler target).
Proof.
  unfold _format_bullets. cbn [truthy filter map]. rewrite firstn_nil. cbn [app List.length].
  rewrite Nat.sub_0_r. f_equal. induction target; [reflexivity|].
  cbn [repeat map]. now rewrite IHtarget.
Qed.
End BulletFacts.

Lemma strip_after_mark (r : pystr) :
  strip (bullet_mark ++ r) = bullet_mark ++ rstrip_by is_space r.
Proof.
  unfold strip, strip_by. change (bullet_mark ++ r) with (12539 :: r).
  cbn [lstrip_by]. change (is_space 12539) with false. cbv iota.
  rewrite rstrip_by_cons. change (is_space 12539) with false. cbv iota.
  destruct (rstrip_by is_space r); reflexivity.
Qed.

(** The bullet at each place: the line kept at that place, marked and cut,
    or the placeholder. *)
Lemma _format_bullets_nth (repr_of : json -> pystr) (lines : json) (target : nat)
      (xs : list pystr) (i : nat) :
  _format_bullets repr_of lines target = Some xs ->
  (i < target)%nat ->
  nth_error xs i
  = Some (match nth_error (kept_lines repr_of lines) i with
          | Some x =>
              let b := bullet_mark
                         ++ rstrip_by is_space (lstrip_by (mem_chars bullet_lead) x) in
              if (List.length b <=? 150)%nat then b else firstn 147 b ++ ellipsis
          | None => bullet_filler
          end).
Proof.
  unfold _format_bullets, kept_lines.
  destruct (if truthy lines then iterate lines else Some []) as [items|]; [|discriminate].
  set (kept := filter nonempty (map (fun x => strip (py_str repr_of x)) items)).
  intros [= <-] Hi.
  rewrite (map_ext _ _ (fun x => strip_after_mark (lstrip_by (mem_chars bullet_lead) x))).
  rewrite nth_error_map, nth_error_app, length_firstn, length_map.
  destruct (nth_error kept i) as [x|] eqn:E.
  - assert (Hk : (i < List.length kept)%nat) by (apply nth_error_Some; congruence).
    replace (i <? Nat.min target (List.length kept))%nat with true
      by (symmetry; apply Nat.ltb_lt; lia).
    rewrite nth_error_firstn.
    replace (i <? target)%nat with true by (symmetry; now apply Nat.ltb_lt).
    rewrite nth_error_map, E. reflexivity.
  - apply nth_error_None in E.
    replace (i <? Nat.min target (List.length kept))%nat with false
      by (symmetry; apply Nat.ltb_ge; lia).
    rewrite nth_error_repeat by lia. reflexivity.
Qed.

(** X11. [_format_bullets] returns exactly [target] bullets, each one
    starting with the mark and at most 150 characters long, whatever the
    lines are.  The bullet at place [i] is made from the [i]-th line that
    is not blank: the mark, then the line without the marks and spaces it
    starts with and without the whitespace it ends with; when that is longer
    than 150 characters it is cut to its first 147 characters and an
    ellipsis.  Where there are fewer lines than [target], the bullet is the
    placeholder.  The function raises only for lines that are truthy and
    not iterable ([True] or a number that is not zero). *)
Theorem format_bullets_fills_and_cuts
  (repr_of : json -> pystr) (lines : json) (target : nat) :
  match _format_bullets repr_of lines target with
  | Some xs =>
      List.length xs = target
      /\ Forall is_bullet xs
      /\ forall i, (i < target)%nat ->
           nth_error xs i
           = Some (match nth_error (kept_lines repr_of lines) i with
                   | Some x =>
                       let b := bullet_mark
                                  ++ rstrip_by is_space
                                       (lstrip_by (mem_chars bullet_lead) x) in
                       if (List.length b <=? 150)%nat then b
                       else firstn 147 b ++ ellipsis
                   | None => bullet_filler
                   end)
  | None => truthy lines = true /\ iterate lines = None
  end.
Proof.
  pose proof (_format_bullets_cases repr_of lines target) as H.
  destruct (_format_bullets repr_of lines target) as [xs|] eqn:E; [|exact H].
  destruct H as [Hl Hb]. split; [exact Hl|]. split; [exact Hb|].
  intros i Hi. exact (@_format_bullets_nth repr_of lines target xs i E Hi).
Qed.

Section SummaryFacts.
Variable repr_of : json -> pystr.
Variable generate : pystr -> pystr -> result dict.



End SummaryFacts.


(** X13. Once the client is built: when the call of the model raises, or
    its answer holds no object, [summarize_title_and_bullets] returns the
    placeholder title and four placeholder bullets. *)
Theorem failed_summary_is_a_placeholder
  (repr_of : json -> pystr) (generate : pystr -> pystr -> result dict)
  (title abstract : pystr) :
  (generate title (firstn (7 * 1000) abstract) = Ok []
   \/ exists e, generate title (firstn (7 * 1000) abstract) = Raise e) ->
  summarize_title_and_bullets repr_of true generate title abstract
  = Returned (Summary title_failed (repeat bullet_filler 4)).
Proof.
  intros H. unfold summarize_title_and_bullets. cbn [negb].
  replace (match generate title (firstn (7 * 1000) abstract) with
           | Ok d => d | Raise _ => [] end) with (@nil (pystr * json))
    by (destruct H as [-> | (e & ->)]; reflexivity).
  change (get_or_none (py "bullets") []) with JNull.
  rewrite _format_bullets_none. reflexivity.
Qed.

Lemma failed_summary_is_a_placeholder_witness :
  summarize_title_and_bullets (fun _ => []) true (fun _ _ => Raise JSONDecodeError)
    (py "A trial") (py "Methods")
  = Returned (Summary title_failed (repeat bullet_filler 4)).
Proof.
  apply (@failed_summary_is_a_placeholder (fun _ => []) (fun _ _ => Raise JSONDecodeError)
           (py "A trial") (py "Methods")).
  right. exists JSONDecodeError. reflexivity.
Defined.

(** ** The loop of [main] and the state *)

Lemma register_registered (state : dict) (k p now : pystr) :
  registered k state -> register state p now = state \/ p <> k.
Proof.
  intros (entry & v & Hk & Ha & Ht).
  destruct (list_eq_dec N.eq_dec p k) as [->|N]; [left | now right].
  unfold register. now rewrite Hk, Ha, Ht.
Qed.

Lemma registered_stays (state : dict) (k p now : pystr) :
  registered k state ->
  dict_get k (register state p now) = dict_get k state.
Proof.
  intros H. destruct (@register_registered state k p now H) as [-> | N]; auto.
  apply register_other. congruence.
Qed.

Lemma register_mem (state : dict) (k p now : pystr) :
  dict_mem k (register state p now) = dict_mem k state || str_eqb p k.
Proof.
  unfold dict_mem.
  destruct (list_eq_dec N.eq_dec p k) as [->|N].
  - rewrite str_eqb_refl, orb_true_r.
    unfold register.
    destruct (dict_get k state) as [[| | | | | |entry]|] eqn:G;
      try (now rewrite dict_get_set_eq).
    destruct (match dict_get added_at entry with Some v => truthy v | None => false end).
    + now rewrite G.
    + now rewrite dict_get_set_eq.
  - rewrite register_other by congruence.
    apply str_eqb_neq in N. rewrite N. now rewrite orb_false_r.
Qed.

Section LoopState.
Variable summarize : nat -> pystr -> pystr -> summary_data.
Variable now : pystr.

Lemma l_state_step (w : loop_state) (r : record) :
  l_state (process_record summarize now w r) = register (l_state w) (pmid r) now.
Proof. reflexivity. Qed.

Lemma rec_of_step (w : loop_state) (r : record) :
  map rec_of (l_items (process_record summarize now w r)) = map rec_of (l_items w) ++ [r].
Proof. unfold process_record. cbn [l_items]. now rewrite map_app. Qed.

Lemma loop_records (records : list record) (w : loop_state) :
  map rec_of (l_items (fold_left (process_record summarize now) records w))
  = map rec_of (l_items w) ++ records.
Proof.
  revert w. induction records as [|r rs IH]; intros w; cbn [fold_left].
  - now rewrite app_nil_r.
  - rewrite IH, rec_of_step, <- app_assoc. reflexivity.
Qed.

Lemma loop_mem (records : list record) (w : loop_state) (k : pystr) :
  dict_mem k (l_state (fold_left (process_record summarize now) records w))
  = dict_mem k (l_state w) || existsb (str_eqb k) (map pmid records).
Proof.
  revert w. induction records as [|r rs IH]; intros w; cbn [fold_left map existsb].
  - now rewrite orb_false_r.
  - rewrite IH, l_state_step, register_mem, <- orb_assoc. do 2 f_equal.
    unfold str_eqb. destruct (list_eq_dec N.eq_dec (pmid r) k), (list_eq_dec N.eq_dec k (pmid r));
      congruence.
Qed.

Lemma loop_registered_stays (records : list record) (w : loop_state) (k : pystr) :
  registered k (l_state w) ->
  dict_get k (l_state (fold_left (process_record summarize now) records w))
  = dict_get k (l_state w).
Proof.
  revert w. induction records as [|r rs IH]; intros w H; cbn [fold_left]; auto.
  assert (E : dict_get k (l_state (process_record summarize now w r)) = dict_get k (l_state w))
    by (rewrite l_state_step; now apply registered_stays).
  rewrite IH; auto.
  destruct H as (entry & v & Hk & Ha & Ht). exists entry, v. rewrite E. auto.
Qed.

Lemma loop_registers (records : list record) (w : loop_state) (r : record) :
  now <> [] -> In r records ->
  registered (pmid r) (l_state (fold_left (process_record summarize now) records w)).
Proof.
  intros Hn. revert w. induction records as [|x rs IH]; intros w Hin; [destruct Hin|].
  cbn [fold_left]. destruct Hin as [->|Hin]; [|now apply IH].
  assert (R : registered (pmid r) (l_state (process_record summarize now w r))).
  { rewrite l_state_step. now apply register_records. }
  pose proof (@loop_registered_stays rs _ (pmid r) R) as E.
  destruct R as (entry & v & Hk & Ha & Ht). exists entry, v. rewrite E. auto.
Qed.

Lemma loop_NoDup (records : list record) (w : loop_state) :
  NoDup (keys (l_state w)) ->
  NoDup (keys (l_state (fold_left (process_record summarize now) records w))).
Proof.
  revert w. induction records as [|r rs IH]; intros w H; cbn [fold_left]; auto.
  apply IH. rewrite l_state_step. now apply register_NoDup.
Qed.
End LoopState.

(** X14. After the loop of [main], run at a time [now] that is not empty:
    every record's PMID has an entry with a time; an entry that had a time
    before the loop is as it was; and the keys of the state are those it had
    and the PMIDs of the records. *)
Theorem loop_registers_every_record
  (summarize : nat -> pystr -> pystr -> summary_data)
  (now : pystr) (state : dict) (records : list record) :
  now <> [] ->
  let final := l_state (process_records summarize now state records) in
  (forall r, In r records -> registered (pmid r) final)
  /\ (forall k, registered k state -> dict_get k final = dict_get k state)
  /\ (forall k, dict_mem k final
                = dict_mem k state || existsb (str_eqb k) (map pmid records)).
Proof.
  intros Hn. cbv zeta. unfold process_records. split; [|split].
  - intros r Hr. now apply loop_registers.
  - intros k Hk. now apply (@loop_registered_stays summarize now records (Loop state [] []) k).
  - intros k. apply (@loop_mem summarize now records (Loop state [] []) k).
Qed.

Lemma loop_registers_every_record_witness :
  Examples.later <> []
  /\ registered (py "7")
       (l_state (process_records (fun _ _ _ => Summary [] [])
                   Examples.later (load_sent_state (Some (ListOf [py "7"])))
                   [Rec (py "7") (py "A trial") [] [] [] [] [] [] []])).
Proof.
  assert (H : Examples.later <> []) by discriminate.
  split; [exact H|].
  apply (proj1 (@loop_registers_every_record (fun _ _ _ => Summary [] [])
                  Examples.later (load_sent_state (Some (ListOf [py "7"])))
                  [Rec (py "7") (py "A trial") [] [] [] [] [] [] []] H)
               (Rec (py "7") (py "A trial") [] [] [] [] [] [] [])).
  left. reflexivity.
Defined.

Section MainFacts.
Context {U : UnicodeData}.
Variable ET_fromstring : pystr -> result Element.

Lemma dict_mem_load_save (state : dict) (k : pystr) :
  NoDup (keys state) ->
  dict_mem k (load_sent_state (save_sent_state state)) = dict_mem k state.
Proof.
  intros H. unfold dict_mem. rewrite load_after_save by exact H.
  destruct (dict_get k state); reflexivity.
Qed.

Lemma main_known (pubmed_efetch : list pystr -> pystr)
      (summarize : nat -> pystr -> pystr -> summary_data)
      (f : file) (pmids : list pystr) (now : pystr) :
  (forall p, In p pmids -> dict_mem p (load_sent_state f) = true) ->
  main ET_fromstring pubmed_efetch summarize f pmids now = Ok (f, [], []).
Proof.
  intros H. unfold main.
  replace (filter (fun p => negb (dict_mem p (load_sent_state f))) pmids) with (@nil pystr);
    [reflexivity|].
  symmetry. induction pmids as [|p r IH]; [reflexivity|]. cbn [filter].
  rewrite (H p) by now left. cbn [negb]. apply IH. intros q Hq. apply H. now right.
Qed.

Lemma main_state (pubmed_efetch : list pystr -> pystr)
      (summarize : nat -> pystr -> pystr -> summary_data)
      (f f' : file) (pmids : list pystr) (now : pystr)
      (calls : list (pystr * pystr)) (items : list item) (k : pystr) :
  main ET_fromstring pubmed_efetch summarize f pmids now = Ok (f', calls, items) ->
  dict_mem k (load_sent_state f')
  = dict_mem k (load_sent_state f) || existsb (str_eqb k) (sent_pmids items).
Proof.
  unfold main.
  destruct (filter (fun p => negb (dict_mem p (load_sent_state f))) pmids) as [|p ps].
  - intros [= <- _ <-]. now rewrite orb_false_r.
  - destruct (parse_records ET_fromstring (pubmed_efetch (p :: ps))) as [records|e];
      [|discriminate].
    cbn [bind]. intros [= <- _ <-].
    rewrite dict_mem_load_save.
    + unfold process_records. rewrite loop_mem. cbn [l_state]. do 2 f_equal.
      unfold sent_pmids. rewrite <- (map_map rec_of pmid), loop_records. reflexivity.
    + apply loop_NoDup. apply load_sent_state_NoDup.
Qed.
End MainFacts.

(** X15. A run of [main] that ends registers what it sends: the PMIDs
    known to the file it leaves are those known before and those of the
    items sent; the summariser was called once per item; and a later run
    that finds only such PMIDs sends nothing and leaves the file as it
    is. *)
Theorem sent_records_are_not_sent_again
  {U : UnicodeData} (ET_fromstring : pystr -> result Element)
  (pubmed_efetch : list pystr -> pystr)
  (summarize : nat -> pystr -> pystr -> summary_data)
  (f f' : file) (pmids : list pystr) (now : pystr)
  (calls : list (pystr * pystr)) (items : list item) :
  main ET_fromstring pubmed_efetch summarize f pmids now = Ok (f', calls, items) ->
  (forall k, dict_mem k (load_sent_state f')
             = dict_mem k (load_sent_state f) || existsb (str_eqb k) (sent_pmids items))
  /\ List.length calls = List.length items
  /\ (forall pubmed_efetch' summarize' now' again,
         (forall p, In p again ->
                    dict_mem p (load_sent_state f) = true \/ In p (sent_pmids items)) ->
         main ET_fromstring pubmed_efetch' summarize' f' again now' = Ok (f', [], [])).
Proof.
  intros H. split; [|split].
  - intros k. apply (@main_state U ET_fromstring pubmed_efetch summarize f f' pmids now calls items k H).
  - revert H. unfold main.
    destruct (filter (fun p => negb (dict_mem p (load_sent_state f))) pmids) as [|p ps].
    + intros [= _ <- <-]. reflexivity.
    + destruct (parse_records ET_fromstring (pubmed_efetch (p :: ps))) as [records|e];
        [|discriminate].
      cbn [bind]. intros [= _ <- <-]. unfold process_records.
      destruct (loop_appends summarize now records (Loop (load_sent_state f) [] []))
        as (cs & its & -> & -> & Hc & Hi).
      cbn [l_calls l_items app]. congruence.
  - intros efetch' summarize' now' again Hp. apply main_known.
    intros p Hin. rewrite (@main_state U ET_fromstring pubmed_efetch summarize f f' pmids now calls items p H).
    destruct (Hp p Hin) as [-> | Hs]; [reflexivity|].
    apply existsb_str_eqb in Hs. rewrite Hs. apply orb_true_r.
Qed.

Lemma sent_records_are_not_sent_again_witness :
  match main (U:=latin1_tables) Xml.fromstring (fun _ => Examples.one_article_xml)
             (fun _ _ _ => Summary [] []) Examples.stored_one [py "3"] Examples.later with
  | Ok (f', calls, items) =>
      sent_pmids items = [py "3"]
      /\ dict_mem (py "3") (load_sent_state Examples.stored_one) = false
      /\ dict_mem (py "3") (load_sent_state f') = true
  | Raise _ => False
  end.
Proof.
  destruct (main (U:=latin1_tables) Xml.fromstring (fun _ => Examples.one_article_xml)
             (fun _ _ _ => Summary [] []) Examples.stored_one [py "3"] Examples.later)
    as [[[f' calls] items]|e] eqn:E.
  - assert (S : sent_pmids items = [py "3"]).
    { vm_compute in E. injection E as _ _ <-. reflexivity. }
    split; [exact S|]. split; [reflexivity|].
    rewrite (proj1 (@sent_records_are_not_sent_again latin1_tables Xml.fromstring
                      (fun _ => Examples.one_article_xml) (fun _ _ _ => Summary [] [])
                      Examples.stored_one f' [py "3"] Examples.later calls items E)
                   (py "3")).
    rewrite S. reflexivity.
  - vm_compute in E. discriminate E.
Defined.

(** ** The store file is a fixed point of loading and saving *)

Lemma json_nested_ind (P : json -> Prop) :
  P JNull -> (forall b, P (JBool b)) -> (forall z, P (JInt z)) ->
  (forall x, P (JFloat x)) -> (forall s, P (JStr s)) ->
  (forall items, Forall P items -> P (JArr items)) ->
  (forall members, Forall (fun kv => P (snd kv)) members -> P (JObj members)) ->
  forall j, P j.
Proof.
  intros Hn Hb Hz Hf Hs Ha Ho. fix IH 1.
  intros [ |b|z|x|s|items|members];
    [exact Hn | apply Hb | apply Hz | apply Hf | apply Hs | | ].
  - apply Ha. induction items as [|x r IHr]; constructor; [apply IH | exact IHr].
  - apply Ho. induction members as [|kv r IHr]; constructor; [apply IH | exact IHr].
Qed.

Lemma In_dict_set (V : Type) (d : list (pystr * V)) (k : pystr) (v : V) (kv : pystr * V) :
  In kv (dict_set k v d) -> snd kv = v \/ In kv d.
Proof.
  induction d as [|[k' v'] r IH]; cbn [dict_set].
  - intros [<-|[]]. now left.
  - destruct (str_eqb k' k).
    + intros [<-|H]; [now left | right; now right].
    + intros [<-|H]; [right; now left|]. destruct (IH H); [now left | right; now right].
Qed.

Lemma Forall_dict_set (V : Type) (P : V -> Prop) (d : list (pystr * V)) (k : pystr) (v : V) :
  P v -> Forall (fun kv => P (snd kv)) d ->
  Forall (fun kv => P (snd kv)) (dict_set k v d).
Proof.
  intros Hv Hd. apply Forall_forall. intros kv H. apply In_dict_set in H.
  destruct H as [-> | H]; auto. rewrite Forall_forall in Hd. auto.
Qed.

Lemma Forall_dict_of_members (V : Type) (P : V -> Prop) (ms acc : list (pystr * V)) :
  Forall (fun kv => P (snd kv)) ms -> Forall (fun kv => P (snd kv)) acc ->
  Forall (fun kv => P (snd kv))
         (fold_left (fun d kv => dict_set (fst kv) (snd kv) d) ms acc).
Proof.
  revert acc. induction ms as [|kv r IH]; intros acc Hm Ha; cbn [fold_left]; auto.
  inversion Hm; subst. apply IH; auto. now apply Forall_dict_set.
Qed.

Lemma load_value_like (j : json) : dict_like (load_value j).
Proof.
  induction j as [ | | | | |items IH|members IH] using json_nested_ind;
    cbn [load_value]; try (constructor; fail).
  - apply like_arr. now apply Forall_map.
  - apply like_obj.
    + apply (@NoDup_dict_of_members json). constructor.
    + apply Forall_dict_of_members; [|constructor]. now apply Forall_map.
Qed.

Lemma sorted_items_fixed (V : Type) (l : list (pystr * V)) :
  NoDup (keys l) -> sorted_items (sorted_items l) = sorted_items l.
Proof.
  intros H. apply sorted_perm_eq.
  - apply sorted_items_sorted.
  - apply sorted_items_sorted.
  - apply (Permutation_NoDup (l:=keys (sorted_items l))); [|].
    + apply Permutation_map, Permutation_sym, sorted_items_perm.
    + apply (Permutation_NoDup (l:=keys l)); auto.
      apply Permutation_map, Permutation_sym, sorted_items_perm.
  - apply sorted_items_perm.
Qed.

Lemma NoDup_keys_sorted_items (V : Type) (l : list (pystr * V)) :
  NoDup (keys l) -> NoDup (keys (sorted_items l)).
Proof.
  intros H. apply (Permutation_NoDup (l:=keys l)); auto.
  apply Permutation_map, Permutation_sym, sorted_items_perm.
Qed.

Lemma map_fixed_in (A : Type) (f : A -> A) (l : list A) :
  (forall x, In x l -> f x = x) -> map f l = l.
Proof.
  induction l as [|a r IH]; intros H; cbn [map]; [reflexivity|].
  rewrite (H a) by now left. rewrite IH; auto. intros x Hx. apply H. now right.
Qed.

Lemma dump_load_dump (j : json) :
  dict_like j -> dump_value (load_value (dump_value j)) = dump_value j.
Proof.
  induction j as [ | | | | |items IH|members IH] using json_nested_ind;
    intros L; try reflexivity.
  - inversion L as [ | | | | |? Hi| ]; subst. cbn [dump_value load_value]. f_equal.
    rewrite !map_map. apply map_ext_in. intros x Hx.
    rewrite Forall_forall in IH, Hi. auto.
  - inversion L as [ | | | | | |? Hn Hv]; subst. cbn [dump_value load_value].
    f_equal.
    set (S := sorted_items (map (fun kv => (fst kv, dump_value (snd kv))) members)).
    assert (NS : NoDup (keys S)).
    { apply NoDup_keys_sorted_items. now rewrite keys_map_values. }
    rewrite dict_of_members_id by (now rewrite keys_map_values).
    rewrite map_map. cbn [fst snd].
    rewrite (@map_fixed_in _ (fun x => (fst x, dump_value (load_value (snd x)))) S).
    + apply sorted_items_fixed. now rewrite keys_map_values.
    + intros [k v] Hx. cbn [fst snd]. f_equal.
      apply (Permutation_in _ (sorted_items_perm _)) in Hx.
      apply in_map_iff in Hx. destruct Hx as ([k0 v0] & [= <- <-] & Hin). cbn [snd].
      rewrite Forall_forall in IH, Hv. apply (IH (k0, v0) Hin). apply (Hv (k0, v0) Hin).
Qed.

Lemma save_load_save (state : dict) :
  dict_like (JObj state) ->
  save_sent_state (load_sent_state (save_sent_state state)) = save_sent_state state.
Proof.
  intros L. pose proof (dump_load_dump L) as E. cbn [dump_value load_value] in E.
  injection E as E. rewrite !save_sent_state_eq. cbn [load_sent_state json_load].
  unfold dump_member. now rewrite E.
Qed.

Lemma legacy_like (ids : list pystr) (acc : dict) :
  dict_like (JObj acc) ->
  dict_like (JObj (fold_left (fun d pmid => dict_set pmid (JObj [(added_at, JNull)]) d)
                             ids acc)).
Proof.
  revert acc. induction ids as [|id r IH]; intros acc L; cbn [fold_left]; auto.
  apply IH. inversion L as [ | | | | | |? Hn Hv]; subst. constructor.
  - now apply NoDup_keys_set.
  - apply Forall_dict_set; auto. constructor.
    + cbn. constructor; [tauto | constructor].
    + repeat constructor.
Qed.

Lemma load_sent_state_like (f : file) : dict_like (JObj (load_sent_state f)).
Proof.
  assert (E : dict_like (JObj [])) by (constructor; constructor).
  destruct f as [[ | |ids|ms| ]|]; cbn [load_sent_state json_load]; auto.
  - now apply legacy_like.
  - apply (load_value_like (JObj ms)).
Qed.

Lemma register_like (state : dict) (pmid now : pystr) :
  dict_like (JObj state) -> dict_like (JObj (register state pmid now)).
Proof.
  intros L. inversion L as [ | | | | | |? Hn Hv]; subst.
  assert (F : dict_like (JObj (dict_set pmid (JObj [(added_at, JStr now)]) state))).
  { constructor; [now apply NoDup_keys_set|]. apply Forall_dict_set; auto.
    constructor; [cbn; constructor; [tauto | constructor] | repeat constructor]. }
  unfold register.
  destruct (dict_get pmid state) as [[ | | | | | |entry]|] eqn:G; auto.
  destruct (match dict_get added_at entry with Some v => truthy v | None => false end); auto.
  constructor; [now apply NoDup_keys_set|]. apply Forall_dict_set; auto.
  apply dict_get_In in G. rewrite Forall_forall in Hv. specialize (Hv _ G). cbn [snd] in Hv.
  inversion Hv as [ | | | | | |? Hn' Hv']; subst. constructor.
  - now apply NoDup_keys_set.
  - apply Forall_dict_set; auto. constructor.
Qed.

Lemma loop_like (summarize : nat -> pystr -> pystr -> summary_data) (now : pystr)
      (records : list record) (w : loop_state) :
  dict_like (JObj (l_state w)) ->
  dict_like (JObj (l_state (fold_left (process_record summarize now) records w))).
Proof.
  revert w. induction records as [|r rs IH]; intros w L; cbn [fold_left]; auto.
  apply IH. rewrite l_state_step. now apply register_like.
Qed.

(** X16. The file that [main] writes is a fixed point of the store:
    whatever file the run started from and whatever records it registered,
    loading the written file and saving what was loaded writes the same file
    again, and loading that gives the same state. *)
Theorem saved_file_is_stable
  (summarize : nat -> pystr -> pystr -> summary_data)
  (now : pystr) (f : file) (records : list record) :
  let written :=
    save_sent_state (l_state (process_records summarize now (load_sent_state f) records)) in
  save_sent_state (load_sent_state written) = written
  /\ load_sent_state (save_sent_state (load_sent_state written)) = load_sent_state written.
Proof.
  cbv zeta.
  assert (E : save_sent_state
                (load_sent_state
                   (save_sent_state
                      (l_state (process_records summarize now (load_sent_state f) records))))
              = save_sent_state
                  (l_state (process_records summarize now (load_sent_state f) records))).
  { apply save_load_save. unfold process_records.
    apply (@loop_like summarize now records (Loop (load_sent_state f) [] [])).
    apply load_sent_state_like. }
  split; [exact E | now rewrite E].
Qed.
